(** * Git watcher IPC bridge, window manager and theme-path check of 1code

    A shallow embedding of
    - [src/main/lib/git/watcher/ipc-bridge.ts] (the Subscription Bridge),
    - [src/main/windows/window-manager.ts] (the window manager),
    - the [vscode:load-theme] path check of [src/main/lib/vscode-theme-scanner.ts],
    together with the properties the specification states about them.

    JavaScript [Map]s iterate in insertion order and the bridge and the window
    manager both depend on that order ([cleanupWindowSubscriptions],
    [remainingWindows[0]]), so they are modelled by the insertion-ordered
    [JsMap] below.  The cache and the watcher registry are key-value stores
    whose order is never observed; they are stdpp [gmap]s. *)

From Stdlib Require Import Ascii.
From stdpp Require Import base option list strings pretty gmap sorting.

(** ** Insertion-ordered maps (ECMAScript [Map]) *)

Module JsMap.
(** Entries in insertion order. *)
Abbreviation t K V := (list (K * V)) (only parsing).

Section ops.
Context {K V : Type} `{EqDecision K}.

Definition empty : t K V := [].

Fixpoint get (k : K) (m : t K V) : option V :=
  match m with
  | [] => None
  | (k', v) :: m' => if decide (k = k') then Some v else get k m'
  end.

Definition has (k : K) (m : t K V) : bool :=
  match get k m with Some _ => true | None => false end.

(** [Map.prototype.set]: an existing key keeps its position, a new key is
    appended. *)
Fixpoint set (k : K) (v : V) (m : t K V) : t K V :=
  match m with
  | [] => [(k, v)]
  | (k', v') :: m' =>
      if decide (k = k') then (k, v) :: m' else (k', v') :: set k v m'
  end.

Fixpoint delete (k : K) (m : t K V) : t K V :=
  match m with
  | [] => []
  | (k', v') :: m' =>
      if decide (k = k') then delete k m' else (k', v') :: delete k m'
  end.

Definition clear (m : t K V) : t K V := [].
Definition keys (m : t K V) : list K := m.*1.
Definition values (m : t K V) : list V := m.*2.
Definition size (m : t K V) : nat := length m.
End ops.
End JsMap.

(** ** Electron: the table of browser windows *)

Module BrowserWindow.
(** What the bridge and the window manager read of a [BrowserWindow]:
    [window.id], [window.webContents.id], [window.isDestroyed()], and
    whether [window.webContents.send] throws (its web contents are gone). *)
Record t : Type := Build {
  id : nat;
  webContents_id : nat;
  isDestroyed : bool;
  webContents_isDestroyed : bool
}.
End BrowserWindow.

Module Electron.
Record t : Type := Build {
  allWindows : list BrowserWindow.t;
  focusedWindow : option nat
}.

(** [BrowserWindow.fromId(id)] *)
Definition fromId (i : nat) (e : t) : option BrowserWindow.t :=
  List.find (λ w, bool_decide (BrowserWindow.id w = i)) (allWindows e).

(** [BrowserWindow.fromWebContents(sender)] *)
Definition fromWebContents (wc : nat) (e : t) : option BrowserWindow.t :=
  List.find (λ w, bool_decide (BrowserWindow.webContents_id w = wc)) (allWindows e).

Definition withFocus (f : option nat) (e : t) : t :=
  Build (allWindows e) f.
End Electron.

(** ** The cache ([gitCache]) *)

Module GitCache.
(** Modelled from the spec: [gitCache] ([src/main/lib/git/cache]) is not
    among the sources.  Section 3 and 4.2 of the specification: two
    independent slots per worktree path, [status] and [parsedDiff], each
    absent or holding a computed value; invalidation sets the slot to
    absent and is a no-op on an absent slot. *)
Record t : Type := Build {
  status : gmap string string;
  parsedDiff : gmap string string
}.

Definition invalidateStatus (worktreePath : string) (c : t) : t :=
  Build (base.delete worktreePath (status c)) (parsedDiff c).

Definition invalidateParsedDiff (worktreePath : string) (c : t) : t :=
  Build (status c) (base.delete worktreePath (parsedDiff c)).
End GitCache.

(** ** The watcher registry ([gitWatcherRegistry]) *)

(** The capability returned by [subscribe]: it removes one listener of one
    watch entry. *)
Record Capability : Type := MkCapability {
  cap_path : string;
  cap_listener : nat
}.

Global Instance Capability_eq_dec : EqDecision Capability.
Proof. solve_decision. Defined.

Module WatcherRegistry.
(** Modelled from the spec: [gitWatcherRegistry] ([./git-watcher]) is not
    among the sources.  Section 3 and 4.1 of the specification: at most one
    watch entry per worktree, each with its listeners; [subscribe] opens the
    watch for the first listener (and fails when the watch cannot be
    opened), reuses it otherwise, and returns the capability that removes
    exactly that listener, reaping the entry with its last listener;
    [disposeAll] clears every entry. *)
Record t : Type := Build {
  entries : gmap string (list nat);
  nextListener : nat;
  canOpen : string → bool
}.

Definition subscribe (worktreePath : string) (r : t) : option Capability * t :=
  let l := nextListener r in
  match entries r !! worktreePath with
  | Some ls =>
      (Some (MkCapability worktreePath l),
       Build (<[worktreePath := ls ++ [l]]> (entries r)) (S l) (canOpen r))
  | None =>
      if canOpen r worktreePath
      then (Some (MkCapability worktreePath l),
            Build (<[worktreePath := [l]]> (entries r)) (S l) (canOpen r))
      else (None, r)
  end.

Definition unsubscribe (c : Capability) (r : t) : t :=
  match entries r !! cap_path c with
  | Some ls =>
      let ls' := List.filter (λ l, negb (bool_decide (l = cap_listener c))) ls in
      match ls' with
      | [] => Build (base.delete (cap_path c) (entries r)) (nextListener r) (canOpen r)
      | _ => Build (<[cap_path c := ls']> (entries r)) (nextListener r) (canOpen r)
      end
  | None => r
  end.

Definition disposeAll (r : t) : t :=
  Build ∅ (nextListener r) (canOpen r).
End WatcherRegistry.

(** ** The Subscription Bridge ([ipc-bridge.ts]) *)

(** [GitWatchEvent], as far as the bridge reads it. *)
Module GitWatchEvent.
Record t : Type := Build {
  worktreePath : string;
  changes : list string
}.
End GitWatchEvent.

(** Values of [activeSubscriptions]. *)
Record Subscription : Type := MkSubscription {
  windowId : nat;
  unsubscribe : Capability
}.

(** Calls the bridge makes on its collaborators, in the order it makes them,
    and [activeSubscriptions.clear()], which the shutdown routine makes
    between two of them. *)
Inductive Effect : Type :=
  | RegistrySubscribe (worktreePath : string) (result : option Capability)
  | CallUnsubscribe (c : Capability)
  | ClearSubscriptions
  | RegistryDisposeAll
  | InvalidateStatus (worktreePath : string)
  | InvalidateParsedDiff (worktreePath : string)
  | Sent (windowId : nat) (channel : string) (payload : GitWatchEvent.t)
  | SendThrew (windowId : nat)
  | ConsoleLog (message : string).

(** The module-level state of the bridge and of the collaborators it calls.
    [effects] is chronological, oldest first. *)
Record World : Type := MkWorld {
  activeSubscriptions : JsMap.t string Subscription;
  gitWatcherRegistry : WatcherRegistry.t;
  gitCache : GitCache.t;
  electron : Electron.t;
  effects : list Effect
}.

Definition with_activeSubscriptions (f : JsMap.t string Subscription → JsMap.t string Subscription)
    (w : World) : World :=
  MkWorld (f (activeSubscriptions w)) (gitWatcherRegistry w) (gitCache w) (electron w) (effects w).
Definition with_gitWatcherRegistry (f : WatcherRegistry.t → WatcherRegistry.t) (w : World) : World :=
  MkWorld (activeSubscriptions w) (f (gitWatcherRegistry w)) (gitCache w) (electron w) (effects w).
Definition with_gitCache (f : GitCache.t → GitCache.t) (w : World) : World :=
  MkWorld (activeSubscriptions w) (gitWatcherRegistry w) (f (gitCache w)) (electron w) (effects w).
Definition with_electron (f : Electron.t → Electron.t) (w : World) : World :=
  MkWorld (activeSubscriptions w) (gitWatcherRegistry w) (gitCache w) (f (electron w)) (effects w).
Definition emit (e : Effect) (w : World) : World :=
  MkWorld (activeSubscriptions w) (gitWatcherRegistry w) (gitCache w) (electron w) (effects w ++ [e]).

(** How a handler ends: it returns, or it throws (a rejected promise for the
    [async] handlers). *)
Inductive Completion (A : Type) : Type :=
  | Returned (a : A)
  | Threw (error : string).
Global Arguments Returned {A} a.
Global Arguments Threw {A} error.

(** Handlers run on the single main thread: a computation reads and writes
    the [World] and finishes with a [Completion]. *)
Definition M (A : Type) : Type := World → Completion A * World.

Global Instance M_ret : MRet M := λ A a w, (Returned a, w).
Global Instance M_bind : MBind M := λ A B f m w,
  match m w with
  | (Returned a, w') => f a w'
  | (Threw e, w') => (Threw e, w')
  end.

Definition gets {A} (f : World → A) : M A := λ w, (Returned (f w), w).
Definition modify (f : World → World) : M unit := λ w, (Returned (), f w).
Definition throw {A} (e : string) : M A := λ w, (Threw e, w).
(** [try { body } catch { handler }] *)
Definition try_catch {A} (body : M A) (handler : string → M A) : M A := λ w,
  match body w with
  | (Returned a, w') => (Returned a, w')
  | (Threw e, w') => handler e w'
  end.

(** JavaScript truthiness of a string: only the empty string is falsy. *)
Definition truthy (s : string) : bool := negb (bool_decide (s = "")).

(** *** Collaborator calls *)

Definition console_log (message : string) : M unit := modify (emit (ConsoleLog message)).

Definition gitCache_invalidateStatus (worktreePath : string) : M unit :=
  modify (λ w, emit (InvalidateStatus worktreePath)
                 (with_gitCache (GitCache.invalidateStatus worktreePath) w)).

Definition gitCache_invalidateParsedDiff (worktreePath : string) : M unit :=
  modify (λ w, emit (InvalidateParsedDiff worktreePath)
                 (with_gitCache (GitCache.invalidateParsedDiff worktreePath) w)).

(** [targetWindow.webContents.send(channel, payload)]: throws when the web
    contents have been destroyed, delivers otherwise. *)
Definition webContents_send (targetWindow : BrowserWindow.t) (channel : string)
    (payload : GitWatchEvent.t) : M unit :=
  if BrowserWindow.webContents_isDestroyed targetWindow
  then (modify (emit (SendThrew (BrowserWindow.id targetWindow)));; throw "Object has been destroyed")
  else modify (emit (Sent (BrowserWindow.id targetWindow) channel payload)).

(** [subscription.unsubscribe()] *)
Definition call_unsubscribe (c : Capability) : M unit :=
  modify (λ w, emit (CallUnsubscribe c)
                 (with_gitWatcherRegistry (WatcherRegistry.unsubscribe c) w)).

(** [gitWatcherRegistry.subscribe(worktreePath, callback)]: the settled value
    of the promise, [None] for a rejection.  The callback registered is always
    [watchCallback worktreePath] below, so the registry entry need not store
    it. *)
Definition gitWatcherRegistry_subscribe (worktreePath : string) : M (option Capability) := λ w,
  let '(result, r) := WatcherRegistry.subscribe worktreePath (gitWatcherRegistry w) in
  (Returned result,
   emit (RegistrySubscribe worktreePath result) (with_gitWatcherRegistry (λ _, r) w)).

Definition gitWatcherRegistry_disposeAll : M unit :=
  modify (λ w, emit RegistryDisposeAll
                 (with_gitWatcherRegistry WatcherRegistry.disposeAll w)).

(** *** The watch-event callback (lines 39-62) *)

Definition watchCallback (worktreePath : string) (watchEvent : GitWatchEvent.t) : M unit :=
  subscription ← gets (λ w, JsMap.get worktreePath (activeSubscriptions w));
  match subscription with
  | None => mret ()
  | Some subscription =>
      targetWindow ← gets (λ w, Electron.fromId (windowId subscription) (electron w));
      match targetWindow with
      | None => mret ()
      | Some targetWindow =>
          if BrowserWindow.isDestroyed targetWindow then mret ()
          else
            gitCache_invalidateStatus worktreePath;;
            gitCache_invalidateParsedDiff worktreePath;;
            try_catch
              (webContents_send targetWindow "git:status-changed"
                 (GitWatchEvent.Build (GitWatchEvent.worktreePath watchEvent)
                                      (GitWatchEvent.changes watchEvent)))
              (λ _, mret ())
      end
  end.

(** *** [git:subscribe-watcher] (lines 20-70)

    The handler is [async]: it runs up to the [await] of
    [gitWatcherRegistry.subscribe], and resumes, possibly after other handlers
    have run, with the settled promise. *)

Record PendingSubscribe : Type := MkPending {
  pending_worktreePath : string;
  pending_windowId : nat;
  pending_result : option Capability
}.

(** Lines 23-37, up to the [await]. [sender] is [event.sender]. *)
Definition subscribe_request (sender : nat) (worktreePath : string) : M (option PendingSubscribe) :=
  if negb (truthy worktreePath) then mret None
  else
    subscribed ← gets (λ w, JsMap.has worktreePath (activeSubscriptions w));
    if (subscribed : bool) then mret None
    else
      subscribingWindow ← gets (λ w, Electron.fromWebContents sender (electron w));
      match subscribingWindow with
      | None => mret None
      | Some subscribingWindow =>
          if BrowserWindow.isDestroyed subscribingWindow then mret None
          else
            let windowId := BrowserWindow.id subscribingWindow in
            result ← gitWatcherRegistry_subscribe worktreePath;
            mret (Some (MkPending worktreePath windowId result))
      end.

(** Lines 37-68, from the [await] on. *)
Definition subscribe_resume (p : PendingSubscribe) : M unit :=
  match pending_result p with
  | None => throw "watch could not be opened"
  | Some unsubscribe =>
      modify (with_activeSubscriptions
                (JsMap.set (pending_worktreePath p)
                           (MkSubscription (pending_windowId p) unsubscribe)));;
      console_log ("[GitWatcher] Window " +:+ pretty (pending_windowId p)
                   +:+ " subscribed to: " +:+ pending_worktreePath p)
  end.

(** The whole handler when nothing else runs during the [await]. *)
Definition handleSubscribe (sender : nat) (worktreePath : string) : M unit :=
  pending ← subscribe_request sender worktreePath;
  match pending with
  | None => mret ()
  | Some p => subscribe_resume p
  end.

(** *** [git:unsubscribe-watcher] (lines 73-87) *)

Definition handleUnsubscribe (worktreePath : string) : M unit :=
  if negb (truthy worktreePath) then mret ()
  else
    subscription ← gets (λ w, JsMap.get worktreePath (activeSubscriptions w));
    match subscription with
    | Some subscription =>
        call_unsubscribe (unsubscribe subscription);;
        modify (with_activeSubscriptions (JsMap.delete worktreePath));;
        console_log ("[GitWatcher] Window " +:+ pretty (windowId subscription)
                     +:+ " unsubscribed from: " +:+ worktreePath)
    | None => mret ()
    end.

(** *** [cleanupWindowSubscriptions] (lines 94-102)

    The loop iterates the live [Map] while deleting the entry it stands on;
    a [Map] iterator visits every entry that is present when it gets there, so
    each entry of the table at the start is visited once, in insertion
    order. *)

Fixpoint cleanup_loop (windowId' : nat) (entries : list (string * Subscription)) : M unit :=
  match entries with
  | [] => mret ()
  | (path, subscription) :: rest =>
      (if bool_decide (windowId subscription = windowId')
       then
         call_unsubscribe (unsubscribe subscription);;
         modify (with_activeSubscriptions (JsMap.delete path));;
         console_log ("[GitWatcher] Cleaned up subscription for closed window "
                      +:+ pretty windowId' +:+ ": " +:+ path)
       else mret ());;
      cleanup_loop windowId' rest
  end.

Definition cleanupWindowSubscriptions (windowId' : nat) : M unit :=
  entries ← gets activeSubscriptions;
  cleanup_loop windowId' entries.

(** *** [cleanupGitWatchers] (lines 108-119)

    The function is [async]: it runs up to the [await] of
    [gitWatcherRegistry.disposeAll()], which it has called by then, and
    resumes, possibly after other handlers have run, to log and return. *)

Fixpoint unsubscribe_each (subscriptions : list Subscription) : M unit :=
  match subscriptions with
  | [] => mret ()
  | subscription :: rest =>
      call_unsubscribe (unsubscribe subscription);;
      unsubscribe_each rest
  end.

(** [activeSubscriptions.clear()] *)
Definition activeSubscriptions_clear : M unit :=
  modify (λ w, emit ClearSubscriptions (with_activeSubscriptions JsMap.clear w)).

(** Lines 110-117, up to the [await]. *)
Definition cleanupGitWatchers_request : M unit :=
  subscriptions ← gets (λ w, JsMap.values (activeSubscriptions w));
  unsubscribe_each subscriptions;;
  activeSubscriptions_clear;;
  gitWatcherRegistry_disposeAll.

(** Line 118, from the [await] on. *)
Definition cleanupGitWatchers_resume : M unit :=
  console_log "[GitWatcher] All watchers cleaned up".

(** The whole function when nothing else runs during the [await]. *)
Definition cleanupGitWatchers : M unit :=
  cleanupGitWatchers_request;;
  cleanupGitWatchers_resume.

(** ** The window manager ([window-manager.ts]) *)

Module WindowManager.
(** The fields of [class WindowManager].  [nextSecondaryId] is a JavaScript
    number, a double: up to 2^53 it holds the integers exactly, and adding 1
    to 2^53 gives 2^53 again (the sum is rounded to the nearest double, ties
    to even). *)
Record t : Type := Build {
  windows : JsMap.t nat BrowserWindow.t;
  focusedWindowId : option nat;
  mainWindowId : option nat;
  windowIdMap : JsMap.t nat string;
  nextSecondaryId : nat
}.

Definition init : t := Build JsMap.empty None None JsMap.empty 2.

(** Whether [n + 1] is computed exactly. *)
Definition exact (n : nat) : Prop := (Z.of_nat n < 2 ^ 53)%Z.

(** The value [n++] stores. *)
Definition increment (n : nat) : nat :=
  if bool_decide (exact n) then S n else n.

(** [register(window)] (lines 18-67); the two [window.on] calls install
    [on_focus] and [on_closed] below for this window. *)
Definition register (window : BrowserWindow.t) (m : t) : string * t :=
  let electronId := BrowserWindow.id window in
  let windows' := JsMap.set electronId window (windows m) in
  let '(stableId, mainWindowId', nextSecondaryId') :=
    match mainWindowId m with
    | None => ("main", Some electronId, nextSecondaryId m)
    | Some _ => ("window-" +:+ pretty (nextSecondaryId m),
                 mainWindowId m, increment (nextSecondaryId m))
    end in
  let windowIdMap' := JsMap.set electronId stableId (windowIdMap m) in
  let focusedWindowId' :=
    if bool_decide (JsMap.size windows' = 1) then Some electronId
    else focusedWindowId m in
  (stableId, Build windows' focusedWindowId' mainWindowId' windowIdMap' nextSecondaryId').

(** The ["focus"] listener (lines 35-37). *)
Definition on_focus (electronId : nat) (m : t) : t :=
  Build (windows m) (Some electronId) (mainWindowId m) (windowIdMap m) (nextSecondaryId m).

(** The ["closed"] listener (lines 42-59).  It first runs the bridge's
    [cleanupWindowSubscriptions]. *)
Definition on_closed (electronId : nat) (m : t) (w : World) : t * World :=
  match cleanupWindowSubscriptions electronId w with
  | (Threw _, w') => (m, w')
  | (Returned _, w') =>
      let windows' := JsMap.delete electronId (windows m) in
      let windowIdMap' := JsMap.delete electronId (windowIdMap m) in
      let focusedWindowId' :=
        if bool_decide (focusedWindowId m = Some electronId) then None
        else focusedWindowId m in
      let mainWindowId' :=
        if bool_decide (mainWindowId m = Some electronId)
        then head (JsMap.keys windows')
        else mainWindowId m in
      (Build windows' focusedWindowId' mainWindowId' windowIdMap' (nextSecondaryId m), w')
  end.

(** [getStableId(window)] (lines 72-74).  [window.id] is read as a field of
    the window object; what Electron does on that read once the window has
    been destroyed is not modelled. *)
Definition getStableId (window : BrowserWindow.t) (m : t) : string :=
  default "main" (JsMap.get (BrowserWindow.id window) (windowIdMap m)).

(** [unregister(window)] (lines 79-84) *)
Definition unregister (window : BrowserWindow.t) (m : t) : t :=
  Build (JsMap.delete (BrowserWindow.id window) (windows m))
        (if bool_decide (focusedWindowId m = Some (BrowserWindow.id window)) then None
         else focusedWindowId m)
        (mainWindowId m) (windowIdMap m) (nextSecondaryId m).

(** [get(id)] and [count()] *)
Definition get (i : nat) (m : t) : option BrowserWindow.t := JsMap.get i (windows m).
Definition count (m : t) : nat := JsMap.size (windows m).
End WindowManager.

(** ** The main process as a transition system

    Everything runs on one thread; what interleaves are whole handler
    activations, and the two halves of each [async] function: the subscribe
    handler and [cleanupGitWatchers]. *)

Record System : Type := MkSystem {
  world : World;
  windowManager : WindowManager.t;
  (** subscribe handlers suspended at their [await] *)
  awaiting : list PendingSubscribe;
  (** what [register] has returned so far, oldest first *)
  assigned : list string;
  (** activations of [cleanupGitWatchers] suspended at their [await] *)
  disposing : nat
}.

Inductive Action : Type :=
  | SubscribeRequest (sender : nat) (worktreePath : string)
  | SubscribeResume (n : nat)
  | UnsubscribeRequest (worktreePath : string)
  | WatchEvent (worktreePath : string) (changes : list string)
  | RegisterWindow (window : BrowserWindow.t)
  | UnregisterWindow (window : BrowserWindow.t)
  | WindowFocus (electronId : nat)
  | WindowClosed (electronId : nat)
  | Shutdown
  | ShutdownResume
  (** the user and the operating system open, close and focus windows *)
  | ElectronChanges (e : Electron.t)
  (** status and diff computations fill the cache *)
  | CachePopulated (c : GitCache.t).

(** The registry delivering one domain event: every listener of the entry is
    the bridge's callback for that worktree. *)
Fixpoint fan_out (listeners : list nat) (ev : GitWatchEvent.t) : M unit :=
  match listeners with
  | [] => mret ()
  | _ :: rest => watchCallback (GitWatchEvent.worktreePath ev) ev;; fan_out rest ev
  end.

Definition registry_emit (worktreePath : string) (changes : list string) : M unit :=
  listeners ← gets (λ w, default [] (WatcherRegistry.entries (gitWatcherRegistry w) !! worktreePath));
  fan_out listeners (GitWatchEvent.Build worktreePath changes).

Definition run {A} (m : M A) (s : System) : System :=
  MkSystem (m (world s)).2 (windowManager s) (awaiting s) (assigned s) (disposing s).

Definition step (a : Action) (s : System) : System :=
  match a with
  | SubscribeRequest sender worktreePath =>
      match subscribe_request sender worktreePath (world s) with
      | (Returned (Some p), w') =>
          MkSystem w' (windowManager s) (awaiting s ++ [p]) (assigned s) (disposing s)
      | (_, w') => MkSystem w' (windowManager s) (awaiting s) (assigned s) (disposing s)
      end
  | SubscribeResume n =>
      match awaiting s !! n with
      | Some p =>
          MkSystem (subscribe_resume p (world s)).2 (windowManager s)
                   (base.delete n (awaiting s)) (assigned s) (disposing s)
      | None => s
      end
  | UnsubscribeRequest worktreePath => run (handleUnsubscribe worktreePath) s
  | WatchEvent worktreePath changes => run (registry_emit worktreePath changes) s
  | RegisterWindow window =>
      let '(stableId, m') := WindowManager.register window (windowManager s) in
      MkSystem (world s) m' (awaiting s) (assigned s ++ [stableId]) (disposing s)
  | UnregisterWindow window =>
      MkSystem (world s) (WindowManager.unregister window (windowManager s))
               (awaiting s) (assigned s) (disposing s)
  | WindowFocus electronId =>
      MkSystem (world s) (WindowManager.on_focus electronId (windowManager s))
               (awaiting s) (assigned s) (disposing s)
  | WindowClosed electronId =>
      let '(m', w') := WindowManager.on_closed electronId (windowManager s) (world s) in
      MkSystem w' m' (awaiting s) (assigned s) (disposing s)
  | Shutdown =>
      MkSystem (cleanupGitWatchers_request (world s)).2 (windowManager s)
               (awaiting s) (assigned s) (S (disposing s))
  | ShutdownResume =>
      match disposing s with
      | S n =>
          MkSystem (cleanupGitWatchers_resume (world s)).2 (windowManager s)
                   (awaiting s) (assigned s) n
      | O => s
      end
  | ElectronChanges e => run (modify (with_electron (λ _, e))) s
  | CachePopulated c => run (modify (with_gitCache (λ _, c))) s
  end.

(** The state at process start; [canOpen] says which worktrees can be watched. *)
Definition initial (canOpen : string → bool) : System :=
  MkSystem (MkWorld JsMap.empty (WatcherRegistry.Build ∅ 0 canOpen)
                    (GitCache.Build ∅ ∅) (Electron.Build [] None) [])
           WindowManager.init [] [] 0.

Definition steps (actions : list Action) (s : System) : System :=
  foldl (λ s a, step a s) s actions.

Definition reachable (s : System) : Prop :=
  ∃ canOpen actions, s = steps actions (initial canOpen).

(** ** The [vscode:load-theme] path check ([vscode-theme-scanner.ts]) *)

Module NodePath.
(** Node's [path] module on POSIX, as far as the check uses it:
    [path.sep], [path.normalize] and [path.join]. *)
Definition sep : string := "/".

(** The pieces of [s] between slashes; ["a//b"] gives [["a"; ""; "b"]]. *)
Fixpoint split (s : string) : list string :=
  match s with
  | EmptyString => [""]
  | String c s' =>
      if Ascii.eqb c "/"%char then "" :: split s'
      else match split s' with
           | seg :: segs => String c seg :: segs
           | [] => [String c ""]
           end
  end.

(** [normalizeString]: one segment pushed on the segments kept so far
    (innermost first). *)
Definition push_segment (allowAboveRoot : bool) (kept : list string) (seg : string)
    : list string :=
  if bool_decide (seg = "") || bool_decide (seg = ".") then kept
  else if bool_decide (seg = "..") then
    match kept with
    | top :: below =>
        if bool_decide (top = "..")
        then (if allowAboveRoot then ".." :: kept else kept)
        else below
    | [] => if allowAboveRoot then [".."] else []
    end
  else seg :: kept.

Definition normalizeString (allowAboveRoot : bool) (segs : list string) : list string :=
  rev (foldl (push_segment allowAboveRoot) [] segs).

Fixpoint join_with (separator : string) (segs : list string) : string :=
  match segs with
  | [] => ""
  | [seg] => seg
  | seg :: rest => seg +:+ separator +:+ join_with separator rest
  end.

Definition ends_with_sep (s : string) : bool :=
  match last (split s) with Some "" => true | _ => false end.

Definition normalize (path : string) : string :=
  if bool_decide (path = "") then "."
  else
    let isAbsolute := String.prefix "/" path in
    let trailingSeparator := ends_with_sep path in
    let path' := join_with "/" (normalizeString (negb isAbsolute) (split path)) in
    if bool_decide (path' = "") then
      if isAbsolute then "/" else if trailingSeparator then "./" else "."
    else
      let path'' := if trailingSeparator then path' +:+ "/" else path' in
      if isAbsolute then "/" +:+ path'' else path''.

Definition join (args : list string) : string :=
  match List.filter (λ a, negb (bool_decide (a = ""))) args with
  | [] => "."
  | parts => normalize (join_with "/" parts)
  end.

(** The directories [path] names, outermost first. *)
Definition components (path : string) : list string :=
  normalizeString (negb (String.prefix "/" path)) (split path).
End NodePath.

Module ThemeScanner.
Inductive EditorSource : Type := vscode | vscode_insiders | cursor | windsurf.

Record ExtensionPath : Type := MkExtensionPath {
  path : string;
  source : EditorSource
}.

(** [EXTENSION_PATHS] (lines 51-60); [homedir] is [os.homedir()]. *)
Definition EXTENSION_PATHS (homedir : string) : list ExtensionPath :=
  [ MkExtensionPath (NodePath.join [homedir; ".vscode"; "extensions"]) vscode;
    MkExtensionPath (NodePath.join [homedir; ".vscode-insiders"; "extensions"]) vscode_insiders;
    MkExtensionPath (NodePath.join [homedir; ".cursor"; "extensions"]) cursor;
    MkExtensionPath (NodePath.join [homedir; ".windsurf"; "extensions"]) windsurf ].

(** [String.prototype.startsWith] *)
Definition startsWith (s searchString : string) : bool := String.prefix searchString s.

(** [isAllowedPath] (lines 285-291) *)
Definition isAllowedPath (homedir themePath : string) : bool :=
  let normalizedPath := NodePath.normalize themePath in
  existsb (λ entry,
    let allowedDir := path entry in
    let normalizedAllowed := NodePath.normalize allowedDir in
    startsWith normalizedPath (normalizedAllowed +:+ NodePath.sep)
    || startsWith normalizedPath normalizedAllowed)
  (EXTENSION_PATHS homedir).

(** The handler up to [loadThemeFromPath] (lines 282-297): the path handed
    to the loader, or the error thrown. *)
Definition load_theme_request (homedir themePath : string) : Completion string :=
  if isAllowedPath homedir themePath
  then Returned (NodePath.normalize themePath)
  else Threw "Theme path is not within allowed directories".

(** [p] lies in [dir] or below it: the directories of [dir] lead the
    directories of [p]. *)
Definition resides_under (dir p : string) : Prop :=
  NodePath.components (NodePath.normalize dir)
    `prefix_of` NodePath.components (NodePath.normalize p).
End ThemeScanner.

(** ** Vocabulary of the statements *)

(** The entries a closed window owns, and what the loop does for each. *)
Definition owned_by (windowId' : nat) (entries : list (string * Subscription))
    : list (string * Subscription) :=
  filter (λ kv, windowId kv.2 = windowId') entries.

Definition cleanup_effects (windowId' : nat) (kv : string * Subscription) : list Effect :=
  [CallUnsubscribe (unsubscribe kv.2);
   ConsoleLog ("[GitWatcher] Cleaned up subscription for closed window "
               +:+ pretty windowId' +:+ ": " +:+ kv.1)].

(** A well-formed subscription table: a [Map] has one entry per key, and the
    handlers only ever record truthy paths. *)
Definition table_ok (m : list (string * Subscription)) : Prop :=
  NoDup (JsMap.keys m) ∧ ∀ k, k ∈ JsMap.keys m → truthy k = true.

Definition bridge_inv (s : System) : Prop :=
  table_ok (activeSubscriptions (world s))
  ∧ Forall (λ p, truthy (pending_worktreePath p) = true) (awaiting s).

(** ** A small run used to exercise the statements

    Window 1 (web contents 11) and window 2 (web contents 12) are open;
    window 1 subscribes to ["/repo"], the cache gets populated. *)

Definition windowA : BrowserWindow.t := BrowserWindow.Build 1 11 false false.
Definition windowB : BrowserWindow.t := BrowserWindow.Build 2 12 false false.

Definition populated : GitCache.t :=
  GitCache.Build {[ "/repo" := "M src/a.ts" ]} {[ "/repo" := "@@ -1 +1 @@" ]}.

Definition subscribed_run : list Action :=
  [ ElectronChanges (Electron.Build [windowA; windowB] (Some 1));
    SubscribeRequest 11 "/repo";
    SubscribeResume 0;
    CachePopulated populated ].

Definition subscribed : System := steps subscribed_run (initial (λ _, true)).

(** Then window 2 takes the focus. *)
Definition refocused : System :=
  step (ElectronChanges (Electron.Build [windowA; windowB] (Some 2))) subscribed.

(** Or window 1 is destroyed, and its ["closed"] listener has not run. *)
Definition windowA_destroyed : System :=
  step (ElectronChanges (Electron.Build [BrowserWindow.Build 1 11 true true; windowB] (Some 2)))
       subscribed.

(** Window 1 asks to subscribe and is closed while the handler waits for the
    registry: its ["closed"] listener finds nothing to clean up, then the
    handler resumes and records the Subscription. *)
Definition closed_during_await : System :=
  steps [ RegisterWindow windowA; RegisterWindow windowB;
          ElectronChanges (Electron.Build [windowA; windowB] (Some 1));
          SubscribeRequest 11 "/repo";
          ElectronChanges (Electron.Build [windowB] (Some 2));
          WindowClosed 1;
          SubscribeResume 0;
          CachePopulated populated ]
        (initial (λ _, true)).

(** A table with two windows' subscriptions. *)
Definition two_owners : World :=
  MkWorld [("/a", MkSubscription 1 (MkCapability "/a" 0));
           ("/b", MkSubscription 2 (MkCapability "/b" 1));
           ("/c", MkSubscription 1 (MkCapability "/c" 2))]
          (WatcherRegistry.Build {[ "/a" := [0]; "/b" := [1]; "/c" := [2] ]} 3 (λ _, true))
          (GitCache.Build ∅ ∅) (Electron.Build [windowB] (Some 2)) [].

(** The stable ID of the [k]-th secondary window. *)
Definition secondary (k : nat) : string := "window-" +:+ pretty k.

(** What holds of the window manager after every handler, with [history] the
    stable IDs [register] has returned so far. *)
Record wm_inv (m : WindowManager.t) (history : list string) : Prop := MkWmInv {
  inv_main_none : WindowManager.mainWindowId m = None → WindowManager.windows m = [];
  inv_history_nil : history = [] → WindowManager.mainWindowId m = None;
  inv_windows_keys : NoDup (JsMap.keys (WindowManager.windows m));
  inv_idmap_keys : NoDup (JsMap.keys (WindowManager.windowIdMap m));
  inv_registered : ∀ e, e ∈ JsMap.keys (WindowManager.windows m) →
                        e ∈ JsMap.keys (WindowManager.windowIdMap m);
  inv_main_id : ∀ e, (e, "main") ∈ WindowManager.windowIdMap m →
                     WindowManager.mainWindowId m = Some e;
  inv_next : 2 ≤ WindowManager.nextSecondaryId m;
  inv_first : history = [] ∨ head history = Some "main";
  inv_shape : Forall (λ sid, sid = "main" ∨ ∃ k, sid = secondary k) history;
  (** while the counter has not reached 2^53 *)
  inv_idmap_values :
    WindowManager.exact (WindowManager.nextSecondaryId m) →
    NoDup (JsMap.values (WindowManager.windowIdMap m));
  inv_ids :
    WindowManager.exact (WindowManager.nextSecondaryId m) →
    ∀ e sid, (e, sid) ∈ WindowManager.windowIdMap m →
      sid = "main" ∨ ∃ k, 2 ≤ k < WindowManager.nextSecondaryId m ∧ sid = secondary k;
  inv_secondaries :
    WindowManager.exact (WindowManager.nextSecondaryId m) →
    filter (λ sid, sid ≠ "main") history
    = secondary <$> seq 2 (WindowManager.nextSecondaryId m - 2)
}.

(** Three windows are registered, the first is closed in between. *)
Definition windowC : BrowserWindow.t := BrowserWindow.Build 3 13 false false.

Definition three_windows : System :=
  steps [RegisterWindow windowA; RegisterWindow windowB; WindowClosed 1; RegisterWindow windowC]
        (initial (λ _, true)).

(** A window is registered after the only window has closed. *)
Definition reopened : System :=
  steps [RegisterWindow windowA; WindowClosed 1; RegisterWindow windowB] (initial (λ _, true)).

(** Path vocabulary: a segment without a slash, a directory name proper, and
    a path written out from its segments. *)
Fixpoint no_slash (s : string) : bool :=
  match s with
  | EmptyString => true
  | String c s' => negb (Ascii.eqb c "/"%char) && no_slash s'
  end.

Definition plain (seg : string) : Prop :=
  no_slash seg = true ∧ seg ≠ "" ∧ seg ≠ "." ∧ seg ≠ "..".

Definition render (isAbsolute : bool) (segs : list string) : string :=
  (if isAbsolute then "/" else "") +:+ NodePath.join_with "/" segs.

(** The segments kept by [normalizeString], innermost first: directory
    names, then (for a relative path only) the leading [".."]s. *)
Definition kept_ok (allowAboveRoot : bool) (kept : list string) : Prop :=
  ∃ names n, kept = names ++ replicate n ".."
             ∧ Forall plain names ∧ (n = 0 ∨ allowAboveRoot = true).

(** A theme path beside the VS Code extensions directory. *)
Definition sibling_theme (homedir : string) : string :=
  NodePath.join [homedir; ".vscode"; "extensions-evil"; "theme.json"].

(** ** The window manager's queries ([window-manager.ts], lines 96-135)

    The manager keeps references to window objects; what a reference answers
    to [isDestroyed()] is the state of that window now, looked up by its
    identity in Electron's table.  A window that is no longer in the table is
    destroyed. *)

Definition window_now (e : Electron.t) (window : BrowserWindow.t) : option BrowserWindow.t :=
  match Electron.fromId (BrowserWindow.id window) e with
  | Some current => if BrowserWindow.isDestroyed current then None else Some current
  | None => None
  end.

(** [BrowserWindow.getFocusedWindow()] *)
Definition getFocusedWindow (e : Electron.t) : option BrowserWindow.t :=
  match Electron.focusedWindow e with
  | Some i => Electron.fromId i e
  | None => None
  end.

(** [getFocused()] (lines 96-109) *)
Definition getFocused (e : Electron.t) (m : WindowManager.t) : option BrowserWindow.t :=
  let tracked :=
    match WindowManager.focusedWindowId m with
    | Some i =>
        match JsMap.get i (WindowManager.windows m) with
        | Some win => window_now e win
        | None => None
        end
    | None => None
    end in
  match tracked with
  | Some win => Some win
  | None =>
      match getFocusedWindow e with
      | Some focusedWin => if BrowserWindow.isDestroyed focusedWin then None else Some focusedWin
      | None => None
      end
  end.

(** [getAll()] (lines 114-116) *)
Definition getAll (e : Electron.t) (m : WindowManager.t) : list BrowserWindow.t :=
  omap (window_now e) (JsMap.values (WindowManager.windows m)).

(** [findByWebContentsId(webContentsId)] (lines 128-135) *)
Fixpoint find_window (e : Electron.t) (webContentsId : nat) (windows : list BrowserWindow.t)
    : option BrowserWindow.t :=
  match windows with
  | [] => None
  | window :: rest =>
      match window_now e window with
      | Some current =>
          if bool_decide (BrowserWindow.webContents_id current = webContentsId)
          then Some current
          else find_window e webContentsId rest
      | None => find_window e webContentsId rest
      end
  end.

Definition findByWebContentsId (e : Electron.t) (webContentsId : nat) (m : WindowManager.t)
    : option BrowserWindow.t :=
  find_window e webContentsId (JsMap.values (WindowManager.windows m)).

(** Runs in which [unregister] is not called. *)
Definition is_unregister (a : Action) : bool :=
  match a with UnregisterWindow _ => true | _ => false end.

(** The window an action registers or closes, if any. *)
Definition touches_window (a : Action) (electronId : nat) : bool :=
  match a with
  | RegisterWindow window => bool_decide (BrowserWindow.id window = electronId)
  | WindowClosed closedId => bool_decide (closedId = electronId)
  | _ => false
  end.

(** Two open windows and no worktree that can be watched. *)
Definition unwatchable : System :=
  step (ElectronChanges (Electron.Build [windowA; windowB] (Some 1))) (initial (λ _, false)).

(** What holds of [mainWindowId] as long as [unregister] is not called. *)
Definition main_registered (m : WindowManager.t) : Prop :=
  match WindowManager.mainWindowId m with
  | None => WindowManager.windows m = []
  | Some e => e ∈ JsMap.keys (WindowManager.windows m)
  end.

(** ** The renderer: Web Storage, the window's identity, window-scoped storage

    JavaScript strings are modelled by their UTF-8 bytes.  [localStorage] and
    [sessionStorage] are maps from strings to strings that enumerate their
    keys in some order ([key(i)]) and whose [setItem] throws when the quota
    is exceeded. *)

Module Storage.
Record t : Type := Build {
  items : list (string * string);
  (** whether [setItem(k, v)] fits the quota, given what is stored *)
  hasRoom : list (string * string) → string → string → bool
}.

Definition getItem (k : string) (s : t) : option string := JsMap.get k (items s).

(** [None]: [QuotaExceededError] is thrown and nothing is stored. *)
Definition setItem (k v : string) (s : t) : option t :=
  if hasRoom s (items s) k v then Some (Build (JsMap.set k v (items s)) (hasRoom s))
  else None.

Definition removeItem (k : string) (s : t) : t :=
  Build (JsMap.delete k (items s)) (hasRoom s).

Definition length (s : t) : nat := JsMap.size (items s).
Definition key (i : nat) (s : t) : option string := JsMap.keys (items s) !! i.
End Storage.

(** [new URLSearchParams(...)]: the decoded pairs, in order; [get] returns
    the first value under a name. *)
Definition URLSearchParams : Type := list (string * string).
Definition params_get (name : string) (params : URLSearchParams) : option string :=
  JsMap.get name params.

(** [window.location]: the parameters of [location.search], and those of
    [location.hash.slice(1)] when [location.hash] is not empty. *)
Record Location : Type := MkLocation {
  search : URLSearchParams;
  hash : option URLSearchParams
}.

Inductive ConsoleLevel : Type := console_log_level | console_warn_level | console_error_level.

Record ConsoleEntry : Type := MkConsoleEntry {
  level : ConsoleLevel;
  arguments : list string
}.

(** The state of one renderer process (one window). *)
Record Renderer : Type := MkRenderer {
  localStorage : Storage.t;
  sessionStorage : Storage.t;
  location : Location;
  (** [let globalWindowId] of [WindowContext.tsx] *)
  globalWindowId : option string;
  (** [const migratedKeys] of [window-storage.ts] *)
  migratedKeys : gset string;
  console : list ConsoleEntry
}.

Definition with_localStorage (f : Storage.t → Storage.t) (r : Renderer) : Renderer :=
  MkRenderer (f (localStorage r)) (sessionStorage r) (location r) (globalWindowId r)
             (migratedKeys r) (console r).
Definition with_sessionStorage (f : Storage.t → Storage.t) (r : Renderer) : Renderer :=
  MkRenderer (localStorage r) (f (sessionStorage r)) (location r) (globalWindowId r)
             (migratedKeys r) (console r).
Definition with_location (l : Location) (r : Renderer) : Renderer :=
  MkRenderer (localStorage r) (sessionStorage r) l (globalWindowId r)
             (migratedKeys r) (console r).
Definition with_globalWindowId (g : option string) (r : Renderer) : Renderer :=
  MkRenderer (localStorage r) (sessionStorage r) (location r) g (migratedKeys r) (console r).
Definition with_migratedKeys (f : gset string → gset string) (r : Renderer) : Renderer :=
  MkRenderer (localStorage r) (sessionStorage r) (location r) (globalWindowId r)
             (f (migratedKeys r)) (console r).
Definition print (l : ConsoleLevel) (args : list string) (r : Renderer) : Renderer :=
  MkRenderer (localStorage r) (sessionStorage r) (location r) (globalWindowId r)
             (migratedKeys r) (console r ++ [MkConsoleEntry l args]).

(** Renderer code runs on one thread, like the main process. *)
Definition R (A : Type) : Type := Renderer → Completion A * Renderer.

Global Instance R_ret : MRet R := λ A a r, (Returned a, r).
Global Instance R_bind : MBind R := λ A B f m r,
  match m r with
  | (Returned a, r') => f a r'
  | (Threw e, r') => (Threw e, r')
  end.

Definition r_gets {A} (f : Renderer → A) : R A := λ r, (Returned (f r), r).
Definition r_modify (f : Renderer → Renderer) : R unit := λ r, (Returned (), f r).
Definition r_try {A} (body : R A) (handler : string → R A) : R A := λ r,
  match body r with
  | (Returned a, r') => (Returned a, r')
  | (Threw e, r') => handler e r'
  end.

Definition localStorage_setItem (k v : string) : R unit := λ r,
  match Storage.setItem k v (localStorage r) with
  | Some ls => (Returned (), with_localStorage (λ _, ls) r)
  | None => (Threw "QuotaExceededError", r)
  end.

Definition sessionStorage_setItem (k v : string) : R unit := λ r,
  match Storage.setItem k v (sessionStorage r) with
  | Some ss => (Returned (), with_sessionStorage (λ _, ss) r)
  | None => (Threw "QuotaExceededError", r)
  end.

(** Truthiness of [string | null]. *)
Definition truthy_opt (o : option string) : bool :=
  match o with Some s => truthy s | None => false end.

(** [x || undefined] *)
Definition or_undefined (o : option string) : option string :=
  if truthy_opt o then o else None.

Module WindowContext.
(** [getWindowId()] ([WindowContext.tsx], lines 34-65 of that file) *)
Definition getWindowId : R string :=
  cached ← r_gets globalWindowId;
  if truthy_opt cached then mret (default "" cached)
  else
    fromSearch ← r_gets (λ r, params_get "windowId" (search (location r)));
    hashParams ← r_gets (λ r, hash (location r));
    let id :=
      match hashParams with
      | Some params => if truthy_opt fromSearch then fromSearch else params_get "windowId" params
      | None => fromSearch
      end in
    id ← (if truthy_opt id
          then sessionStorage_setItem "windowId" (default "" id);; mret (default "" id)
          else
            stored ← r_gets (λ r, Storage.getItem "windowId" (sessionStorage r));
            if truthy_opt stored then mret (default "" stored)
            else sessionStorage_setItem "windowId" "main";; mret "main");
    r_modify (with_globalWindowId (Some id));;
    r_modify (print console_log_level ["[WindowContext] Window ID:"; id]);;
    mret id.

Record WindowParams : Type := MkWindowParams {
  chatId : option string;
  subChatId : option string
}.

(** [getInitialWindowParams()] (lines 71-97 of that file) *)
Definition getInitialWindowParams : R WindowParams :=
  consumed ← r_gets (λ r, Storage.getItem "windowParamsConsumed" (sessionStorage r));
  if truthy_opt consumed then mret (MkWindowParams None None)
  else
    loc ← r_gets location;
    let chatId0 := params_get "chatId" (search loc) in
    let subChatId0 := params_get "subChatId" (search loc) in
    let '(chatId1, subChatId1) :=
      match hash loc with
      | Some params =>
          if truthy_opt chatId0 then (chatId0, subChatId0)
          else (params_get "chatId" params, params_get "subChatId" params)
      | None => (chatId0, subChatId0)
      end in
    (if truthy_opt chatId1 || truthy_opt subChatId1
     then sessionStorage_setItem "windowParamsConsumed" "true"
     else mret ());;
    mret (MkWindowParams (or_undefined chatId1) (or_undefined subChatId1)).
End WindowContext.

(** *** The patterns [/^(\d+):(.+)$/] and [/^(\d+):changes-store$/] *)

Definition is_digit (c : ascii) : bool :=
  (48 <=? nat_of_ascii c) && (nat_of_ascii c <=? 57).

(** The longest run of digits at the start, and what follows it. *)
Fixpoint span_digits (s : string) : string * string :=
  match s with
  | String c s' =>
      if is_digit c then let '(digits, rest) := span_digits s' in (String c digits, rest)
      else ("", s)
  | EmptyString => ("", "")
  end.

(** Whether [.] refuses a character of [s]: a line feed, a carriage return,
    U+2028 or U+2029 (bytes E2 80 A8 and E2 80 A9). *)
Fixpoint has_line_terminator (s : string) : bool :=
  match s with
  | EmptyString => false
  | String c s' =>
      (nat_of_ascii c =? 10) || (nat_of_ascii c =? 13)
      || match s' with
         | String c2 (String c3 _) =>
             (nat_of_ascii c =? 226) && (nat_of_ascii c2 =? 128)
             && ((nat_of_ascii c3 =? 168) || (nat_of_ascii c3 =? 169))
         | _ => false
         end
      || has_line_terminator s'
  end.

(** [storageKey.match(/^(\d+):(.+)$/)]: the two groups.  [\d+] is greedy and
    must be followed by the colon, so it takes the whole run of digits. *)
Definition match_numeric_key (storageKey : string) : option (string * string) :=
  match span_digits storageKey with
  | (String d digits, String ":" original) =>
      if negb (bool_decide (original = "")) && negb (has_line_terminator original)
      then Some (String d digits, original)
      else None
  | _ => None
  end.

(** [storageKey.match(/^(\d+):changes-store$/)] *)
Definition match_numeric_changes_store (storageKey : string) : bool :=
  match span_digits storageKey with
  | (String _ _, rest) => bool_decide (rest = ":changes-store")
  | _ => false
  end.

Module WindowStorage.
(** The loop of [migrateFromNumericWindowId] (lines 24-38): the first key,
    in enumeration order, that is a numeric window's copy of [key] and holds
    a value. *)
Fixpoint scan_numeric (key : string) (ls : Storage.t) (storageKeys : list string)
    : option (string * string) :=
  match storageKeys with
  | [] => None
  | storageKey :: rest =>
      if negb (truthy storageKey) then scan_numeric key ls rest
      else
        match match_numeric_key storageKey with
        | Some (_, original) =>
            if bool_decide (original = key) then
              match Storage.getItem storageKey ls with
              | Some value => Some (storageKey, value)
              | None => scan_numeric key ls rest
              end
            else scan_numeric key ls rest
        | None => scan_numeric key ls rest
        end
  end.

(** [migrateFromNumericWindowId(key, targetWindowKey)] (lines 16-43) *)
Definition migrateFromNumericWindowId (key targetWindowKey : string) : R (option string) :=
  if negb (String.prefix "main:" targetWindowKey) then mret None
  else
    checked ← r_gets (λ r, bool_decide (targetWindowKey ∈ migratedKeys r));
    if (checked : bool) then mret None
    else
      found ← r_gets (λ r, scan_numeric key (localStorage r)
                             (JsMap.keys (Storage.items (localStorage r))));
      match found with
      | Some (storageKey, value) =>
          r_modify (print console_log_level
                      ["[WindowStorage] Migrated from numeric ID: " +:+ storageKey
                       +:+ " to " +:+ targetWindowKey]);;
          r_modify (with_migratedKeys (union {[ targetWindowKey ]}));;
          mret (Some value)
      | None =>
          r_modify (with_migratedKeys (union {[ targetWindowKey ]}));;
          mret None
      end.

(** The storage handed to [createJSONStorage] (lines 55-105): [getItem],
    [setItem] and [removeItem] on the raw strings. *)
Definition getItem (key : string) : R (option string) :=
  windowId ← WindowContext.getWindowId;
  let windowKey := windowId +:+ ":" +:+ key in
  value ← r_gets (λ r, Storage.getItem windowKey (localStorage r));
  checked ← r_gets (λ r, bool_decide (windowKey ∈ migratedKeys r));
  match value with
  | Some _ => mret value
  | None =>
      if (checked : bool) then mret value
      else
        migratedValue ← migrateFromNumericWindowId key windowKey;
        value ← match migratedValue with
                | Some migrated =>
                    r_try (localStorage_setItem windowKey migrated)
                      (λ e, r_modify (print console_warn_level
                              ["[WindowStorage] Failed to save migrated value for "
                               +:+ windowKey +:+ ":"; e]));;
                    mret (Some migrated)
                | None => mret None
                end;
        match value with
        | Some _ => mret value
        | None =>
            legacyValue ← r_gets (λ r, Storage.getItem key (localStorage r));
            value ← match legacyValue with
                    | Some legacy =>
                        r_try (localStorage_setItem windowKey legacy;;
                               r_modify (print console_log_level
                                 ["[WindowStorage] Migrated " +:+ key +:+ " to " +:+ windowKey]))
                          (λ e, r_modify (print console_warn_level
                                  ["[WindowStorage] Failed to save migrated value for "
                                   +:+ windowKey +:+ ":"; e]));;
                        mret (Some legacy)
                    | None => mret None
                    end;
            r_modify (with_migratedKeys (union {[ windowKey ]}));;
            mret value
        end
  end.

Definition setItem (key value : string) : R unit :=
  windowId ← WindowContext.getWindowId;
  let windowKey := windowId +:+ ":" +:+ key in
  r_try (localStorage_setItem windowKey value)
    (λ e, r_modify (print console_error_level
            ["[WindowStorage] Failed to save " +:+ windowKey +:+ ":"; e])).

Definition removeItem (key : string) : R unit :=
  windowId ← WindowContext.getWindowId;
  let windowKey := windowId +:+ ":" +:+ key in
  r_modify (with_localStorage (Storage.removeItem windowKey)).
End WindowStorage.

(** ** The changes store ([changes-store.ts]) *)

(** The names every object inherits from [Object.prototype]: reading one of
    them from an object that has no own property of that name gives the
    inherited member, not [undefined]. *)
Definition object_prototype_keys : list string :=
  [ "constructor"; "__proto__"; "hasOwnProperty"; "isPrototypeOf"; "propertyIsEnumerable";
    "toLocaleString"; "toString"; "valueOf"; "__defineGetter__"; "__defineSetter__";
    "__lookupGetter__"; "__lookupSetter__" ].

(** What a read [object[key] ?? fallback] gives. *)
Inductive Read (A : Type) : Type :=
  | Value (a : A)
  | Null
  | Inherited (name : string).
Global Arguments Value {A} a.
Global Arguments Null {A}.
Global Arguments Inherited {A} name.

Module ChangesStore.
Inductive ChangeCategory : Type := against_base | committed | staged | unstaged.
Inductive FileListViewMode : Type := grouped | tree.

(** [expandedSections: Record<ChangeCategory, boolean>] *)
Record Sections : Type := MkSections {
  on_against_base : bool;
  on_committed : bool;
  on_staged : bool;
  on_unstaged : bool
}.

Definition section_get (section : ChangeCategory) (e : Sections) : bool :=
  match section with
  | against_base => on_against_base e
  | committed => on_committed e
  | staged => on_staged e
  | unstaged => on_unstaged e
  end.

Definition section_set (section : ChangeCategory) (b : bool) (e : Sections) : Sections :=
  match section with
  | against_base => MkSections b (on_committed e) (on_staged e) (on_unstaged e)
  | committed => MkSections (on_against_base e) b (on_staged e) (on_unstaged e)
  | staged => MkSections (on_against_base e) (on_committed e) b (on_unstaged e)
  | unstaged => MkSections (on_against_base e) (on_committed e) (on_staged e) b
  end.

Section store.
(** [ChangedFile] comes from [shared/changes-types]; the store only passes
    it through. *)
Context {ChangedFile : Type}.

Record SelectedFileState : Type := MkSelected {
  file : ChangedFile;
  category : ChangeCategory;
  commitHash : option string
}.

Record ChangesState : Type := MkState {
  selectedFiles : gmap string (option SelectedFileState);
  viewMode : string;
  fileListViewMode : FileListViewMode;
  expandedSections : Sections;
  baseBranch : option string;
  showRenderedMarkdown : gmap string bool
}.

Definition initialState : ChangesState :=
  MkState ∅ "side-by-side" grouped (MkSections true true true true) None ∅.

Definition selectFile (worktreePath : string) (file' : option ChangedFile)
    (category' : option ChangeCategory) (commitHash' : option string)
    (st : ChangesState) : ChangesState :=
  MkState
    (<[worktreePath :=
         match file' with
         | Some f => Some (MkSelected f (default against_base category') commitHash')
         | None => None
         end]> (selectedFiles st))
    (viewMode st) (fileListViewMode st) (expandedSections st) (baseBranch st)
    (showRenderedMarkdown st).

Definition getSelectedFile (worktreePath : string) (st : ChangesState)
    : Read SelectedFileState :=
  match selectedFiles st !! worktreePath with
  | Some (Some selected) => Value selected
  | Some None => Null
  | None =>
      if bool_decide (worktreePath ∈ object_prototype_keys) then Inherited worktreePath
      else Null
  end.

Definition setViewMode (mode : string) (st : ChangesState) : ChangesState :=
  MkState (selectedFiles st) mode (fileListViewMode st) (expandedSections st) (baseBranch st)
          (showRenderedMarkdown st).

Definition setFileListViewMode (mode : FileListViewMode) (st : ChangesState) : ChangesState :=
  MkState (selectedFiles st) (viewMode st) mode (expandedSections st) (baseBranch st)
          (showRenderedMarkdown st).

Definition setSectionExpanded (section : ChangeCategory) (expanded : bool)
    (st : ChangesState) : ChangesState :=
  MkState (selectedFiles st) (viewMode st) (fileListViewMode st)
          (section_set section expanded (expandedSections st)) (baseBranch st)
          (showRenderedMarkdown st).

Definition toggleSection (section : ChangeCategory) (st : ChangesState) : ChangesState :=
  setSectionExpanded section (negb (section_get section (expandedSections st))) st.

Definition setBaseBranch (branch : option string) (st : ChangesState) : ChangesState :=
  MkState (selectedFiles st) (viewMode st) (fileListViewMode st) (expandedSections st) branch
          (showRenderedMarkdown st).

(** [!showRenderedMarkdown[worktreePath]] *)
Definition not_shown (worktreePath : string) (st : ChangesState) : bool :=
  match showRenderedMarkdown st !! worktreePath with
  | Some b => negb b
  | None => negb (bool_decide (worktreePath ∈ object_prototype_keys))
  end.

Definition toggleRenderedMarkdown (worktreePath : string) (st : ChangesState) : ChangesState :=
  MkState (selectedFiles st) (viewMode st) (fileListViewMode st) (expandedSections st)
          (baseBranch st)
          (<[worktreePath := not_shown worktreePath st]> (showRenderedMarkdown st)).

Definition getShowRenderedMarkdown (worktreePath : string) (st : ChangesState) : Read bool :=
  match showRenderedMarkdown st !! worktreePath with
  | Some b => Value b
  | None =>
      if bool_decide (worktreePath ∈ object_prototype_keys) then Inherited worktreePath
      else Value false
  end.

Definition reset (worktreePath : string) (st : ChangesState) : ChangesState :=
  MkState (<[worktreePath := None]> (selectedFiles st))
          (viewMode st) (fileListViewMode st) (expandedSections st) (baseBranch st)
          (showRenderedMarkdown st).
End store.
Global Arguments SelectedFileState : clear implicits.
Global Arguments ChangesState : clear implicits.

(** The loop of [onRehydrateStorage] (lines 162-175): the first key, in
    enumeration order, of a numeric window's store that holds data. *)
Fixpoint scan_numeric_store (ls : Storage.t) (storageKeys : list string)
    : option (string * string) :=
  match storageKeys with
  | [] => None
  | storageKey :: rest =>
      if negb (truthy storageKey) then scan_numeric_store ls rest
      else if match_numeric_changes_store storageKey then
        match Storage.getItem storageKey ls with
        | Some numericData =>
            if truthy numericData then Some (storageKey, numericData)
            else scan_numeric_store ls rest
        | None => scan_numeric_store ls rest
        end
      else scan_numeric_store ls rest
  end.

(** [onRehydrateStorage] (lines 150-188) *)
Definition onRehydrateStorage : R unit :=
  windowId ← WindowContext.getWindowId;
  let windowKey := windowId +:+ ":changes-store" in
  let legacyKey := "changes-store" in
  existing ← r_gets (λ r, Storage.getItem windowKey (localStorage r));
  if truthy_opt existing then mret ()
  else
    found ← r_gets (λ r,
      if String.prefix "main:" windowKey
      then scan_numeric_store (localStorage r) (JsMap.keys (Storage.items (localStorage r)))
      else None);
    match found with
    | Some (storageKey, numericData) =>
        localStorage_setItem windowKey numericData;;
        r_modify (print console_log_level
                    ["[ChangesStore] Migrated from numeric ID: " +:+ storageKey
                     +:+ " to " +:+ windowKey])
    | None =>
        legacyData ← r_gets (λ r, Storage.getItem legacyKey (localStorage r));
        if truthy_opt legacyData then
          localStorage_setItem windowKey (default "" legacyData);;
          r_modify (print console_log_level
                      ["[ChangesStore] Migrated " +:+ legacyKey +:+ " to " +:+ windowKey])
        else mret ()
    end.
End ChangesStore.

(** ** Theme discovery: the merge of the directory scans
    ([vscode-theme-scanner.ts], lines 205-230) *)

(** [path.basename(path)]: the last segment that is not empty. *)
Definition path_basename (path : string) : string :=
  default "" (last (List.filter (λ seg, negb (bool_decide (seg = ""))) (NodePath.split path))).

Module ThemeScan.
Inductive ThemeType : Type := light | dark.

Record DiscoveredTheme : Type := MkTheme {
  id : string;
  name : string;
  type : ThemeType;
  extensionId : string;
  extensionName : string;
  path : string;
  source : ThemeScanner.EditorSource
}.

Definition uniqueKey (theme : DiscoveredTheme) : string :=
  extensionId theme +:+ "-" +:+ path_basename (path theme).

(** The inner loop (lines 211-219). *)
Definition add_themes (acc : gset string * list DiscoveredTheme) (themes : list DiscoveredTheme)
    : gset string * list DiscoveredTheme :=
  foldl (λ '(seenPaths, allThemes) theme,
           if bool_decide (uniqueKey theme ∈ seenPaths) then (seenPaths, allThemes)
           else ({[ uniqueKey theme ]} ∪ seenPaths, allThemes ++ [theme]))
        acc themes.

(** [scanVSCodeThemes()].  [scanExtensionsDir] gives what the scan of a
    directory finds on disk; [sort] is [Array.prototype.sort] with the
    [localeCompare] comparator of lines 223-227. *)
Definition scanVSCodeThemes
    (scanExtensionsDir : string → ThemeScanner.EditorSource → list DiscoveredTheme)
    (sort : list DiscoveredTheme → list DiscoveredTheme)
    (homedir : string) : list DiscoveredTheme :=
  sort (foldl (λ acc entry,
                 add_themes acc (scanExtensionsDir (ThemeScanner.path entry)
                                                   (ThemeScanner.source entry)))
              (∅, []) (ThemeScanner.EXTENSION_PATHS homedir)).2.

(** Everything the scans found, in the order the loops visit it. *)
Definition scanned
    (scanExtensionsDir : string → ThemeScanner.EditorSource → list DiscoveredTheme)
    (homedir : string) : list DiscoveredTheme :=
  ThemeScanner.EXTENSION_PATHS homedir
    ≫= λ entry, scanExtensionsDir (ThemeScanner.path entry) (ThemeScanner.source entry).
End ThemeScan.

(** Renderer states used to exercise the statements: a window opened with
    [?windowId=...], a storage that never runs full, and one that is full. *)
Definition roomy : list (string * string) → string → string → bool := λ _ _ _, true.
Definition full : list (string * string) → string → string → bool := λ _ _ _, false.

Definition opened (windowId : string) (stored : list (string * string)) : Renderer :=
  MkRenderer (Storage.Build stored roomy) (Storage.Build [] roomy)
             (MkLocation [("windowId", windowId); ("chatId", "c1")] None) None ∅ [].

Definition old_data : list (string * string) :=
  [ ("agents:sidebar", "open"); ("1:agents:selectedProject", "p1");
    ("window-2:agents:selectedProject", "p2"); ("agents:selectedProject", "p0");
    ("3:changes-store", "{}") ].

(** The same window after [getWindowId] has run once. *)
Definition identified (windowId : string) (stored : list (string * string)) : Renderer :=
  (WindowContext.getWindowId (opened windowId stored)).2.

(** The value a first read finds when the window's own key holds nothing:
    for the main window a numeric window's copy, otherwise (or failing that)
    the un-prefixed legacy value. *)
Definition migration_source (windowId key : string) (ls : Storage.t) : option string :=
  match (if String.prefix "main:" (windowId +:+ ":" +:+ key)
         then WindowStorage.scan_numeric key ls (JsMap.keys (Storage.items ls))
         else None) with
  | Some (_, value) => Some value
  | None => Storage.getItem key ls
  end.

(** A string without a colon, as the stable window IDs are. *)
Fixpoint no_colon (s : string) : bool :=
  match s with
  | EmptyString => true
  | String c s' => negb (Ascii.eqb c ":"%char) && no_colon s'
  end.

(** The data [onRehydrateStorage] copies when the window has no store yet:
    for the main window a numeric window's store, otherwise (or failing that)
    the legacy store, each only when it is not empty. *)
Definition rehydrate_source (windowId : string) (ls : Storage.t) : option string :=
  match (if String.prefix "main:" (windowId +:+ ":changes-store")
         then ChangesStore.scan_numeric_store ls (JsMap.keys (Storage.items ls))
         else None) with
  | Some (_, numericData) => Some numericData
  | None => or_undefined (Storage.getItem "changes-store" ls)
  end.

(** Themes on disk used to exercise the scan: the same extension installed
    for VS Code and for Cursor, and a second theme only Cursor has. *)
Definition dracula (extensionsDir : string) (source : ThemeScanner.EditorSource)
    : ThemeScan.DiscoveredTheme :=
  ThemeScan.MkTheme "vscode-dracula-2-25-1-dracula" "Dracula" ThemeScan.dark "dracula-2.25.1"
    "Dracula Official" (NodePath.join [extensionsDir; "dracula-2.25.1"; "theme/dracula.json"])
    source.

Definition solarized (extensionsDir : string) (source : ThemeScanner.EditorSource)
    : ThemeScan.DiscoveredTheme :=
  ThemeScan.MkTheme "vscode-solarized-1-0-0-light" "Solarized Light" ThemeScan.light
    "solarized-1.0.0" "Solarized" (NodePath.join [extensionsDir; "solarized-1.0.0"; "light.json"])
    source.

Definition on_disk (extensionsDir : string) (source : ThemeScanner.EditorSource)
    : list ThemeScan.DiscoveredTheme :=
  match source with
  | ThemeScanner.vscode => [dracula extensionsDir source]
  | ThemeScanner.cursor => [solarized extensionsDir source; dracula extensionsDir source]
  | _ => []
  end.

(** A sort by extension name. *)
Definition by_extension_name : list ThemeScan.DiscoveredTheme → list ThemeScan.DiscoveredTheme :=
  merge_sort (λ a b, String.le (ThemeScan.extensionName a) (ThemeScan.extensionName b)).

(** Whether an action is the second half of a subscribe handler, the only
    code that adds to the subscription table. *)
Definition is_subscribe_resume (a : Action) : bool :=
  match a with SubscribeResume _ => true | _ => false end.

(** Window 1 has asked to subscribe and its handler waits for the registry
    when the shutdown routine runs; the handler resumes while the routine
    waits for [disposeAll]. *)
Definition resumed_during_shutdown : System :=
  steps [ ElectronChanges (Electron.Build [windowA; windowB] (Some 1));
          SubscribeRequest 11 "/repo";
          Shutdown;
          SubscribeResume 0;
          ShutdownResume ]
        (initial (λ _, true)).

(** Window 1 subscribes to ["/repo"]; the shutdown routine runs and, while it
    waits, a watch event and an unsubscribe request arrive and window 1
    closes. *)
Definition interrupted_shutdown : list Action :=
  [ WatchEvent "/repo" ["index"]; UnsubscribeRequest "/repo"; WindowClosed 1 ].



(** The main window and [n] registrations after it. *)
Definition many_registrations (n : nat) : System :=
  steps (replicate n (RegisterWindow windowA))
        (step (RegisterWindow windowA) (initial (λ _, true))).

(** Window 3 of [three_windows] has subscribed to ["/repo"]. *)
Definition three_windows_subscribed : System :=
  steps [ ElectronChanges (Electron.Build [windowB; windowC] (Some 3));
          SubscribeRequest 13 "/repo";
          SubscribeResume 0 ]
        three_windows.

(** ** What the two migrations look for

    The previous implementation wrote a window's keys under the window's
    numeric Electron ID: digits, a colon, the key. *)

Fixpoint digits_only (s : string) : bool :=
  match s with
  | EmptyString => true
  | String c s' => is_digit c && digits_only s'
  end.

(** [storageKey] is [key] as a numeric window wrote it; [key] is not empty
    and is on one line. *)
Definition numeric_copy (key storageKey : string) : Prop :=
  key ≠ "" ∧ has_line_terminator key = false
  ∧ ∃ digits, digits ≠ "" ∧ digits_only digits = true
              ∧ storageKey = digits +:+ ":" +:+ key.

(** The window counts as the main one: its ID is ["main"] or begins with
    ["main:"]. *)
Definition is_main (windowId : string) : Prop :=
  windowId = "main" ∨ String.prefix "main:" windowId = true.

(** The value a first read of [key] is to migrate: in the main window the
    value of the first key, in the order [localStorage] enumerates its keys,
    that is a numeric window's copy of [key]; in another window, or when
    there is no such key, the value under the un-prefixed [key]. *)
Inductive value_to_migrate (windowId key : string) (ls : Storage.t) : option string → Prop :=
  | migrate_numeric before storageKey after value :
      is_main windowId →
      JsMap.keys (Storage.items ls) = before ++ storageKey :: after →
      Forall (λ k, ¬ numeric_copy key k) before →
      numeric_copy key storageKey →
      Storage.getItem storageKey ls = Some value →
      value_to_migrate windowId key ls (Some value)
  | migrate_legacy :
      ¬ is_main windowId
      ∨ Forall (λ k, ¬ numeric_copy key k) (JsMap.keys (Storage.items ls)) →
      value_to_migrate windowId key ls (Storage.getItem key ls).

(** The store [onRehydrateStorage] is to copy: in the main window the first
    numeric window's store that is not empty; in another window, or when
    there is none, the legacy store if it is not empty. *)
Definition empty_store (ls : Storage.t) (k : string) : Prop :=
  numeric_copy "changes-store" k → truthy_opt (Storage.getItem k ls) = false.

Inductive store_to_migrate (windowId : string) (ls : Storage.t) : option string → Prop :=
  | store_numeric before storageKey after data :
      is_main windowId →
      JsMap.keys (Storage.items ls) = before ++ storageKey :: after →
      Forall (empty_store ls) before →
      numeric_copy "changes-store" storageKey →
      Storage.getItem storageKey ls = Some data → data ≠ "" →
      store_to_migrate windowId ls (Some data)
  | store_legacy data :
      ¬ is_main windowId ∨ Forall (empty_store ls) (JsMap.keys (Storage.items ls)) →
      Storage.getItem "changes-store" ls = Some data → data ≠ "" →
      store_to_migrate windowId ls (Some data)
  | store_none :
      ¬ is_main windowId ∨ Forall (empty_store ls) (JsMap.keys (Storage.items ls)) →
      truthy_opt (Storage.getItem "changes-store" ls) = false →
      store_to_migrate windowId ls None.

(** * Properties *)

(** ** Node's [path.normalize] on examples *)

Example normalize_ex1 : NodePath.normalize "/a/b/../c/./d//e/" = "/a/c/d/e/".
Proof. reflexivity. Qed.
Example normalize_ex2 : NodePath.normalize "../a/../../b" = "../../b".
Proof. reflexivity. Qed.
Example normalize_ex3 : NodePath.normalize "/../.." = "/".
Proof. reflexivity. Qed.
Example normalize_ex4 : NodePath.normalize "a/.." = ".".
Proof. reflexivity. Qed.
Example normalize_ex5 : NodePath.normalize "./" = "./".
Proof. reflexivity. Qed.
Example join_ex1 : NodePath.join ["/home/u"; ".vscode"; "extensions"] = "/home/u/.vscode/extensions".
Proof. reflexivity. Qed.

(** ** Insertion-ordered maps *)

Section jsmap_facts.
Context {K V : Type} `{EqDecision K}.
Implicit Types (m : JsMap.t K V) (k : K) (v : V).

Lemma jsmap_has_get k m : JsMap.has k m = true ↔ is_Some (JsMap.get k m).
Proof.
  unfold JsMap.has. destruct (JsMap.get k m); split; intros Hx; eauto.
  - discriminate.
  - by destruct Hx.
Qed.

Lemma jsmap_has_false k m : JsMap.has k m = false ↔ JsMap.get k m = None.
Proof. unfold JsMap.has. by destruct (JsMap.get k m). Qed.

Lemma jsmap_get_None k m : JsMap.get k m = None ↔ k ∉ JsMap.keys m.
Proof.
  unfold JsMap.keys. induction m as [|[k' v'] m IH]; simpl.
  - split; [intros _; apply not_elem_of_nil | done].
  - rewrite not_elem_of_cons. destruct (decide (k = k')); [|tauto].
    split; [done | tauto].
Qed.

Lemma jsmap_get_elem k v m : JsMap.get k m = Some v → (k, v) ∈ m.
Proof.
  induction m as [|[k' v'] m IH]; simpl; [done|].
  destruct (decide (k = k')) as [->|]; intros Hg.
  - injection Hg as ->. left.
  - right. auto.
Qed.

Lemma jsmap_elem_get k v m : NoDup (JsMap.keys m) → (k, v) ∈ m → JsMap.get k m = Some v.
Proof.
  unfold JsMap.keys. induction m as [|[k' v'] m IH]; simpl.
  - intros _ Hin. by apply elem_of_nil in Hin.
  - rewrite NoDup_cons. intros [Hk' Hnd] Hin.
    apply elem_of_cons in Hin as [Heq|Hin].
    + injection Heq as -> ->. by rewrite decide_True.
    + destruct (decide (k = k')) as [->|]; [|auto].
      destruct Hk'. apply list_elem_of_fmap. by exists (k', v).
Qed.

Lemma jsmap_get_set_eq k v m : JsMap.get k (JsMap.set k v m) = Some v.
Proof.
  induction m as [|[k' v'] m IH]; simpl.
  - by rewrite decide_True.
  - destruct (decide (k = k')); simpl; [by rewrite decide_True|].
    by rewrite decide_False.
Qed.

Lemma jsmap_get_set_ne k k' v m : k ≠ k' → JsMap.get k' (JsMap.set k v m) = JsMap.get k' m.
Proof.
  intros Hne. induction m as [|[k0 v0] m IH]; simpl.
  - by rewrite decide_False.
  - destruct (decide (k = k0)) as [->|]; simpl.
    + by rewrite !decide_False.
    + by rewrite IH.
Qed.

(** [delete] keeps exactly the entries under other keys, in order. *)
Lemma jsmap_delete_filter k m : JsMap.delete k m = filter (λ kv, kv.1 ≠ k) m.
Proof.
  induction m as [|[k' v'] m IH]; [done|].
  cbn [JsMap.delete]. destruct (decide (k = k')) as [->|].
  - by rewrite filter_cons_False; [|simpl; tauto].
  - rewrite filter_cons_True; [|simpl; congruence]. by rewrite IH.
Qed.

Lemma jsmap_get_delete_eq k m : JsMap.get k (JsMap.delete k m) = None.
Proof.
  induction m as [|[k' v'] m IH]; simpl; [done|].
  destruct (decide (k = k')); simpl; [done|]. by rewrite decide_False.
Qed.

Lemma jsmap_get_delete_ne k k' m : k ≠ k' → JsMap.get k' (JsMap.delete k m) = JsMap.get k' m.
Proof.
  intros Hne. induction m as [|[k0 v0] m IH]; simpl; [done|].
  destruct (decide (k = k0)) as [->|]; simpl.
  - by rewrite decide_False.
  - by rewrite IH.
Qed.

Lemma jsmap_delete_absent k m : JsMap.get k m = None → JsMap.delete k m = m.
Proof.
  induction m as [|[k' v'] m IH]; simpl; [done|].
  destruct (decide (k = k')); [done|]. intros Hg. by rewrite IH.
Qed.

Lemma jsmap_keys_set k v m :
  JsMap.keys (JsMap.set k v m)
  = if JsMap.has k m then JsMap.keys m else JsMap.keys m ++ [k].
Proof.
  unfold JsMap.keys, JsMap.has. induction m as [|[k' v'] m IH]; [done|].
  cbn [JsMap.set JsMap.get]. destruct (decide (k = k')) as [->|]; [done|].
  rewrite !fmap_cons, IH. by destruct (JsMap.get k m).
Qed.

Lemma jsmap_NoDup_keys_set k v m : NoDup (JsMap.keys m) → NoDup (JsMap.keys (JsMap.set k v m)).
Proof.
  intros Hnd. rewrite jsmap_keys_set.
  destruct (JsMap.has k m) eqn:Hhas; [done|].
  apply jsmap_has_false, jsmap_get_None in Hhas.
  apply NoDup_app. split_and!; [done| |apply NoDup_singleton].
  intros x Hx Hx'. apply list_elem_of_singleton in Hx' as ->. done.
Qed.

Lemma jsmap_keys_delete k m : JsMap.keys (JsMap.delete k m) = filter (λ k', k' ≠ k) (JsMap.keys m).
Proof.
  unfold JsMap.keys. induction m as [|[k' v'] m IH]; [done|].
  rewrite fmap_cons. cbn [JsMap.delete fst].
  destruct (decide (k = k')) as [->|].
  - by rewrite filter_cons_False; [|tauto].
  - rewrite filter_cons_True; [|congruence]. by rewrite fmap_cons, IH.
Qed.

Lemma jsmap_NoDup_keys_delete k m : NoDup (JsMap.keys m) → NoDup (JsMap.keys (JsMap.delete k m)).
Proof. intros Hnd. rewrite jsmap_keys_delete. by apply NoDup_filter. Qed.

Lemma jsmap_elem_delete k kv m : kv ∈ JsMap.delete k m ↔ kv ∈ m ∧ kv.1 ≠ k.
Proof. rewrite jsmap_delete_filter, list_elem_of_filter. tauto. Qed.

(** After [set], every entry is the new one or an old one. *)
Lemma jsmap_elem_set k v kv m : kv ∈ JsMap.set k v m → kv = (k, v) ∨ kv ∈ m.
Proof.
  induction m as [|[k' v'] m IH]; simpl.
  - intros Hin. apply list_elem_of_singleton in Hin. by left.
  - rewrite elem_of_cons.
    destruct (decide (k = k')) as [->|]; intros Hin;
      apply elem_of_cons in Hin as [->|Hin]; auto.
    destruct (IH Hin); auto.
Qed.

Lemma jsmap_values_set k v x m : x ∈ JsMap.values (JsMap.set k v m) → x = v ∨ x ∈ JsMap.values m.
Proof.
  unfold JsMap.values. intros Hin.
  apply list_elem_of_fmap in Hin as ([k0 v0] & -> & Hin).
  apply jsmap_elem_set in Hin as [Heq|Hin].
  - left. by injection Heq.
  - right. apply list_elem_of_fmap. by exists (k0, v0).
Qed.

Lemma jsmap_NoDup_values_set k v m :
  NoDup (JsMap.values m) → v ∉ JsMap.values m → NoDup (JsMap.values (JsMap.set k v m)).
Proof.
  unfold JsMap.values. induction m as [|[k' v'] m IH].
  - intros _ _. apply NoDup_singleton.
  - rewrite fmap_cons, NoDup_cons, not_elem_of_cons. cbn [snd JsMap.set].
    intros [Hv' Hnd] [Hne Hv].
    destruct (decide (k = k')) as [->|]; rewrite fmap_cons, NoDup_cons; cbn [snd].
    + done.
    + split; [|by apply IH].
      intros Hin. apply (jsmap_values_set k v v' m) in Hin as [->|Hin]; done.
Qed.

Lemma jsmap_NoDup_values_delete k m : NoDup (JsMap.values m) → NoDup (JsMap.values (JsMap.delete k m)).
Proof.
  unfold JsMap.values. induction m as [|[k' v'] m IH]; [done|].
  rewrite fmap_cons, NoDup_cons. cbn [snd JsMap.delete]. intros [Hv' Hnd].
  destruct (decide (k = k')); [by apply IH|].
  rewrite fmap_cons, NoDup_cons. split; [|by apply IH].
  cbn [snd]. intros Hin. apply Hv'.
  apply list_elem_of_fmap in Hin as (kv & -> & Hin).
  apply jsmap_elem_delete in Hin as [Hin _].
  apply list_elem_of_fmap. by exists kv.
Qed.
End jsmap_facts.

(** ** The Subscription Bridge *)

(** Unfolds the handlers' monadic plumbing. *)
Ltac run_M :=
  unfold console_log, call_unsubscribe, gitCache_invalidateStatus,
    gitCache_invalidateParsedDiff, gitWatcherRegistry_disposeAll,
    gitWatcherRegistry_subscribe, webContents_send;
  unfold mbind, M_bind, mret, M_ret, gets, modify, throw, try_catch;
  cbn [negb fst snd].

Lemma truthy_false (s : string) : truthy s = false ↔ s = "".
Proof.
  unfold truthy. case_bool_decide; simpl; split; intros Hx; done.
Qed.

Lemma truthy_true (s : string) : truthy s = true ↔ s ≠ "".
Proof.
  unfold truthy. case_bool_decide; simpl; split; intros Hx; done.
Qed.

(** *** Subscribe *)

Lemma subscribe_request_falsy sender worktreePath w :
  truthy worktreePath = false →
  subscribe_request sender worktreePath w = (Returned None, w).
Proof. intros Hf. unfold subscribe_request. by rewrite Hf. Qed.

Lemma subscribe_request_subscribed sender worktreePath w :
  JsMap.has worktreePath (activeSubscriptions w) = true →
  subscribe_request sender worktreePath w = (Returned None, w).
Proof.
  intros Hhas. unfold subscribe_request.
  destruct (truthy worktreePath); [|done]. run_M. by rewrite Hhas.
Qed.

Lemma subscribe_request_no_window sender worktreePath w :
  Electron.fromWebContents sender (electron w) = None →
  subscribe_request sender worktreePath w = (Returned None, w).
Proof.
  intros Hwin. unfold subscribe_request.
  destruct (truthy worktreePath); [|done]. run_M.
  destruct (JsMap.has _ _); [done|]. by rewrite Hwin.
Qed.

Lemma subscribe_request_destroyed sender worktreePath w win :
  Electron.fromWebContents sender (electron w) = Some win →
  BrowserWindow.isDestroyed win = true →
  subscribe_request sender worktreePath w = (Returned None, w).
Proof.
  intros Hwin Hd. unfold subscribe_request.
  destruct (truthy worktreePath); [|done]. run_M.
  destruct (JsMap.has _ _); [done|]. by rewrite Hwin, Hd.
Qed.

(** What a request that passes every check does: one call of the registry's
    [subscribe], nothing else; the table is written only on resumption. *)
Lemma subscribe_request_proceeds sender worktreePath w win :
  truthy worktreePath = true →
  JsMap.has worktreePath (activeSubscriptions w) = false →
  Electron.fromWebContents sender (electron w) = Some win →
  BrowserWindow.isDestroyed win = false →
  subscribe_request sender worktreePath w
  = let '(result, r) := WatcherRegistry.subscribe worktreePath (gitWatcherRegistry w) in
    (Returned (Some (MkPending worktreePath (BrowserWindow.id win) result)),
     emit (RegistrySubscribe worktreePath result) (with_gitWatcherRegistry (λ _, r) w)).
Proof.
  intros Ht Hhas Hwin Hd. unfold subscribe_request. rewrite Ht. run_M.
  rewrite Hhas, Hwin, Hd.
  by destruct (WatcherRegistry.subscribe _ _).
Qed.

Lemma subscribe_request_table sender worktreePath w :
  activeSubscriptions (subscribe_request sender worktreePath w).2 = activeSubscriptions w.
Proof.
  unfold subscribe_request. destruct (truthy worktreePath); [|done]. run_M.
  destruct (JsMap.has _ _); [done|].
  destruct (Electron.fromWebContents _ _) as [win|]; [|done].
  destruct (BrowserWindow.isDestroyed win); [done|].
  by destruct (WatcherRegistry.subscribe _ _).
Qed.

Lemma subscribe_request_pending sender worktreePath w p :
  (subscribe_request sender worktreePath w).1 = Returned (Some p) →
  pending_worktreePath p = worktreePath ∧ truthy worktreePath = true.
Proof.
  unfold subscribe_request. destruct (truthy worktreePath); [|done]. run_M.
  destruct (JsMap.has _ _); [done|].
  destruct (Electron.fromWebContents _ _) as [win|]; [|done].
  destruct (BrowserWindow.isDestroyed win); [done|].
  destruct (WatcherRegistry.subscribe _ _). simpl. intros [= <-]. done.
Qed.

Lemma subscribe_resume_table p w :
  activeSubscriptions (subscribe_resume p w).2
  = match pending_result p with
    | Some c => JsMap.set (pending_worktreePath p) (MkSubscription (pending_windowId p) c)
                          (activeSubscriptions w)
    | None => activeSubscriptions w
    end.
Proof. unfold subscribe_resume. by destruct (pending_result p). Qed.

(** *** Unsubscribe *)

Lemma handleUnsubscribe_falsy worktreePath w :
  truthy worktreePath = false → handleUnsubscribe worktreePath w = (Returned (), w).
Proof. intros Hf. unfold handleUnsubscribe. by rewrite Hf. Qed.

Lemma handleUnsubscribe_absent worktreePath w :
  JsMap.get worktreePath (activeSubscriptions w) = None →
  handleUnsubscribe worktreePath w = (Returned (), w).
Proof.
  intros Hg. unfold handleUnsubscribe. destruct (truthy worktreePath); [|done].
  run_M. by rewrite Hg.
Qed.

Lemma handleUnsubscribe_present worktreePath w subscription :
  truthy worktreePath = true →
  JsMap.get worktreePath (activeSubscriptions w) = Some subscription →
  handleUnsubscribe worktreePath w
  = (Returned (),
     MkWorld (JsMap.delete worktreePath (activeSubscriptions w))
             (WatcherRegistry.unsubscribe (unsubscribe subscription) (gitWatcherRegistry w))
             (gitCache w) (electron w)
             (effects w ++ [CallUnsubscribe (unsubscribe subscription);
                            ConsoleLog ("[GitWatcher] Window " +:+ pretty (windowId subscription)
                                        +:+ " unsubscribed from: " +:+ worktreePath)])).
Proof.
  intros Ht Hg. unfold handleUnsubscribe. rewrite Ht. run_M. rewrite Hg.
  unfold emit, with_activeSubscriptions, with_gitWatcherRegistry. simpl.
  by rewrite <- app_assoc.
Qed.

Lemma handleUnsubscribe_returns worktreePath w :
  (handleUnsubscribe worktreePath w).1 = Returned ().
Proof.
  unfold handleUnsubscribe. destruct (truthy worktreePath); [|done]. run_M.
  by destruct (JsMap.get _ _).
Qed.

Lemma handleUnsubscribe_table worktreePath w :
  activeSubscriptions (handleUnsubscribe worktreePath w).2
  = if truthy worktreePath then JsMap.delete worktreePath (activeSubscriptions w)
    else activeSubscriptions w.
Proof.
  unfold handleUnsubscribe. destruct (truthy worktreePath); [|done]. run_M.
  destruct (JsMap.get _ _) eqn:Hg; [done|]. by rewrite jsmap_delete_absent.
Qed.

(** *** The watch-event callback *)

Lemma watchCallback_no_subscription worktreePath ev w :
  JsMap.get worktreePath (activeSubscriptions w) = None →
  watchCallback worktreePath ev w = (Returned (), w).
Proof. intros Hg. unfold watchCallback. run_M. by rewrite Hg. Qed.

(** The early return of line 45 comes before the two invalidations. *)
Lemma watchCallback_window_gone worktreePath ev w subscription :
  JsMap.get worktreePath (activeSubscriptions w) = Some subscription →
  match Electron.fromId (windowId subscription) (electron w) with
  | None => True
  | Some targetWindow => BrowserWindow.isDestroyed targetWindow = true
  end →
  watchCallback worktreePath ev w = (Returned (), w).
Proof.
  intros Hg Hwin. unfold watchCallback. run_M. rewrite Hg.
  destruct (Electron.fromId _ _) as [targetWindow|]; [|done]. by rewrite Hwin.
Qed.

Lemma watchCallback_live worktreePath ev w subscription targetWindow :
  JsMap.get worktreePath (activeSubscriptions w) = Some subscription →
  Electron.fromId (windowId subscription) (electron w) = Some targetWindow →
  BrowserWindow.isDestroyed targetWindow = false →
  watchCallback worktreePath ev w
  = (Returned (),
     MkWorld (activeSubscriptions w) (gitWatcherRegistry w)
       (GitCache.invalidateParsedDiff worktreePath
          (GitCache.invalidateStatus worktreePath (gitCache w)))
       (electron w)
       (effects w ++
        [InvalidateStatus worktreePath; InvalidateParsedDiff worktreePath;
         if BrowserWindow.webContents_isDestroyed targetWindow
         then SendThrew (BrowserWindow.id targetWindow)
         else Sent (BrowserWindow.id targetWindow) "git:status-changed"
                (GitWatchEvent.Build (GitWatchEvent.worktreePath ev)
                                     (GitWatchEvent.changes ev))])).
Proof.
  intros Hg Hwin Hlive. unfold watchCallback. run_M. rewrite Hg, Hwin, Hlive.
  unfold emit, with_gitCache. simpl.
  destruct (BrowserWindow.webContents_isDestroyed targetWindow); simpl;
    by rewrite <- !app_assoc.
Qed.

Lemma fromId_id i e win : Electron.fromId i e = Some win → BrowserWindow.id win = i.
Proof.
  unfold Electron.fromId. intros Hf. apply find_some in Hf as [_ Hf].
  by apply bool_decide_eq_true in Hf.
Qed.

Lemma watchCallback_returns worktreePath ev w :
  (watchCallback worktreePath ev w).1 = Returned ().
Proof.
  destruct (JsMap.get worktreePath (activeSubscriptions w)) as [sub|] eqn:Hg.
  - destruct (Electron.fromId (windowId sub) (electron w)) as [win|] eqn:Hw.
    + destruct (BrowserWindow.isDestroyed win) eqn:Hd.
      * rewrite (watchCallback_window_gone _ _ _ sub); [done..|by rewrite Hw].
      * by rewrite (watchCallback_live _ _ _ sub win).
    + rewrite (watchCallback_window_gone _ _ _ sub); [done..|by rewrite Hw].
  - by rewrite watchCallback_no_subscription.
Qed.

Lemma watchCallback_table worktreePath ev w :
  activeSubscriptions (watchCallback worktreePath ev w).2 = activeSubscriptions w.
Proof.
  destruct (JsMap.get worktreePath (activeSubscriptions w)) as [sub|] eqn:Hg.
  - destruct (Electron.fromId (windowId sub) (electron w)) as [win|] eqn:Hw.
    + destruct (BrowserWindow.isDestroyed win) eqn:Hd.
      * rewrite (watchCallback_window_gone _ _ _ sub); [done..|by rewrite Hw].
      * by rewrite (watchCallback_live _ _ _ sub win).
    + rewrite (watchCallback_window_gone _ _ _ sub); [done..|by rewrite Hw].
  - by rewrite watchCallback_no_subscription.
Qed.

Lemma fan_out_table listeners ev w :
  activeSubscriptions (fan_out listeners ev w).2 = activeSubscriptions w.
Proof.
  revert w. induction listeners as [|l ls IH]; intros w; [done|].
  cbn [fan_out]. run_M.
  pose proof (watchCallback_returns (GitWatchEvent.worktreePath ev) ev w) as Hr.
  pose proof (watchCallback_table (GitWatchEvent.worktreePath ev) ev w) as Ht.
  destruct (watchCallback _ ev w) as [[[]|e] w']; simpl in *; [|done].
  by rewrite IH.
Qed.

Lemma registry_emit_table worktreePath changes w :
  activeSubscriptions (registry_emit worktreePath changes w).2 = activeSubscriptions w.
Proof. unfold registry_emit. run_M. apply fan_out_table. Qed.

(** *** [cleanupWindowSubscriptions] and [cleanupGitWatchers] *)

Lemma cleanup_loop_run windowId' entries w :
  cleanup_loop windowId' entries w
  = (Returned (),
     MkWorld
       (foldl (λ m kv, JsMap.delete kv.1 m) (activeSubscriptions w) (owned_by windowId' entries))
       (foldl (λ r kv, WatcherRegistry.unsubscribe (unsubscribe kv.2) r)
              (gitWatcherRegistry w) (owned_by windowId' entries))
       (gitCache w) (electron w)
       (effects w ++ (owned_by windowId' entries ≫= cleanup_effects windowId'))).
Proof.
  revert w. induction entries as [|[path sub] rest IH]; intros w.
  - simpl. unfold mret, M_ret. destruct w; simpl. by rewrite app_nil_r.
  - cbn [cleanup_loop]. unfold owned_by. run_M.
    destruct (decide (windowId sub = windowId')) as [Heq|Hne].
    + rewrite bool_decide_eq_true_2 by done.
      rewrite filter_cons_True by done. cbn [negb fst snd].
      rewrite IH. f_equal. unfold emit, with_activeSubscriptions, with_gitWatcherRegistry.
      cbn. rewrite <- !app_assoc. done.
    + rewrite bool_decide_eq_false_2 by done.
      rewrite filter_cons_False by done. apply IH.
Qed.

Lemma filter_all {A} (P : A → Prop) `{!∀ x, Decision (P x)} (l : list A) :
  (∀ x, P x) → filter P l = l.
Proof.
  intros HP. induction l as [|x l IH]; [done|].
  by rewrite filter_cons_True, IH.
Qed.

Lemma foldl_delete_filter {V} (m l : list (string * V)) :
  foldl (λ m kv, JsMap.delete kv.1 m) m l = filter (λ kv, kv.1 ∉ l.*1) m.
Proof.
  revert m. induction l as [|[k v] l IH]; intros m.
  - cbn [foldl]. symmetry. apply filter_all. intros x. apply not_elem_of_nil.
  - cbn [foldl fst]. rewrite IH, jsmap_delete_filter, list_filter_filter.
    apply list_filter_iff. intros [k' v']. rewrite fmap_cons, not_elem_of_cons. simpl. tauto.
Qed.

Lemma filter_ext_elem {A} (P Q : A → Prop) `{!∀ x, Decision (P x)} `{!∀ x, Decision (Q x)}
    (l : list A) :
  (∀ x, x ∈ l → P x ↔ Q x) → filter P l = filter Q l.
Proof.
  induction l as [|x l IH]; intros Hext; [done|].
  rewrite !filter_cons.
  rewrite IH by (intros y Hy; apply Hext; by right).
  destruct (decide (P x)) as [HP|HP], (decide (Q x)) as [HQ|HQ]; try done.
  - destruct HQ. apply Hext; [left|done].
  - destruct HP. apply Hext; [left|done].
Qed.

(** With distinct keys, deleting the owned entries one by one leaves the
    entries of the other windows, in their order. *)
Lemma cleanup_table windowId' (m : list (string * Subscription)) :
  NoDup (JsMap.keys m) →
  foldl (λ m kv, JsMap.delete kv.1 m) m (owned_by windowId' m)
  = filter (λ kv, windowId kv.2 ≠ windowId') m.
Proof.
  intros Hnd. rewrite foldl_delete_filter. apply filter_ext_elem.
  intros [k sub] Hin. simpl. split.
  - intros Hk Heq. apply Hk. apply list_elem_of_fmap. exists (k, sub). split; [done|].
    apply list_elem_of_filter. done.
  - intros Hne Hk. apply list_elem_of_fmap in Hk as ([k' sub'] & Hk & Hin').
    simpl in Hk. subst k'. apply list_elem_of_filter in Hin' as [Hown Hin'].
    simpl in Hown.
    apply (jsmap_elem_get _ _ _) in Hin; [|done].
    apply (jsmap_elem_get _ _ _) in Hin'; [|done]. congruence.
Qed.

Lemma unsubscribe_each_run subscriptions w :
  unsubscribe_each subscriptions w
  = (Returned (),
     MkWorld (activeSubscriptions w)
       (foldl (λ r sub, WatcherRegistry.unsubscribe (unsubscribe sub) r)
              (gitWatcherRegistry w) subscriptions)
       (gitCache w) (electron w)
       (effects w ++ ((λ sub, CallUnsubscribe (unsubscribe sub)) <$> subscriptions))).
Proof.
  revert w. induction subscriptions as [|sub rest IH]; intros w.
  - simpl. unfold mret, M_ret. destruct w; simpl. by rewrite app_nil_r.
  - cbn [unsubscribe_each]. run_M. rewrite IH. f_equal.
    unfold emit, with_gitWatcherRegistry. cbn. by rewrite <- app_assoc.
Qed.

Lemma cleanupGitWatchers_request_run w :
  cleanupGitWatchers_request w
  = (Returned (),
     MkWorld []
       (WatcherRegistry.disposeAll
          (foldl (λ r sub, WatcherRegistry.unsubscribe (unsubscribe sub) r)
                 (gitWatcherRegistry w) (JsMap.values (activeSubscriptions w))))
       (gitCache w) (electron w)
       (effects w
        ++ ((λ sub, CallUnsubscribe (unsubscribe sub)) <$> JsMap.values (activeSubscriptions w))
        ++ [ClearSubscriptions; RegistryDisposeAll])).
Proof.
  unfold cleanupGitWatchers_request, activeSubscriptions_clear. run_M.
  rewrite unsubscribe_each_run.
  unfold emit, with_activeSubscriptions, with_gitWatcherRegistry. cbn.
  by rewrite <- !app_assoc.
Qed.

Lemma cleanupGitWatchers_resume_run w :
  cleanupGitWatchers_resume w
  = (Returned (), emit (ConsoleLog "[GitWatcher] All watchers cleaned up") w).
Proof. done. Qed.

Lemma cleanupGitWatchers_run w :
  cleanupGitWatchers w
  = (Returned (),
     MkWorld []
       (WatcherRegistry.disposeAll
          (foldl (λ r sub, WatcherRegistry.unsubscribe (unsubscribe sub) r)
                 (gitWatcherRegistry w) (JsMap.values (activeSubscriptions w))))
       (gitCache w) (electron w)
       (effects w
        ++ ((λ sub, CallUnsubscribe (unsubscribe sub)) <$> JsMap.values (activeSubscriptions w))
        ++ [ClearSubscriptions; RegistryDisposeAll;
            ConsoleLog "[GitWatcher] All watchers cleaned up"])).
Proof.
  unfold cleanupGitWatchers.
  change (cleanupGitWatchers_request ;; cleanupGitWatchers_resume)
    with (mbind (M := M) (λ _ : unit, cleanupGitWatchers_resume) cleanupGitWatchers_request).
  unfold mbind, M_bind. rewrite cleanupGitWatchers_request_run.
  rewrite cleanupGitWatchers_resume_run. unfold emit. cbn.
  by rewrite <- !app_assoc.
Qed.

(** *** Invariants of the subscription table *)

Lemma table_ok_nil : table_ok [].
Proof. split; [constructor|]. intros k Hk. by apply elem_of_nil in Hk. Qed.

Lemma table_ok_sublist m m' : m' `sublist_of` m → table_ok m → table_ok m'.
Proof.
  intros Hsub [Hnd Ht].
  assert (JsMap.keys m' `sublist_of` JsMap.keys m) as Hk by (by apply fmap_sublist).
  split; [by eapply sublist_NoDup|].
  intros k Hin. apply Ht. by eapply elem_of_sublist.
Qed.

Lemma table_ok_delete k m : table_ok m → table_ok (JsMap.delete k m).
Proof. apply table_ok_sublist. rewrite jsmap_delete_filter. apply sublist_filter. Qed.

Lemma table_ok_set k v m : truthy k = true → table_ok m → table_ok (JsMap.set k v m).
Proof.
  intros Hk [Hnd Ht]. split; [by apply jsmap_NoDup_keys_set|].
  intros k'. rewrite jsmap_keys_set. destruct (JsMap.has k m); [apply Ht|].
  rewrite elem_of_app, list_elem_of_singleton. intros [Hin| ->]; auto.
Qed.

Lemma table_ok_get k v m : table_ok m → JsMap.get k m = Some v → truthy k = true.
Proof.
  intros [_ Ht] Hg. apply Ht. destruct (decide (k ∈ JsMap.keys m)) as [|Hn]; [done|].
  apply jsmap_get_None in Hn. congruence.
Qed.

Lemma cleanupWindowSubscriptions_run windowId' w :
  cleanupWindowSubscriptions windowId' w
  = (Returned (),
     MkWorld
       (foldl (λ m kv, JsMap.delete kv.1 m) (activeSubscriptions w)
              (owned_by windowId' (activeSubscriptions w)))
       (foldl (λ r kv, WatcherRegistry.unsubscribe (unsubscribe kv.2) r)
              (gitWatcherRegistry w) (owned_by windowId' (activeSubscriptions w)))
       (gitCache w) (electron w)
       (effects w ++ (owned_by windowId' (activeSubscriptions w) ≫= cleanup_effects windowId'))).
Proof. unfold cleanupWindowSubscriptions. run_M. apply cleanup_loop_run. Qed.

Lemma bridge_inv_initial canOpen : bridge_inv (initial canOpen).
Proof. split; [apply table_ok_nil|constructor]. Qed.

Lemma bridge_inv_step a s : bridge_inv s → bridge_inv (step a s).
Proof.
  intros [Ht Ha]. destruct a; cbn [step].
  - pose proof (subscribe_request_table sender worktreePath (world s)) as Htab.
    pose proof (subscribe_request_pending sender worktreePath (world s)) as Hp.
    destruct (subscribe_request _ _ _) as [[[p|]|e] w']; cbn [fst snd] in *;
      split; cbn [world awaiting]; rewrite ?Htab; try done.
    apply Forall_app. split; [done|]. apply Forall_singleton.
    destruct (Hp p eq_refl) as [-> ?]. done.
  - destruct (awaiting s !! n) as [p|] eqn:Hn; [|done].
    split; cbn [world awaiting]; [|by apply Forall_delete].
    rewrite subscribe_resume_table. destruct (pending_result p); [|done].
    apply table_ok_set; [|done].
    rewrite Forall_forall in Ha. apply Ha. by eapply list_elem_of_lookup_2.
  - split; cbn [run world awaiting]; [|done].
    rewrite handleUnsubscribe_table. destruct (truthy worktreePath); [|done].
    by apply table_ok_delete.
  - split; cbn [run world awaiting]; [|done]. by rewrite registry_emit_table.
  - destruct (WindowManager.register _ _). done.
  - done.
  - done.
  - unfold WindowManager.on_closed. rewrite cleanupWindowSubscriptions_run.
    split; cbn [world awaiting activeSubscriptions]; [|done].
    rewrite foldl_delete_filter. eapply table_ok_sublist; [apply sublist_filter|done].
  - split; cbn [world awaiting]; [|done].
    rewrite cleanupGitWatchers_request_run. apply table_ok_nil.
  - destruct (disposing s); [done|]. done.
  - done.
  - done.
Qed.

Lemma steps_snoc actions a s : steps (actions ++ [a]) s = step a (steps actions s).
Proof. unfold steps. by rewrite foldl_snoc. Qed.

Lemma reachable_initial canOpen : reachable (initial canOpen).
Proof. by exists canOpen, []. Qed.

Lemma reachable_step a s : reachable s → reachable (step a s).
Proof.
  intros (canOpen & actions & ->). exists canOpen, (actions ++ [a]).
  by rewrite steps_snoc.
Qed.

(** Induction over the runs of the main process. *)
Lemma reachable_ind' (P : System → Prop) :
  (∀ canOpen, P (initial canOpen)) →
  (∀ a s, reachable s → P s → P (step a s)) →
  ∀ s, reachable s → P s.
Proof.
  intros Hinit Hstep s (canOpen & actions & ->).
  induction actions as [|a actions IH] using rev_ind; [apply Hinit|].
  rewrite steps_snoc. apply Hstep; [|done]. by exists canOpen, actions.
Qed.

Lemma reachable_bridge_inv s : reachable s → bridge_inv s.
Proof.
  revert s. apply (reachable_ind' bridge_inv).
  - apply bridge_inv_initial.
  - intros a s' _. apply bridge_inv_step.
Qed.

(** ** The bridge: what the specification states *)

Lemma reachable_subscribed : reachable subscribed.
Proof. by exists (λ _, true), subscribed_run. Qed.

Lemma reachable_refocused : reachable refocused.
Proof. apply reachable_step, reachable_subscribed. Qed.

Lemma reachable_windowA_destroyed : reachable windowA_destroyed.
Proof. apply reachable_step, reachable_subscribed. Qed.

Lemma reachable_closed_during_await : reachable closed_during_await.
Proof. by eexists (λ _, true), _. Qed.

(** C1, on the code as written: window 1 asked to subscribe to ["/repo"] and
    was closed while the handler waited for the registry, so the Subscription
    is recorded for a window that is gone.  A domain event for ["/repo"]
    reaches the callback while that Subscription is recorded; the callback
    returns at its window check and invalidates nothing: both cache slots
    still hold the values computed before the event. *)
Theorem watchCallback_keeps_stale_cache_when_window_gone :
  let w := world closed_during_await in
  let ev := GitWatchEvent.Build "/repo" ["index"] in
  reachable closed_during_await
  ∧ JsMap.get "/repo" (activeSubscriptions w)
    = Some (MkSubscription 1 (MkCapability "/repo" 0))
  ∧ Electron.fromId 1 (electron w) = None
  ∧ watchCallback "/repo" ev w = (Returned (), w)
  ∧ world (step (WatchEvent "/repo" ["index"]) closed_during_await) = w
  ∧ GitCache.status (gitCache w) !! "/repo" = Some "M src/a.ts"
  ∧ GitCache.parsedDiff (gitCache w) !! "/repo" = Some "@@ -1 +1 @@".
Proof.
  split; [apply reachable_closed_during_await|].
  split; [reflexivity|]. split; [reflexivity|].
  split; [by apply (watchCallback_window_gone _ _ _ (MkSubscription 1 (MkCapability "/repo" 0)))|].
  split; [|split]; reflexivity.
Qed.

(** The same when the window object is still in the table, destroyed. *)
Example watchCallback_destroyed_window :
  watchCallback "/repo" (GitWatchEvent.Build "/repo" ["index"]) (world windowA_destroyed)
  = (Returned (), world windowA_destroyed)
  ∧ GitCache.status (gitCache (world windowA_destroyed)) !! "/repo" = Some "M src/a.ts".
Proof. split; reflexivity. Qed.

(** The part of C1 the code does provide: when the recorded window is there,
    both slots are invalidated before the push, also when the push throws. *)
Lemma watchCallback_invalidates_before_push worktreePath ev w subscription targetWindow :
  JsMap.get worktreePath (activeSubscriptions w) = Some subscription →
  Electron.fromId (windowId subscription) (electron w) = Some targetWindow →
  BrowserWindow.isDestroyed targetWindow = false →
  ∃ push,
    (watchCallback worktreePath ev w).1 = Returned ()
    ∧ effects (watchCallback worktreePath ev w).2
      = effects w ++ [InvalidateStatus worktreePath; InvalidateParsedDiff worktreePath; push]
    ∧ (push = SendThrew (windowId subscription)
       ∨ push = Sent (windowId subscription) "git:status-changed"
                  (GitWatchEvent.Build (GitWatchEvent.worktreePath ev) (GitWatchEvent.changes ev)))
    ∧ GitCache.status (gitCache (watchCallback worktreePath ev w).2) !! worktreePath = None
    ∧ GitCache.parsedDiff (gitCache (watchCallback worktreePath ev w).2) !! worktreePath = None.
Proof.
  intros Hg Hwin Hlive. rewrite (watchCallback_live _ _ _ _ _ Hg Hwin Hlive).
  rewrite (fromId_id _ _ _ Hwin). eexists. split; [done|]. split; [done|]. cbn.
  split; [destruct (BrowserWindow.webContents_isDestroyed targetWindow); auto|].
  split; apply lookup_delete_eq.
Qed.

(** C2: in every state the main process can reach, the table has one entry
    per worktree path, and a subscribe request for a recorded path changes
    nothing: no call of the registry's [subscribe], no effect at all, the
    recorded Subscription as it was. *)
Theorem subscribe_recorded_path_is_noop s sender worktreePath subscription :
  reachable s →
  JsMap.get worktreePath (activeSubscriptions (world s)) = Some subscription →
  NoDup (JsMap.keys (activeSubscriptions (world s)))
  ∧ subscribe_request sender worktreePath (world s) = (Returned None, world s)
  ∧ handleSubscribe sender worktreePath (world s) = (Returned (), world s)
  ∧ step (SubscribeRequest sender worktreePath) s = s
  ∧ JsMap.get worktreePath
      (activeSubscriptions (handleSubscribe sender worktreePath (world s)).2)
    = Some subscription.
Proof.
  intros Hreach Hg.
  assert (subscribe_request sender worktreePath (world s) = (Returned None, world s)) as Hreq.
  { apply subscribe_request_subscribed, jsmap_has_get. by eexists. }
  assert (handleSubscribe sender worktreePath (world s) = (Returned (), world s)) as Hh.
  { unfold handleSubscribe. run_M. by rewrite Hreq. }
  split; [apply (reachable_bridge_inv s Hreach)|].
  split; [done|]. split; [done|].
  split; [|by rewrite Hh].
  cbn [step]. rewrite Hreq. by destruct s.
Qed.

Lemma subscribe_recorded_path_is_noop_witness :
  JsMap.get "/repo" (activeSubscriptions (world subscribed))
  = Some (MkSubscription 1 (MkCapability "/repo" 0))
  ∧ step (SubscribeRequest 12 "/repo") subscribed = subscribed.
Proof.
  split; [reflexivity|].
  apply (subscribe_recorded_path_is_noop subscribed 12 "/repo"
           (MkSubscription 1 (MkCapability "/repo" 0)) reachable_subscribed).
  reflexivity.
Defined.

(** The identity recorded is that of the sender's window when the request is
    handled. *)
Lemma handleSubscribe_records_sender sender worktreePath w win c r :
  truthy worktreePath = true →
  JsMap.has worktreePath (activeSubscriptions w) = false →
  Electron.fromWebContents sender (electron w) = Some win →
  BrowserWindow.isDestroyed win = false →
  WatcherRegistry.subscribe worktreePath (gitWatcherRegistry w) = (Some c, r) →
  (handleSubscribe sender worktreePath w).1 = Returned ()
  ∧ JsMap.get worktreePath (activeSubscriptions (handleSubscribe sender worktreePath w).2)
    = Some (MkSubscription (BrowserWindow.id win) c).
Proof.
  intros Ht Hhas Hwin Hd Hreg. unfold handleSubscribe. run_M.
  rewrite (subscribe_request_proceeds _ _ _ win Ht Hhas Hwin Hd), Hreg.
  unfold subscribe_resume. run_M. cbn. split; [done|]. apply jsmap_get_set_eq.
Qed.

(** Two requests for one worktree that both reach their [await] before either
    resumes: each has called the registry, the table ends with one record. *)
Example overlapping_subscribes :
  let s := steps [ElectronChanges (Electron.Build [windowA; windowB] (Some 1));
                  SubscribeRequest 11 "/repo"; SubscribeRequest 12 "/repo";
                  SubscribeResume 0; SubscribeResume 0] (initial (λ _, true)) in
  activeSubscriptions (world s) = [("/repo", MkSubscription 2 (MkCapability "/repo" 1))]
  ∧ WatcherRegistry.entries (gitWatcherRegistry (world s)) !! "/repo" = Some [0; 1].
Proof. split; reflexivity. Qed.

(** C3: whatever window has the focus, every push the callback makes goes to
    the window identity recorded in the Subscription; and when that window is
    there the event is pushed to it. *)
Theorem push_goes_to_recorded_window w worktreePath ev subscription focus :
  JsMap.get worktreePath (activeSubscriptions w) = Some subscription →
  let w' := with_electron (Electron.withFocus focus) w in
  let pushed := drop (length (effects w)) (effects (watchCallback worktreePath ev w').2) in
  (∀ wid channel payload, Sent wid channel payload ∈ pushed → wid = windowId subscription)
  ∧ (∀ targetWindow,
       Electron.fromId (windowId subscription) (electron w) = Some targetWindow →
       BrowserWindow.isDestroyed targetWindow = false →
       BrowserWindow.webContents_isDestroyed targetWindow = false →
       pushed = [InvalidateStatus worktreePath; InvalidateParsedDiff worktreePath;
                 Sent (windowId subscription) "git:status-changed"
                   (GitWatchEvent.Build (GitWatchEvent.worktreePath ev)
                                        (GitWatchEvent.changes ev))]).
Proof.
  intros Hg w' pushed. subst pushed.
  assert (JsMap.get worktreePath (activeSubscriptions w') = Some subscription) as Hg' by done.
  assert (Electron.fromId (windowId subscription) (electron w')
          = Electron.fromId (windowId subscription) (electron w)) as Hid by done.
  assert (effects w' = effects w) as Heff by done.
  destruct (Electron.fromId (windowId subscription) (electron w)) as [win|] eqn:Hwin.
  - destruct (BrowserWindow.isDestroyed win) eqn:Hd.
    + rewrite (watchCallback_window_gone _ _ _ subscription Hg') by (by rewrite Hid).
      cbn [snd]. rewrite Heff, drop_all. split; [|by intros ? [= <-]; congruence].
      intros ??? Hin. by apply elem_of_nil in Hin.
    + rewrite (watchCallback_live _ _ _ subscription win Hg') by (by rewrite ?Hid).
      cbn [snd effects]. rewrite Heff, drop_app_length.
      rewrite (fromId_id _ _ _ Hwin). split.
      * intros wid ch payload Hin.
        repeat (apply elem_of_cons in Hin as [Hin|Hin]; [try done|]).
        -- destruct (BrowserWindow.webContents_isDestroyed win); congruence.
        -- by apply elem_of_nil in Hin.
      * intros ? [= <-] _ ->. done.
  - rewrite (watchCallback_window_gone _ _ _ subscription Hg') by (by rewrite Hid).
    cbn [snd]. rewrite Heff, drop_all. split; [|done].
    intros ??? Hin. by apply elem_of_nil in Hin.
Qed.

(** Window 1 subscribed, window 2 has the focus: the event goes to window 1. *)
Lemma push_goes_to_recorded_window_witness :
  Electron.focusedWindow (electron (world refocused)) = Some 2
  ∧ drop (length (effects (world refocused)))
      (effects (watchCallback "/repo" (GitWatchEvent.Build "/repo" ["HEAD"])
                  (world refocused)).2)
    = [InvalidateStatus "/repo"; InvalidateParsedDiff "/repo";
       Sent 1 "git:status-changed" (GitWatchEvent.Build "/repo" ["HEAD"])].
Proof.
  split; [reflexivity|].
  apply (proj2 (push_goes_to_recorded_window (world subscribed) "/repo"
                  (GitWatchEvent.Build "/repo" ["HEAD"])
                  (MkSubscription 1 (MkCapability "/repo" 0)) (Some 2) eq_refl)
           windowA); reflexivity.
Defined.

Lemma jsmap_get_filter {V} (P : string * V → Prop) `{!∀ kv, Decision (P kv)}
    (m : list (string * V)) k v :
  NoDup (JsMap.keys m) →
  JsMap.get k (filter P m) = Some v ↔ JsMap.get k m = Some v ∧ P (k, v).
Proof.
  intros Hnd.
  assert (NoDup (JsMap.keys (filter P m))) as Hnd'.
  { eapply sublist_NoDup; [done|]. apply fmap_sublist, sublist_filter. }
  split.
  - intros Hg. apply jsmap_get_elem, list_elem_of_filter in Hg as [HP Hin].
    split; [by apply jsmap_elem_get|done].
  - intros [Hg HP]. apply jsmap_elem_get; [done|].
    apply list_elem_of_filter. split; [done|]. by apply jsmap_get_elem.
Qed.

(** C4: [cleanupWindowSubscriptions], which the window manager's ["closed"]
    listener calls with the identity of the closed window, invokes the
    unsubscribe capability of every Subscription recorded for that window, in
    table order, and removes exactly those records; the Subscriptions of other
    windows stay as they were. *)
Theorem cleanup_unsubscribes_the_closed_window w closedId :
  NoDup (JsMap.keys (activeSubscriptions w)) →
  ∃ w',
    cleanupWindowSubscriptions closedId w = (Returned (), w')
    ∧ (∀ m, (WindowManager.on_closed closedId m w).2 = w')
    ∧ activeSubscriptions w'
      = filter (λ kv, windowId kv.2 ≠ closedId) (activeSubscriptions w)
    ∧ (∀ path subscription,
         JsMap.get path (activeSubscriptions w') = Some subscription
         ↔ JsMap.get path (activeSubscriptions w) = Some subscription
           ∧ windowId subscription ≠ closedId)
    ∧ effects w'
      = effects w ++ (owned_by closedId (activeSubscriptions w) ≫= cleanup_effects closedId)
    ∧ gitWatcherRegistry w'
      = foldl (λ r kv, WatcherRegistry.unsubscribe (unsubscribe kv.2) r)
              (gitWatcherRegistry w) (owned_by closedId (activeSubscriptions w))
    ∧ gitCache w' = gitCache w ∧ electron w' = electron w.
Proof.
  intros Hnd. eexists. split; [apply cleanupWindowSubscriptions_run|].
  split.
  { intros m. unfold WindowManager.on_closed. by rewrite cleanupWindowSubscriptions_run. }
  cbn [activeSubscriptions effects gitWatcherRegistry gitCache electron].
  rewrite cleanup_table by done.
  split; [done|]. split; [|done].
  intros path subscription. by rewrite jsmap_get_filter.
Qed.

Lemma cleanup_unsubscribes_the_closed_window_witness :
  ∃ w',
    cleanupWindowSubscriptions 1 two_owners = (Returned (), w')
    ∧ (∀ m, (WindowManager.on_closed 1 m two_owners).2 = w')
    ∧ activeSubscriptions w'
      = filter (λ kv, windowId kv.2 ≠ 1) (activeSubscriptions two_owners)
    ∧ (∀ path subscription,
         JsMap.get path (activeSubscriptions w') = Some subscription
         ↔ JsMap.get path (activeSubscriptions two_owners) = Some subscription
           ∧ windowId subscription ≠ 1)
    ∧ effects w'
      = effects two_owners
        ++ (owned_by 1 (activeSubscriptions two_owners) ≫= cleanup_effects 1)
    ∧ gitWatcherRegistry w'
      = foldl (λ r kv, WatcherRegistry.unsubscribe (unsubscribe kv.2) r)
              (gitWatcherRegistry two_owners) (owned_by 1 (activeSubscriptions two_owners))
    ∧ gitCache w' = gitCache two_owners ∧ electron w' = electron two_owners.
Proof.
  apply (cleanup_unsubscribes_the_closed_window two_owners 1).
  apply (bool_decide_unpack _). vm_compute. exact I.
Defined.

Example cleanup_two_owners :
  activeSubscriptions (cleanupWindowSubscriptions 1 two_owners).2
  = [("/b", MkSubscription 2 (MkCapability "/b" 1))]
  ∧ effects (cleanupWindowSubscriptions 1 two_owners).2
    = [CallUnsubscribe (MkCapability "/a" 0);
       ConsoleLog "[GitWatcher] Cleaned up subscription for closed window 1: /a";
       CallUnsubscribe (MkCapability "/c" 2);
       ConsoleLog "[GitWatcher] Cleaned up subscription for closed window 1: /c"]
  ∧ WatcherRegistry.entries (gitWatcherRegistry (cleanupWindowSubscriptions 1 two_owners).2)
    = {[ "/b" := [1] ]}.
Proof. split; [|split]; reflexivity. Qed.

(** Only the second half of a subscribe handler adds to the table: every
    other action leaves it as it is or removes entries. *)
Lemma step_table_sublist a s :
  is_subscribe_resume a = false →
  activeSubscriptions (world (step a s)) `sublist_of` activeSubscriptions (world s).
Proof.
  intros Ha. destruct a; cbn [step is_subscribe_resume] in *; try done.
  - pose proof (subscribe_request_table sender worktreePath (world s)) as Htab.
    destruct (subscribe_request _ _ _) as [[[p|]|e] w']; cbn [fst snd world] in *;
      by rewrite Htab.
  - cbn [run world]. rewrite handleUnsubscribe_table.
    destruct (truthy worktreePath); [|done].
    rewrite jsmap_delete_filter. apply sublist_filter.
  - cbn [run world]. by rewrite registry_emit_table.
  - by destruct (WindowManager.register _ _).
  - unfold WindowManager.on_closed. rewrite cleanupWindowSubscriptions_run.
    cbn [world activeSubscriptions]. rewrite foldl_delete_filter. apply sublist_filter.
  - cbn [world]. rewrite cleanupGitWatchers_request_run. apply sublist_nil_l.
  - by destruct (disposing s).
Qed.

Lemma steps_table_sublist actions s :
  Forall (λ a, is_subscribe_resume a = false) actions →
  activeSubscriptions (world (steps actions s)) `sublist_of` activeSubscriptions (world s).
Proof.
  intros Hall. revert s. induction Hall as [|a actions Ha _ IH]; intros s; [done|].
  cbn [steps foldl]. etrans; [apply IH|]. by apply step_table_sublist.
Qed.

Lemma steps_app actions1 actions2 s :
  steps (actions1 ++ actions2) s = steps actions2 (steps actions1 s).
Proof. unfold steps. by rewrite foldl_app. Qed.

(** C5, as the code has it.  Up to its [await], [cleanupGitWatchers] invokes
    the unsubscribe capability of every recorded Subscription, in table
    order, then clears the table, then calls the registry's [disposeAll]: it
    is suspended with an empty table and no watch entry left.  When it
    resumes it logs and returns.  The table is still empty then, provided no
    subscribe handler has resumed in the meantime, whatever else has run. *)
Theorem shutdown_unsubscribes_then_disposes s during :
  Forall (λ a, is_subscribe_resume a = false) during →
  let w := world s in
  let suspended := step Shutdown s in
  let returned := step ShutdownResume (steps during suspended) in
  cleanupGitWatchers_request w = (Returned (), world suspended)
  ∧ effects (world suspended)
    = effects w
      ++ ((λ sub, CallUnsubscribe (unsubscribe sub)) <$> JsMap.values (activeSubscriptions w))
      ++ [ClearSubscriptions; RegistryDisposeAll]
  ∧ activeSubscriptions (world suspended) = []
  ∧ WatcherRegistry.entries (gitWatcherRegistry (world suspended)) = ∅
  ∧ disposing suspended = S (disposing s)
  ∧ world (step ShutdownResume suspended)
    = emit (ConsoleLog "[GitWatcher] All watchers cleaned up") (world suspended)
  ∧ activeSubscriptions (world (steps during suspended)) = []
  ∧ activeSubscriptions (world returned) = []
  ∧ ∀ path, JsMap.get path (activeSubscriptions (world returned)) = None.
Proof.
  intros Hduring w suspended returned. subst w suspended returned.
  cbn [step world disposing]. rewrite cleanupGitWatchers_request_run. cbn [snd].
  split; [done|]. split; [done|]. split; [done|]. split; [done|]. split; [done|].
  split; [done|].
  set (suspended := MkSystem _ _ _ _ _).
  assert (activeSubscriptions (world (steps during suspended)) = []) as Hwaiting.
  { apply sublist_nil_r. etrans; [by apply steps_table_sublist|]. done. }
  assert (activeSubscriptions (world (step ShutdownResume (steps during suspended))) = [])
    as Hempty.
  { apply sublist_nil_r. etrans; [by apply step_table_sublist|]. by rewrite Hwaiting. }
  split; [done|].
  fold (step ShutdownResume (steps during suspended)).
  by rewrite Hempty.
Qed.

Lemma shutdown_unsubscribes_then_disposes_witness :
  Forall (λ a, is_subscribe_resume a = false) interrupted_shutdown
  ∧ activeSubscriptions (world subscribed) ≠ []
  ∧ activeSubscriptions
      (world (step ShutdownResume (steps interrupted_shutdown (step Shutdown subscribed))))
    = [].
Proof.
  assert (Forall (λ a, is_subscribe_resume a = false) interrupted_shutdown) as Hduring
    by (by repeat constructor).
  split; [done|]. split; [done|].
  apply (shutdown_unsubscribes_then_disposes subscribed interrupted_shutdown Hduring).
Defined.

Lemma reachable_resumed_during_shutdown : reachable resumed_during_shutdown.
Proof. by eexists (λ _, true), _. Qed.

(** C5 as the specification states it fails on this run: the routine has
    run to its end (its log is the last call made, no activation is left
    suspended) and the bridge holds a Subscription record, that of the
    subscribe handler which resumed while the routine waited; the watch it
    names has been disposed of. *)
Lemma shutdown_leaves_resumed_subscription :
  let s := resumed_during_shutdown in
  reachable s
  ∧ disposing s = 0
  ∧ last (effects (world s)) = Some (ConsoleLog "[GitWatcher] All watchers cleaned up")
  ∧ activeSubscriptions (world s)
    = [("/repo", MkSubscription 1 (MkCapability "/repo" 0))]
  ∧ WatcherRegistry.entries (gitWatcherRegistry (world s)) = ∅.
Proof.
  split; [apply reachable_resumed_during_shutdown|].
  split; [reflexivity|]. split; [reflexivity|]. split; reflexivity.
Qed.

(** C6: in every state the main process can reach, [handleUnsubscribe] for a
    recorded path invokes the Subscription's capability and removes the
    record; for an unrecorded path it changes nothing; it never throws, and
    a second unsubscribe for the same path changes nothing. *)
Theorem unsubscribe_removes_and_is_safe_twice s worktreePath :
  reachable s →
  let w := world s in
  let w1 := (handleUnsubscribe worktreePath w).2 in
  match JsMap.get worktreePath (activeSubscriptions w) with
  | Some subscription =>
      handleUnsubscribe worktreePath w
      = (Returned (),
         MkWorld (JsMap.delete worktreePath (activeSubscriptions w))
                 (WatcherRegistry.unsubscribe (unsubscribe subscription) (gitWatcherRegistry w))
                 (gitCache w) (electron w)
                 (effects w ++ [CallUnsubscribe (unsubscribe subscription);
                                ConsoleLog ("[GitWatcher] Window "
                                            +:+ pretty (windowId subscription)
                                            +:+ " unsubscribed from: " +:+ worktreePath)]))
  | None => handleUnsubscribe worktreePath w = (Returned (), w)
  end
  ∧ JsMap.get worktreePath (activeSubscriptions w1) = None
  ∧ handleUnsubscribe worktreePath w1 = (Returned (), w1).
Proof.
  intros Hreach w w1. subst w1.
  destruct (reachable_bridge_inv s Hreach) as [Hok _]. fold w in Hok.
  destruct (JsMap.get worktreePath (activeSubscriptions w)) as [sub|] eqn:Hg.
  - pose proof (table_ok_get _ _ _ Hok Hg) as Ht.
    rewrite (handleUnsubscribe_present _ _ sub Ht Hg). cbn [snd].
    split; [done|].
    assert (JsMap.get worktreePath (JsMap.delete worktreePath (activeSubscriptions w)) = None)
      as Hgone by apply jsmap_get_delete_eq.
    split; [done|]. by apply handleUnsubscribe_absent.
  - rewrite (handleUnsubscribe_absent _ _ Hg). cbn [snd].
    split; [done|]. split; [done|]. by apply handleUnsubscribe_absent.
Qed.

Lemma unsubscribe_removes_and_is_safe_twice_witness :
  let w1 := (handleUnsubscribe "/repo" (world subscribed)).2 in
  effects w1
  = effects (world subscribed)
    ++ [CallUnsubscribe (MkCapability "/repo" 0);
        ConsoleLog "[GitWatcher] Window 1 unsubscribed from: /repo"]
  ∧ JsMap.get "/repo" (activeSubscriptions w1) = None
  ∧ handleUnsubscribe "/repo" w1 = (Returned (), w1).
Proof.
  split; [reflexivity|].
  apply (unsubscribe_removes_and_is_safe_twice subscribed "/repo" reachable_subscribed).
Defined.

(** C7: when the sender's window cannot be resolved, or is destroyed, the
    subscribe handler returns with the world as it was: the registry's
    [subscribe] is not called and no Subscription is recorded. *)
Theorem subscribe_abandoned_without_window w sender worktreePath :
  match Electron.fromWebContents sender (electron w) with
  | None => True
  | Some subscribingWindow => BrowserWindow.isDestroyed subscribingWindow = true
  end →
  subscribe_request sender worktreePath w = (Returned None, w)
  ∧ handleSubscribe sender worktreePath w = (Returned (), w).
Proof.
  intros Hwin.
  assert (subscribe_request sender worktreePath w = (Returned None, w)) as Hreq.
  { destruct (Electron.fromWebContents sender (electron w)) as [win|] eqn:Hw.
    - by eapply subscribe_request_destroyed.
    - by apply subscribe_request_no_window. }
  split; [done|]. unfold handleSubscribe. run_M. by rewrite Hreq.
Qed.

(** No window has web contents 99; window 1 is destroyed. *)
Lemma subscribe_abandoned_without_window_witness :
  handleSubscribe 99 "/other" (world subscribed) = (Returned (), world subscribed)
  ∧ handleSubscribe 11 "/other" (world windowA_destroyed)
    = (Returned (), world windowA_destroyed).
Proof.
  split.
  - apply (subscribe_abandoned_without_window (world subscribed) 99 "/other"). exact I.
  - apply (subscribe_abandoned_without_window (world windowA_destroyed) 11 "/other").
    reflexivity.
Defined.

(** C9: a subscribe or unsubscribe request with a falsy worktree path (for a
    string: the empty one) returns at once, whatever the table, the registry
    and the windows are; the world, with its record of collaborator calls,
    is as before, and nothing is thrown. *)
Theorem falsy_path_is_rejected w sender worktreePath :
  truthy worktreePath = false →
  worktreePath = ""
  ∧ subscribe_request sender worktreePath w = (Returned None, w)
  ∧ handleSubscribe sender worktreePath w = (Returned (), w)
  ∧ handleUnsubscribe worktreePath w = (Returned (), w).
Proof.
  intros Hf. split; [by apply truthy_false|].
  pose proof (subscribe_request_falsy sender worktreePath w Hf) as Hreq.
  split; [done|]. split; [|by apply handleUnsubscribe_falsy].
  unfold handleSubscribe. run_M. by rewrite Hreq.
Qed.

Lemma falsy_path_is_rejected_witness :
  handleSubscribe 11 "" (world subscribed) = (Returned (), world subscribed)
  ∧ handleUnsubscribe "" (world subscribed) = (Returned (), world subscribed).
Proof.
  pose proof (falsy_path_is_rejected (world subscribed) 11 "" eq_refl) as H.
  split; apply H.
Defined.

(** ** The window manager *)

Lemma secondary_not_main k : secondary k ≠ "main".
Proof. unfold secondary. simpl. discriminate. Qed.

Lemma secondary_inj k1 k2 : secondary k1 = secondary k2 → k1 = k2.
Proof.
  unfold secondary. intros Heq. apply (inj pretty).
  by apply (inj (String.app "window-")) in Heq.
Qed.

Lemma jsmap_elem_keys {K V} (k : K) (v : V) (m : list (K * V)) : (k, v) ∈ m → k ∈ JsMap.keys m.
Proof. intros Hin. apply list_elem_of_fmap. by exists (k, v). Qed.


Lemma jsmap_elem_of_keys_set {K V} `{EqDecision K} (k k' : K) (v : V) (m : list (K * V)) :
  k' ∈ JsMap.keys (JsMap.set k v m) ↔ k' = k ∨ k' ∈ JsMap.keys m.
Proof.
  rewrite jsmap_keys_set. destruct (JsMap.has k m) eqn:Hhas.
  - split; [auto|]. intros [->|]; [|done].
    apply jsmap_has_get in Hhas. destruct (decide (k ∈ JsMap.keys m)) as [|Hn]; [done|].
    apply jsmap_get_None in Hn. rewrite Hn in Hhas. by destruct Hhas.
  - rewrite elem_of_app, list_elem_of_singleton. tauto.
Qed.


Lemma increment_exact n :
  WindowManager.exact (WindowManager.increment n) →
  WindowManager.exact n ∧ WindowManager.increment n = S n.
Proof.
  unfold WindowManager.increment. case_bool_decide as Hn; [done|]. intros Hex. by destruct Hn.
Qed.

Lemma increment_ge n : n ≤ WindowManager.increment n.
Proof. unfold WindowManager.increment. case_bool_decide; lia. Qed.

Lemma wm_inv_init : wm_inv WindowManager.init [].
Proof.
  split; cbn; try done; try apply NoDup_nil_2;
    try (intros; by apply NoDup_nil_2); try (by left); try (by apply Forall_nil).
  - intros e He. by apply elem_of_nil in He.
  - intros _ e sid He. by apply elem_of_nil in He.
Qed.

Lemma seq_snoc start len : seq start (S len) = seq start len ++ [start + len].
Proof. by rewrite seq_S. Qed.

Lemma wm_inv_register window m history :
  wm_inv m history →
  wm_inv (WindowManager.register window m).2
         (history ++ [(WindowManager.register window m).1]).
Proof.
  intros []. unfold WindowManager.register.
  destruct (WindowManager.mainWindowId m) as [x|] eqn:Hmain; cbn [fst snd].
  - assert (history ≠ []) as Hne by (intros ->; by specialize (inv_history_nil0 eq_refl)).
    pose proof (increment_ge (WindowManager.nextSecondaryId m)) as Hge.
    split; cbn [WindowManager.windows WindowManager.mainWindowId WindowManager.windowIdMap
                WindowManager.nextSecondaryId].
    + done.
    + intros Hnil. by apply app_eq_nil in Hnil as [_ ?].
    + by apply jsmap_NoDup_keys_set.
    + by apply jsmap_NoDup_keys_set.
    + intros e. rewrite !jsmap_elem_of_keys_set. intros [->|He]; auto.
    + intros e Hin. apply jsmap_elem_set in Hin as [Heq|Hin]; [|by apply inv_main_id0].
      by injection Heq.
    + lia.
    + right. destruct history; [done|]. destruct inv_first0 as [|Hh]; done.
    + apply Forall_app. split; [done|]. apply Forall_singleton. right. by eexists.
    + intros [Hex Hinc]%increment_exact.
      apply jsmap_NoDup_values_set; [by apply inv_idmap_values0|].
      intros Hin. apply list_elem_of_fmap in Hin as ([e sid] & Heq & Hin). simpl in Heq. subst sid.
      destruct (inv_ids0 Hex _ _ Hin) as [Hm|(k & Hk & Hsid)].
      * by apply secondary_not_main in Hm.
      * apply secondary_inj in Hsid. lia.
    + intros [Hex Hinc]%increment_exact e sid Hin. rewrite Hinc.
      apply jsmap_elem_set in Hin as [[= -> ->]|Hin].
      * right. exists (WindowManager.nextSecondaryId m). split; [lia|done].
      * destruct (inv_ids0 Hex _ _ Hin) as [?|(k & Hk & Hsid)]; [by left|].
        right. exists k. split; [lia|done].
    + intros [Hex Hinc]%increment_exact. rewrite Hinc.
      rewrite filter_app, (inv_secondaries0 Hex), filter_cons_True by apply secondary_not_main.
      rewrite filter_nil.
      replace (S (WindowManager.nextSecondaryId m) - 2)
        with (S (WindowManager.nextSecondaryId m - 2)) by lia.
      rewrite seq_snoc, fmap_app. f_equal.
      replace (2 + (WindowManager.nextSecondaryId m - 2))
        with (WindowManager.nextSecondaryId m) by lia.
      done.
  - specialize (inv_main_none0 eq_refl).
    assert (∀ e, (e, "main") ∉ WindowManager.windowIdMap m) as Hnomain.
    { intros e Hin. apply inv_main_id0 in Hin. congruence. }
    split; cbn [WindowManager.windows WindowManager.mainWindowId WindowManager.windowIdMap
                WindowManager.nextSecondaryId].
    + done.
    + intros Hnil. by apply app_eq_nil in Hnil as [_ ?].
    + by apply jsmap_NoDup_keys_set.
    + by apply jsmap_NoDup_keys_set.
    + intros e. rewrite !jsmap_elem_of_keys_set. intros [->|He]; auto.
    + intros e Hin. apply jsmap_elem_set in Hin as [Heq|Hin]; [by injection Heq as ->|].
      by apply Hnomain in Hin.
    + done.
    + right. destruct history; [done|]. destruct inv_first0 as [|Hh]; done.
    + apply Forall_app. split; [done|]. apply Forall_singleton. by left.
    + intros Hex. apply jsmap_NoDup_values_set; [by apply inv_idmap_values0|].
      intros Hin. apply list_elem_of_fmap in Hin as ([e sid] & Heq & Hin). simpl in Heq. subst sid.
      by apply Hnomain in Hin.
    + intros Hex e sid Hin. apply jsmap_elem_set in Hin as [[= -> ->]|Hin]; [by left|].
      by apply (inv_ids0 Hex e).
    + intros Hex.
      rewrite filter_app, (inv_secondaries0 Hex), filter_cons_False by (intros Hx; by apply Hx).
      by rewrite filter_nil, app_nil_r.
Qed.

Lemma wm_inv_on_closed electronId m w history :
  wm_inv m history → wm_inv (WindowManager.on_closed electronId m w).1 history.
Proof.
  intros []. unfold WindowManager.on_closed. rewrite cleanupWindowSubscriptions_run.
  split; cbn [fst WindowManager.windows WindowManager.mainWindowId WindowManager.windowIdMap
              WindowManager.nextSecondaryId]; try done.
  - case_bool_decide as Hm.
    + intros Hhead. destruct (JsMap.delete electronId (WindowManager.windows m)); done.
    + intros Hnone. by rewrite inv_main_none0.
  - intros Hnil. rewrite (inv_history_nil0 Hnil). by rewrite bool_decide_eq_false_2.
  - by apply jsmap_NoDup_keys_delete.
  - by apply jsmap_NoDup_keys_delete.
  - intros e. rewrite !jsmap_keys_delete, !list_elem_of_filter. intros [? ?]; auto.
  - intros e Hin. apply jsmap_elem_delete in Hin as [Hin Hne]. simpl in Hne.
    apply inv_main_id0 in Hin. rewrite Hin. rewrite bool_decide_eq_false_2; [done|congruence].
  - intros Hex. by apply jsmap_NoDup_values_delete, inv_idmap_values0.
  - intros Hex e sid Hin. apply jsmap_elem_delete in Hin as [Hin _].
    by apply (inv_ids0 Hex e).
Qed.

Lemma wm_inv_unregister window m history :
  wm_inv m history → wm_inv (WindowManager.unregister window m) history.
Proof.
  intros []. unfold WindowManager.unregister.
  split; cbn [WindowManager.windows WindowManager.mainWindowId WindowManager.windowIdMap
              WindowManager.nextSecondaryId]; try done.
  - intros Hnone. by rewrite inv_main_none0.
  - by apply jsmap_NoDup_keys_delete.
  - intros e. rewrite jsmap_keys_delete, list_elem_of_filter. intros [? ?]; auto.
Qed.

Lemma run_windowManager {A} (c : M A) s :
  windowManager (run c s) = windowManager s ∧ assigned (run c s) = assigned s.
Proof. done. Qed.

Lemma wm_inv_step a s :
  wm_inv (windowManager s) (assigned s) →
  wm_inv (windowManager (step a s)) (assigned (step a s)).
Proof.
  intros Hinv. destruct a; cbn [step]; try done.
  - by destruct (subscribe_request _ _ _) as [[[p|]|e] w'].
  - by destruct (awaiting s !! n).
  - pose proof (wm_inv_register window _ _ Hinv) as Hreg.
    by destruct (WindowManager.register _ _).
  - by apply wm_inv_unregister.
  - by destruct Hinv.
  - pose proof (wm_inv_on_closed electronId _ (world s) _ Hinv) as Hc.
    by destruct (WindowManager.on_closed _ _ _).
  - by destruct (disposing s).
Qed.

Lemma reachable_wm_inv s : reachable s → wm_inv (windowManager s) (assigned s).
Proof.
  revert s. apply (reachable_ind' (λ s, wm_inv (windowManager s) (assigned s))).
  - intros. apply wm_inv_init.
  - intros a s' _. apply wm_inv_step.
Qed.

Global Instance secondary_Inj : Inj (=) (=) secondary.
Proof. intros k1 k2. apply secondary_inj. Qed.

Lemma register_result window m :
  WindowManager.register window m
  = match WindowManager.mainWindowId m with
    | None =>
        ("main",
         WindowManager.Build
           (JsMap.set (BrowserWindow.id window) window (WindowManager.windows m))
           (if bool_decide (JsMap.size (JsMap.set (BrowserWindow.id window) window
                                           (WindowManager.windows m)) = 1)
            then Some (BrowserWindow.id window) else WindowManager.focusedWindowId m)
           (Some (BrowserWindow.id window))
           (JsMap.set (BrowserWindow.id window) "main" (WindowManager.windowIdMap m))
           (WindowManager.nextSecondaryId m))
    | Some _ =>
        (secondary (WindowManager.nextSecondaryId m),
         WindowManager.Build
           (JsMap.set (BrowserWindow.id window) window (WindowManager.windows m))
           (if bool_decide (JsMap.size (JsMap.set (BrowserWindow.id window) window
                                           (WindowManager.windows m)) = 1)
            then Some (BrowserWindow.id window) else WindowManager.focusedWindowId m)
           (WindowManager.mainWindowId m)
           (JsMap.set (BrowserWindow.id window) (secondary (WindowManager.nextSecondaryId m))
                      (WindowManager.windowIdMap m))
           (WindowManager.increment (WindowManager.nextSecondaryId m)))
    end.
Proof. unfold WindowManager.register. by destruct (WindowManager.mainWindowId m). Qed.


Lemma reachable_three_windows : reachable three_windows.
Proof. by eexists (λ _, true), _. Qed.




(** What the bound on the counter is for: 2^53 - 2 registrations after the
    main window's, the counter is 2^53 and stays there, so the next two
    windows registered both get ["window-9007199254740992"]. *)
Lemma many_registrations_counter n :
  (Z.of_nat n + 2 ≤ 2 ^ 53)%Z →
  WindowManager.nextSecondaryId (windowManager (many_registrations n)) = n + 2
  ∧ WindowManager.mainWindowId (windowManager (many_registrations n)) = Some 1.
Proof.
  unfold many_registrations.
  assert (WindowManager.nextSecondaryId
            (windowManager (step (RegisterWindow windowA) (initial (λ _, true)))) = 2
          ∧ WindowManager.mainWindowId
              (windowManager (step (RegisterWindow windowA) (initial (λ _, true)))) = Some 1)
    as Hbase by done.
  revert Hbase. generalize (step (RegisterWindow windowA) (initial (λ _, true))).
  intros s0 [Hnext0 Hmain0]. induction n as [|n IH]; intros Hn; [done|].
  rewrite replicate_S_end, steps_snoc. destruct IH as [IHnext IHmain]; [lia|].
  cbn [step]. rewrite register_result, IHmain, IHnext.
  cbn [windowManager WindowManager.nextSecondaryId WindowManager.mainWindowId].
  split; [|done]. unfold WindowManager.increment.
  rewrite bool_decide_eq_true_2; [done|]. unfold WindowManager.exact. lia.
Qed.

Lemma reachable_many_registrations n : reachable (many_registrations n).
Proof.
  by exists (λ _, true), (RegisterWindow windowA :: replicate n (RegisterWindow windowA)).
Qed.

Example secondary_id_repeats_at_2_53 :
  let s := many_registrations (Z.to_nat (2 ^ 53 - 2)) in
  let first := WindowManager.register windowB (windowManager s) in
  let second := WindowManager.register windowC first.2 in
  reachable s
  ∧ first.1 = second.1
  ∧ WindowManager.get 2 second.2 = Some windowB
  ∧ WindowManager.get 3 second.2 = Some windowC
  ∧ WindowManager.getStableId windowB second.2 = WindowManager.getStableId windowC second.2.
Proof.
  assert (Z.of_nat (Z.to_nat (2 ^ 53 - 2)) = 2 ^ 53 - 2)%Z as Hn by (by apply Z2Nat.id).
  revert Hn. generalize (Z.to_nat (2 ^ 53 - 2)). intros n Hn s. subst s.
  destruct (many_registrations_counter n) as [Hnext Hmain]; [lia|].
  split; [apply reachable_many_registrations|].
  set (m := windowManager (many_registrations n)) in *.
  assert (WindowManager.increment (n + 2) = n + 2) as Hinc.
  { unfold WindowManager.increment. rewrite bool_decide_eq_false_2; [done|].
    unfold WindowManager.exact. lia. }
  cbv zeta. rewrite (register_result windowB m), Hmain, Hnext, Hinc. cbn [fst snd].
  rewrite register_result.
  cbn [fst snd WindowManager.mainWindowId WindowManager.nextSecondaryId
       WindowManager.windows WindowManager.windowIdMap].
  split; [done|].
  unfold WindowManager.get, WindowManager.getStableId.
  cbn [WindowManager.windows WindowManager.windowIdMap BrowserWindow.id windowB windowC].
  rewrite !(jsmap_get_set_ne 3 2) by done. by rewrite !jsmap_get_set_eq.
Qed.


(** ["main"] is handed out again once every window has closed. *)
Example main_after_all_closed :
  assigned reopened = ["main"; "main"]
  ∧ WindowManager.windowIdMap (windowManager reopened) = [(2, "main")].
Proof. split; reflexivity. Qed.

(** ** The theme path check *)

Lemma prefix_app_l (a b s : string) :
  String.prefix (a +:+ b) s = true → String.prefix a s = true.
Proof.
  revert s. induction a as [|c a IH]; intros s; [by destruct s|].
  destruct s as [|c' s]; simpl; [done|].
  destruct (Ascii.ascii_dec c c'); [apply IH|done].
Qed.

(** The clause with [path.sep] never decides: the check is the plain
    [startsWith] on the normalized strings. *)
Lemma isAllowedPath_startsWith homedir themePath :
  ThemeScanner.isAllowedPath homedir themePath
  = existsb (λ entry,
      ThemeScanner.startsWith (NodePath.normalize themePath)
        (NodePath.normalize (ThemeScanner.path entry)))
    (ThemeScanner.EXTENSION_PATHS homedir).
Proof.
  unfold ThemeScanner.isAllowedPath.
  induction (ThemeScanner.EXTENSION_PATHS homedir) as [|entry rest IH]; [done|].
  cbn [existsb]. rewrite IH. f_equal.
  unfold ThemeScanner.startsWith.
  destruct (String.prefix (_ +:+ NodePath.sep) _) eqn:Hsep; [|done].
  apply prefix_app_l in Hsep. by rewrite Hsep.
Qed.

(** *** [split], [normalizeString] and [join_with] *)

Lemma split_nonempty s : ∃ seg segs, NodePath.split s = seg :: segs.
Proof.
  induction s as [|c s (seg & segs & IH)]; simpl; [by eexists _, _|].
  destruct (Ascii.eqb c "/"); [by eexists _, _|].
  rewrite IH. by eexists _, _.
Qed.

Lemma split_app a b :
  NodePath.split (a +:+ String "/" b) = NodePath.split a ++ NodePath.split b.
Proof.
  induction a as [|c a IH]; [done|].
  change (String c a +:+ String "/" b) with (String c (a +:+ String "/" b)).
  cbn [NodePath.split]. rewrite IH.
  destruct (Ascii.eqb c "/"); [done|].
  by destruct (split_nonempty a) as (seg & segs & ->).
Qed.

Lemma split_no_slash d : no_slash d = true → NodePath.split d = [d].
Proof.
  induction d as [|c d IH]; [done|].
  cbn [no_slash NodePath.split]. intros [Hc Hd]%andb_true_iff.
  apply negb_true_iff in Hc. rewrite Hc, IH; done.
Qed.

Lemma split_Forall s : Forall (λ seg, no_slash seg = true) (NodePath.split s).
Proof.
  induction s as [|c s IH]; [by repeat constructor|].
  cbn [NodePath.split]. destruct (Ascii.eqb c "/") eqn:Hc; [by constructor|].
  destruct (split_nonempty s) as (seg & segs & Hs). rewrite Hs in *.
  apply Forall_cons in IH as [Hseg Hsegs]. constructor; [|done].
  cbn [no_slash]. by rewrite Hc, Hseg.
Qed.

Lemma push_plain allow kept seg : plain seg → NodePath.push_segment allow kept seg = seg :: kept.
Proof.
  intros (_ & H1 & H2 & H3). unfold NodePath.push_segment.
  by rewrite !bool_decide_eq_false_2.
Qed.

Lemma push_empty allow kept : NodePath.push_segment allow kept "" = kept.
Proof. done. Qed.

Lemma foldl_push_plain allow kept names :
  Forall plain names →
  foldl (NodePath.push_segment allow) kept names = rev names ++ kept.
Proof.
  intros Hp. revert kept. induction Hp as [|seg names Hseg _ IH]; intros kept; [done|].
  cbn [foldl rev]. rewrite push_plain, IH, <- app_assoc; done.
Qed.

Lemma push_kept_ok allow kept seg :
  no_slash seg = true → kept_ok allow kept → kept_ok allow (NodePath.push_segment allow kept seg).
Proof.
  intros Hseg (names & n & -> & Hnames & Hn). unfold NodePath.push_segment.
  destruct (decide (seg = "")) as [->|Hne]; [by exists names, n|].
  destruct (decide (seg = ".")) as [->|Hdot]; [by exists names, n|].
  rewrite !(bool_decide_eq_false_2 (seg = _)) by done. cbn [orb].
  destruct (decide (seg = "..")) as [->|Hdd].
  - rewrite bool_decide_eq_true_2 by done.
    destruct names as [|top names].
    + destruct n as [|n]; cbn [app replicate].
      * destruct allow.
        -- exists (@nil string), 1. auto.
        -- exists (@nil string), 0. auto.
      * rewrite bool_decide_eq_true_2 by done.
        destruct Hn as [ ? | -> ]; [done|]. exists (@nil string), (S (S n)). auto.
    + apply Forall_cons in Hnames as [(_ & _ & _ & Htop) Hnames].
      cbn [app]. rewrite bool_decide_eq_false_2 by done. by exists names, n.
  - rewrite bool_decide_eq_false_2 by done.
    exists (seg :: names), n. split; [done|]. split; [|done].
    constructor; [|done]. done.
Qed.

Lemma foldl_push_kept_ok allow kept segs :
  Forall (λ seg, no_slash seg = true) segs → kept_ok allow kept →
  kept_ok allow (foldl (NodePath.push_segment allow) kept segs).
Proof.
  intros Hsegs. revert kept. induction Hsegs as [|seg segs Hseg _ IH]; intros kept Hk; [done|].
  cbn [foldl]. by apply IH, push_kept_ok.
Qed.

Lemma foldl_push_dots kept n :
  foldl (NodePath.push_segment true) (replicate kept "..") (replicate n "..")
  = replicate (n + kept) "..".
Proof.
  revert kept. induction n as [|n IH]; intros kept; [done|].
  cbn [replicate foldl].
  replace (NodePath.push_segment true (replicate kept "..") "..") with (replicate (S kept) "..").
  - rewrite IH. f_equal. lia.
  - by destruct kept.
Qed.

Lemma rev_replicate {A} n (x : A) : rev (replicate n x) = replicate n x.
Proof.
  induction n as [|n IH]; [done|]. cbn [replicate rev]. rewrite IH.
  clear IH. induction n as [|n IH]; [done|]. cbn. by rewrite IH.
Qed.

(** [normalizeString] leaves its own results as they are. *)
Lemma normalizeString_kept allow kept :
  kept_ok allow kept → NodePath.normalizeString allow (rev kept) = rev kept.
Proof.
  intros (names & n & -> & Hnames & Hn). unfold NodePath.normalizeString.
  rewrite rev_app_distr, rev_replicate, foldl_app.
  assert (foldl (NodePath.push_segment allow) [] (replicate n "..") = replicate n "..") as ->.
  { destruct Hn as [->| ->]; [done|].
    change (@nil string) with (replicate 0 ".."). rewrite foldl_push_dots. f_equal. lia. }
  rewrite foldl_push_plain by (by apply Forall_rev).
  by rewrite rev_app_distr, rev_replicate, !rev_involutive.
Qed.

Lemma kept_ok_nil allow : kept_ok allow [].
Proof. exists [], 0. auto. Qed.

Lemma kept_ok_names allow kept names :
  Forall plain names → kept_ok allow kept → kept_ok allow (rev names ++ kept).
Proof.
  intros Hn (names0 & n & -> & Hnames0 & Hdots).
  exists (rev names ++ names0), n. rewrite <- app_assoc. split; [done|]. split; [|done].
  apply Forall_app. split; [by apply Forall_rev|done].
Qed.

Lemma kept_ok_segments allow kept :
  kept_ok allow kept → Forall (λ seg, no_slash seg = true ∧ seg ≠ "") kept.
Proof.
  intros (names & n & -> & Hnames & _). apply Forall_app. split.
  - eapply Forall_impl; [done|]. intros seg (? & ? & _). done.
  - apply Forall_forall. intros seg Hin. apply elem_of_replicate in Hin as [-> _]. done.
Qed.

Lemma foldl_push_kept allow kept :
  kept_ok allow kept → foldl (NodePath.push_segment allow) [] (rev kept) = kept.
Proof.
  intros Hk. apply normalizeString_kept in Hk. unfold NodePath.normalizeString in Hk.
  apply (f_equal (@rev string)) in Hk. by rewrite !rev_involutive in Hk.
Qed.

Lemma join_with_cons seg next rest :
  NodePath.join_with "/" (seg :: next :: rest)
  = seg +:+ String "/" (NodePath.join_with "/" (next :: rest)).
Proof. done. Qed.

Lemma split_join segs :
  segs ≠ [] → Forall (λ seg, no_slash seg = true) segs →
  NodePath.split (NodePath.join_with "/" segs) = segs.
Proof.
  induction segs as [|seg rest IH]; [done|]. intros _ [Hseg Hrest]%Forall_cons.
  destruct rest as [|next rest]; [by apply split_no_slash|].
  rewrite join_with_cons, split_app, (split_no_slash seg Hseg), IH; done.
Qed.

Lemma append_nil_inv (a b : string) : a +:+ b = "" → a = "" ∧ b = "".
Proof. by destruct a. Qed.

Lemma join_with_empty segs : NodePath.join_with "/" segs = "" → segs = [] ∨ segs = [""].
Proof.
  destruct segs as [|seg [|next rest]]; [by left|cbn; intros ->; by right|].
  rewrite join_with_cons. intros [_ ?]%append_nil_inv. done.
Qed.

Lemma join_with_app segs rest :
  rest ≠ [] →
  NodePath.join_with "/" (segs ++ rest)
  = foldr (λ seg acc, seg +:+ String "/" acc) (NodePath.join_with "/" rest) segs.
Proof.
  intros Hne. induction segs as [|seg segs IH]; [done|].
  cbn [app foldr]. rewrite <- IH.
  destruct (segs ++ rest) as [|next more] eqn:Happ; [|done].
  by apply app_eq_nil in Happ as [_ ?].
Qed.

Lemma prefix_slash_no_slash seg :
  no_slash seg = true → String.prefix "/" seg = false.
Proof.
  destruct seg as [|c seg]; [done|]. cbn [no_slash String.prefix].
  intros [Hc _]%andb_true_iff. apply negb_true_iff, Ascii.eqb_neq in Hc.
  destruct (Ascii.ascii_dec "/" c); congruence.
Qed.

Lemma prefix_nil_l (s : string) : String.prefix "" s = true.
Proof. by destruct s. Qed.

Lemma prefix_slash_append (a b : string) :
  a ≠ "" → String.prefix "/" (a +:+ b) = String.prefix "/" a.
Proof.
  destruct a as [|c a]; [done|]. intros _.
  change (String c a +:+ b) with (String c (a +:+ b)). cbn [String.prefix].
  destruct (Ascii.ascii_dec "/" c); [|done]. by rewrite !prefix_nil_l.
Qed.

Lemma prefix_slash_join segs :
  Forall (λ seg, no_slash seg = true ∧ seg ≠ "") segs →
  String.prefix "/" (NodePath.join_with "/" segs) = false.
Proof.
  intros Hsegs. destruct Hsegs as [|seg rest [Hseg Hne] _]; [done|].
  destruct rest as [|next rest]; [by apply prefix_slash_no_slash|].
  rewrite join_with_cons, prefix_slash_append; [by apply prefix_slash_no_slash|done].
Qed.

Lemma prefix_app_same (a x y : string) :
  String.prefix (a +:+ x) (a +:+ y) = String.prefix x y.
Proof.
  induction a as [|c a IH]; [done|].
  change (String.prefix (String c (a +:+ x)) (String c (a +:+ y)) = String.prefix x y).
  cbn [String.prefix]. by destruct (Ascii.ascii_dec c c).
Qed.

Lemma ends_with_sep_names s X names :
  NodePath.split s = X ++ names → names ≠ [] → Forall plain names →
  NodePath.ends_with_sep s = false.
Proof.
  intros Hs Hne Hnames. unfold NodePath.ends_with_sep. rewrite Hs, last_app.
  destruct (last names) as [seg|] eqn:Hlast.
  - apply last_Some_elem_of in Hlast. rewrite Forall_forall in Hnames.
    destruct (Hnames seg Hlast) as (_ & Hseg & _). by destruct seg.
  - apply last_None in Hlast. done.
Qed.

(** [path.normalize] on a path whose segments end in directory names. *)
Lemma normalize_of_split s X names :
  s ≠ "" →
  NodePath.split s = X ++ names →
  Forall plain names → names ≠ [] →
  let isAbsolute := String.prefix "/" s in
  let kept := foldl (NodePath.push_segment (negb isAbsolute)) [] X in
  NodePath.normalize s = render isAbsolute (rev kept ++ names)
  ∧ NodePath.components s = rev kept ++ names.
Proof.
  intros Hs Hsplit Hnames Hne isAbsolute kept.
  assert (NodePath.normalizeString (negb isAbsolute) (NodePath.split s) = rev kept ++ names)
    as Hnorm.
  { unfold NodePath.normalizeString. rewrite Hsplit, foldl_app. fold kept.
    rewrite foldl_push_plain by done. by rewrite rev_app_distr, rev_involutive. }
  split; [|done].
  unfold NodePath.normalize. rewrite bool_decide_eq_false_2 by done.
  fold isAbsolute. rewrite Hnorm, (ends_with_sep_names s X names) by done.
  rewrite bool_decide_eq_false_2.
  { unfold render. clearbody kept. clearbody isAbsolute. by destruct isAbsolute. }
  intros [Hnil|Hone]%join_with_empty.
  - by apply app_eq_nil in Hnil as [_ ?].
  - destruct names as [|seg names]; [done|].
    apply Forall_cons in Hnames as [(_ & Hseg & _) _].
    destruct (rev kept) as [|top more]; cbn [app] in Hone.
    + congruence.
    + injection Hone as _ Hmore. by apply app_eq_nil in Hmore as [_ ?].
Qed.

(** A path rendered from kept segments is in normal form. *)
Lemma normalize_render isAbsolute kept :
  kept_ok (negb isAbsolute) kept →
  (∃ seg kept', kept = seg :: kept' ∧ plain seg) →
  NodePath.normalize (render isAbsolute (rev kept)) = render isAbsolute (rev kept)
  ∧ NodePath.components (render isAbsolute (rev kept)) = rev kept.
Proof.
  intros Hk (seg & kept' & -> & Hseg).
  assert (kept_ok (negb isAbsolute) kept') as Hk'.
  { destruct Hk as (names & n & Heq & Hnames & Hn). destruct names as [|top names].
    - destruct n; [done|]. injection Heq as -> _. by destruct Hseg as (_ & _ & _ & ?).
    - injection Heq as _ ->. apply Forall_cons in Hnames as [_ ?]. by exists names, n. }
  pose proof (kept_ok_segments _ _ Hk) as Hsegs. apply Forall_rev in Hsegs.
  cbn [rev] in *.
  assert (String.prefix "/" (render isAbsolute (rev kept' ++ [seg])) = isAbsolute) as Habs.
  { unfold render. destruct isAbsolute; [|by apply prefix_slash_join].
    change ("/" +:+ ?x) with (String "/" x). cbn [String.prefix].
    destruct (Ascii.ascii_dec "/" "/"); [apply prefix_nil_l|done]. }
  assert (NodePath.split (render isAbsolute (rev kept' ++ [seg]))
          = ((if isAbsolute then [""] else []) ++ rev kept') ++ [seg]) as Hsplit.
  { rewrite <- app_assoc.
    assert (NodePath.split (NodePath.join_with "/" (rev kept' ++ [seg])) = rev kept' ++ [seg])
      as Hj.
    { apply split_join; [by destruct (rev kept')|].
      eapply Forall_impl; [done|]. by intros ? [? _]. }
    unfold render. destruct isAbsolute; [|done].
    change ("/" +:+ ?x) with (String "/" x). cbn [NodePath.split]. by rewrite Hj. }
  assert (render isAbsolute (rev kept' ++ [seg]) ≠ "") as Hrender.
  { intros Hx. rewrite Hx in Hsplit. destruct Hseg as (_ & Hseg & _).
    destruct isAbsolute; [done|]. cbn [app NodePath.split] in Hsplit.
    destruct (rev kept') as [|top [|? ?]]; cbn [app] in Hsplit; congruence. }
  pose proof (normalize_of_split _ _ [seg] Hrender Hsplit) as Hn.
  specialize (Hn ltac:(by constructor) ltac:(done)).
  cbn zeta in Hn. rewrite Habs in Hn.
  assert (foldl (NodePath.push_segment (negb isAbsolute)) []
            ((if isAbsolute then [""] else []) ++ rev kept') = kept') as Hfold.
  { rewrite foldl_app.
    replace (foldl (NodePath.push_segment (negb isAbsolute)) [] (if isAbsolute then [""] else []))
      with (@nil string) by (by destruct isAbsolute).
    by apply foldl_push_kept. }
  by rewrite Hfold in Hn.
Qed.

Lemma filter_plain names :
  Forall plain names → List.filter (λ a, negb (bool_decide (a = ""))) names = names.
Proof.
  induction 1 as [|seg names (_ & Hseg & _) _ IH]; [done|].
  cbn [List.filter]. by rewrite bool_decide_eq_false_2, IH.
Qed.

(** [path.join(homedir, name, ...)]: the kept segments of [homedir] followed
    by the names; the result is in normal form. *)
Lemma join_home h names :
  Forall plain names → names ≠ [] →
  let isAbsolute := String.prefix "/" h in
  let kept := foldl (NodePath.push_segment (negb isAbsolute)) [] (NodePath.split h) in
  NodePath.join (h :: names) = render isAbsolute (rev kept ++ names)
  ∧ NodePath.normalize (NodePath.join (h :: names)) = NodePath.join (h :: names)
  ∧ NodePath.components (NodePath.normalize (NodePath.join (h :: names))) = rev kept ++ names.
Proof.
  intros Hnames Hne isAbsolute kept.
  assert (kept_ok (negb isAbsolute) kept) as Hk.
  { apply foldl_push_kept_ok; [apply split_Forall|apply kept_ok_nil]. }
  assert (NodePath.join (h :: names) = render isAbsolute (rev kept ++ names)) as Hjoin.
  { unfold NodePath.join. cbn [List.filter]. rewrite filter_plain by done.
    destruct h as [|c h].
    - cbn [bool_decide decide_rel negb]. rewrite bool_decide_eq_true_2 by done. cbn [negb].
      destruct names as [|name more]; [done|].
      remember (name :: more) as names eqn:Hn.
      assert (NodePath.split (NodePath.join_with "/" names) = [] ++ names) as Hsplit.
      { apply split_join; [done|]. eapply Forall_impl; [done|]. by intros ? [? _]. }
      assert (String.prefix "/" (NodePath.join_with "/" names) = false) as Habs.
      { apply prefix_slash_join. eapply Forall_impl; [done|]. by intros ? (? & ? & _). }
      assert (NodePath.join_with "/" names ≠ "") as Hs.
      { intros [Hx|Hx]%join_with_empty; [done|]. rewrite Hx in Hnames.
        apply Forall_cons in Hnames as [(_ & ? & _) _]. done. }
      destruct (normalize_of_split _ _ _ Hs Hsplit Hnames Hne) as [Hnorm _].
      rewrite Habs in Hnorm. exact Hnorm.
    - rewrite bool_decide_eq_false_2 by done. cbn [negb].
      destruct names as [|name more]; [done|]. rewrite join_with_cons.
      remember (name :: more) as names eqn:Hn.
      assert (NodePath.split (String c h +:+ String "/" (NodePath.join_with "/" names))
              = NodePath.split (String c h) ++ names) as Hsplit.
      { rewrite split_app, split_join; [done|done|].
        eapply Forall_impl; [done|]. by intros ? [? _]. }
      assert (String c h +:+ String "/" (NodePath.join_with "/" names) ≠ "") as Hs
        by (by intros [? _]%append_nil_inv).
      destruct (normalize_of_split _ _ _ Hs Hsplit Hnames Hne) as [Hnorm _].
      rewrite prefix_slash_append in Hnorm by done. exact Hnorm. }
  assert (rev kept ++ names = rev (rev names ++ kept)) as Hrev
    by (by rewrite rev_app_distr, rev_involutive).
  assert (∃ seg kept', rev names ++ kept = seg :: kept' ∧ plain seg) as Hhead.
  { destruct (rev names) as [|seg more] eqn:Hr.
    - apply (f_equal (@rev string)) in Hr. rewrite rev_involutive in Hr. done.
    - exists seg, (more ++ kept). split; [done|].
      apply Forall_rev in Hnames. rewrite Hr in Hnames. by apply Forall_cons in Hnames as [? _]. }
  destruct (normalize_render isAbsolute (rev names ++ kept)
              (kept_ok_names _ _ _ Hnames Hk) Hhead) as [Hn Hc].
  rewrite <- Hrev in Hn, Hc. rewrite Hjoin. by rewrite !Hn.
Qed.

Lemma prefix_foldr_same (segs : list string) (x y : string) :
  String.prefix (foldr (λ seg acc, seg +:+ String "/" acc) x segs)
                (foldr (λ seg acc, seg +:+ String "/" acc) y segs)
  = String.prefix x y.
Proof.
  induction segs as [|seg segs IH]; [done|].
  cbn [foldr]. rewrite prefix_app_same. cbn [String.prefix].
  by destruct (Ascii.ascii_dec "/" "/").
Qed.

Lemma render_prefix isAbsolute segs rest1 rest2 :
  rest1 ≠ [] → rest2 ≠ [] →
  String.prefix (render isAbsolute (segs ++ rest1)) (render isAbsolute (segs ++ rest2))
  = String.prefix (NodePath.join_with "/" rest1) (NodePath.join_with "/" rest2).
Proof.
  intros H1 H2. unfold render.
  by rewrite prefix_app_same, !join_with_app, prefix_foldr_same.
Qed.

(** Concrete directory names are proper names. *)
Ltac solve_plain :=
  repeat (apply Forall_cons; split; [first [assumption|unfold plain; by split_and!]|]);
  by apply Forall_nil.

(** C8: for every home directory, the check is the plain [startsWith] of the
    normalized request against the four normalized extensions directories,
    and it lets through a path that lies in none of them: the theme file of
    the sibling directory [.vscode/extensions-evil], whose name extends that
    of [.vscode/extensions]. *)
Theorem load_theme_check_accepts_sibling homedir :
  (∀ themePath,
     ThemeScanner.isAllowedPath homedir themePath = true
     ↔ ∃ entry, entry ∈ ThemeScanner.EXTENSION_PATHS homedir
         ∧ String.prefix (NodePath.normalize (ThemeScanner.path entry))
                         (NodePath.normalize themePath) = true)
  ∧ ThemeScanner.isAllowedPath homedir (sibling_theme homedir) = true
  ∧ ThemeScanner.load_theme_request homedir (sibling_theme homedir)
    = Returned (sibling_theme homedir)
  ∧ ∀ entry, entry ∈ ThemeScanner.EXTENSION_PATHS homedir →
      ¬ ThemeScanner.resides_under (ThemeScanner.path entry) (sibling_theme homedir).
Proof.
  assert (Forall plain [".vscode"; "extensions-evil"; "theme.json"]) as Hevil
    by solve_plain.
  destruct (join_home homedir _ Hevil ltac:(done)) as (Hs & Hsn & Hsc).
  fold (sibling_theme homedir) in Hs, Hsn, Hsc.
  assert (∀ d, plain d →
            NodePath.normalize (NodePath.join [homedir; d; "extensions"])
            = render (String.prefix "/" homedir)
                (rev (foldl (NodePath.push_segment (negb (String.prefix "/" homedir))) []
                        (NodePath.split homedir)) ++ [d; "extensions"])
            ∧ NodePath.components (NodePath.normalize (NodePath.join [homedir; d; "extensions"]))
              = rev (foldl (NodePath.push_segment (negb (String.prefix "/" homedir))) []
                       (NodePath.split homedir)) ++ [d; "extensions"]) as Hdir.
  { intros d Hd.
    destruct (join_home homedir [d; "extensions"]) as (Hj & Hn & Hc);
      [solve_plain|done|].
    split; [|done]. by rewrite Hn, Hj. }
  assert (ThemeScanner.isAllowedPath homedir (sibling_theme homedir) = true) as Hallowed.
  { rewrite isAllowedPath_startsWith. cbn [ThemeScanner.EXTENSION_PATHS existsb ThemeScanner.path].
    apply orb_true_iff. left. unfold ThemeScanner.startsWith.
    destruct (Hdir ".vscode" ltac:(done)) as [-> _]. rewrite Hsn, Hs.
    by rewrite render_prefix. }
  split; [|split; [done|split]].
  - intros themePath. rewrite isAllowedPath_startsWith, existsb_exists.
    unfold ThemeScanner.startsWith. setoid_rewrite list_elem_of_In. done.
  - unfold ThemeScanner.load_theme_request. by rewrite Hallowed, Hsn.
  - intros entry Hin. unfold ThemeScanner.resides_under. rewrite Hsc.
    assert (∃ d, plain d ∧ ThemeScanner.path entry = NodePath.join [homedir; d; "extensions"])
      as (d & Hd & ->).
    { unfold ThemeScanner.EXTENSION_PATHS in Hin.
      repeat (apply elem_of_cons in Hin as [->|Hin];
              [eexists; split; [|reflexivity]; unfold plain; by split_and!|]).
      by apply elem_of_nil in Hin. }
    destruct (Hdir d Hd) as [_ ->].
    intros Hpre%prefix_app_inv. destruct Hpre as [k Hk]. by injection Hk.
Qed.

(** The same on a concrete home directory: a traversal with [..] is refused,
    the sibling directory is let through. *)
Example load_theme_check_home_user :
  ThemeScanner.isAllowedPath "/home/user" "/home/user/.vscode/extensions/../../.ssh/id_rsa" = false
  ∧ ThemeScanner.isAllowedPath "/home/user" "/home/user/.cursor/extensions/x/themes/dark.json" = true
  ∧ sibling_theme "/home/user" = "/home/user/.vscode/extensions-evil/theme.json"
  ∧ ThemeScanner.isAllowedPath "/home/user" "/home/user/.vscode/extensions-evil/theme.json" = true.
Proof. repeat split; reflexivity. Qed.

(** * Further properties of the code *)

(** ** The bridge's handlers, composed *)






(** X2: when the registry cannot open the watch, the subscribe handler throws
    after its one registry call and records nothing. *)
Theorem subscribe_watch_failure sender worktreePath w win r :
  truthy worktreePath = true →
  JsMap.get worktreePath (activeSubscriptions w) = None →
  Electron.fromWebContents sender (electron w) = Some win →
  BrowserWindow.isDestroyed win = false →
  WatcherRegistry.subscribe worktreePath (gitWatcherRegistry w) = (None, r) →
  ∃ error,
    handleSubscribe sender worktreePath w
    = (Threw error,
       MkWorld (activeSubscriptions w) r (gitCache w) (electron w)
               (effects w ++ [RegistrySubscribe worktreePath None])).
Proof.
  intros Ht Hg Hwin Hd Hreg. unfold handleSubscribe. run_M.
  rewrite (subscribe_request_proceeds _ _ _ win Ht) by (by rewrite ?jsmap_has_false).
  rewrite Hreg. by eexists.
Qed.

Lemma subscribe_watch_failure_witness :
  ∃ error,
    handleSubscribe 11 "/missing" (world unwatchable)
    = (Threw error,
       MkWorld [] (gitWatcherRegistry (world unwatchable)) (gitCache (world unwatchable))
               (electron (world unwatchable)) [RegistrySubscribe "/missing" None]).
Proof.
  by apply (subscribe_watch_failure 11 "/missing" (world unwatchable) windowA).
Defined.



(** X4: the watch-event callback never throws, also when the push does, and
    never touches the subscription table, the registry or the windows; it
    only adds to the record of calls, and the cache slots of other worktrees
    keep their values. *)
Theorem watchCallback_frame worktreePath ev w :
  let w' := (watchCallback worktreePath ev w).2 in
  (watchCallback worktreePath ev w).1 = Returned ()
  ∧ activeSubscriptions w' = activeSubscriptions w
  ∧ gitWatcherRegistry w' = gitWatcherRegistry w
  ∧ electron w' = electron w
  ∧ effects w `prefix_of` effects w'
  ∧ ∀ other, other ≠ worktreePath →
      GitCache.status (gitCache w') !! other = GitCache.status (gitCache w) !! other
      ∧ GitCache.parsedDiff (gitCache w') !! other = GitCache.parsedDiff (gitCache w) !! other.
Proof.
  intros w'. subst w'.
  assert (watchCallback worktreePath ev w = (Returned (), w)
          ∨ ∃ win, watchCallback worktreePath ev w
              = (Returned (),
                 MkWorld (activeSubscriptions w) (gitWatcherRegistry w)
                   (GitCache.invalidateParsedDiff worktreePath
                      (GitCache.invalidateStatus worktreePath (gitCache w)))
                   (electron w)
                   (effects w ++
                    [InvalidateStatus worktreePath; InvalidateParsedDiff worktreePath;
                     if BrowserWindow.webContents_isDestroyed win
                     then SendThrew (BrowserWindow.id win)
                     else Sent (BrowserWindow.id win) "git:status-changed"
                            (GitWatchEvent.Build (GitWatchEvent.worktreePath ev)
                                                 (GitWatchEvent.changes ev))])))
    as [->|(win & ->)].
  { destruct (JsMap.get worktreePath (activeSubscriptions w)) as [sub|] eqn:Hg.
    - destruct (Electron.fromId (windowId sub) (electron w)) as [win|] eqn:Hw.
      + destruct (BrowserWindow.isDestroyed win) eqn:Hd.
        * left. apply (watchCallback_window_gone _ _ _ sub); [done|by rewrite Hw].
        * right. exists win. by eapply watchCallback_live.
      + left. apply (watchCallback_window_gone _ _ _ sub); [done|by rewrite Hw].
    - left. by apply watchCallback_no_subscription. }
  - by repeat split.
  - cbn. repeat split; try done; try (by apply prefix_app_r).
    all: by rewrite lookup_delete_ne.
Qed.

(** X5: [cleanupWindowSubscriptions] leaves no record of the given window,
    a second call changes nothing, and for a window without Subscriptions the
    first call changes nothing either. *)
Theorem cleanup_idempotent w closedId :
  let w1 := (cleanupWindowSubscriptions closedId w).2 in
  (∀ path subscription,
     (path, subscription) ∈ activeSubscriptions w1 → windowId subscription ≠ closedId)
  ∧ cleanupWindowSubscriptions closedId w1 = (Returned (), w1)
  ∧ (owned_by closedId (activeSubscriptions w) = [] →
     cleanupWindowSubscriptions closedId w = (Returned (), w)).
Proof.
  intros w1. subst w1.
  assert (∀ w0, owned_by closedId (activeSubscriptions w0) = [] →
            cleanupWindowSubscriptions closedId w0 = (Returned (), w0)) as Hnone.
  { intros w0 H0. rewrite cleanupWindowSubscriptions_run, H0. cbn.
    rewrite app_nil_r. by destruct w0. }
  assert (∀ path subscription,
            (path, subscription)
            ∈ activeSubscriptions (cleanupWindowSubscriptions closedId w).2 →
            windowId subscription ≠ closedId) as Hgone.
  { intros path sub. rewrite cleanupWindowSubscriptions_run. cbn [snd activeSubscriptions].
    rewrite foldl_delete_filter, list_elem_of_filter. cbn [fst].
    intros [Hkey Hin] Hown. apply Hkey. apply list_elem_of_fmap. exists (path, sub).
    split; [done|]. by apply list_elem_of_filter. }
  split; [done|]. split; [|apply Hnone].
  apply Hnone. unfold owned_by.
  destruct (filter _ _) as [|[path sub] rest] eqn:Hf; [done|].
  assert ((path, sub) ∈ (path, sub) :: rest) as Hin by left.
  rewrite <- Hf in Hin. apply list_elem_of_filter in Hin as [Hown Hin].
  by apply Hgone in Hin.
Qed.

Lemma cleanup_idempotent_witness :
  cleanupWindowSubscriptions 3 two_owners = (Returned (), two_owners)
  ∧ cleanupWindowSubscriptions 1 (cleanupWindowSubscriptions 1 two_owners).2
    = (Returned (), (cleanupWindowSubscriptions 1 two_owners).2).
Proof.
  split.
  - by apply (cleanup_idempotent two_owners 3).
  - apply (cleanup_idempotent two_owners 1).
Defined.

Lemma cleanup_nothing_owned w closedId :
  owned_by closedId (activeSubscriptions w) = [] →
  cleanupWindowSubscriptions closedId w = (Returned (), w).
Proof.
  intros Hnone. rewrite cleanupWindowSubscriptions_run, Hnone. cbn.
  rewrite app_nil_r. by destruct w.
Qed.

Lemma cleanup_leaves_others w closedId path subscription :
  (path, subscription) ∈ activeSubscriptions (cleanupWindowSubscriptions closedId w).2 →
  windowId subscription ≠ closedId.
Proof.
  rewrite cleanupWindowSubscriptions_run. cbn [snd activeSubscriptions].
  rewrite foldl_delete_filter. intros [Hnot Hin]%list_elem_of_filter Hown.
  apply Hnot. cbn [fst]. apply list_elem_of_fmap. exists (path, subscription).
  split; [done|]. apply list_elem_of_filter. by split.
Qed.

(** X6: from the moment [cleanupGitWatchers] has cleared the table and
    called [disposeAll], and until a suspended subscribe handler resumes, a
    late watch event, an unsubscribe request and a window-closed cleanup all
    find nothing to do, whatever else has run in between: each returns with
    the world unchanged. *)
Theorem after_shutdown_nothing_left s during worktreePath ev closedId :
  Forall (λ a, is_subscribe_resume a = false) during →
  let w' := world (steps during (step Shutdown s)) in
  watchCallback worktreePath ev w' = (Returned (), w')
  ∧ handleUnsubscribe worktreePath w' = (Returned (), w')
  ∧ cleanupWindowSubscriptions closedId w' = (Returned (), w').
Proof.
  intros Hduring w'.
  assert (activeSubscriptions w' = []) as Hempty.
  { apply sublist_nil_r. etrans; [by apply steps_table_sublist|].
    cbn [step world]. by rewrite cleanupGitWatchers_request_run. }
  split; [apply watchCallback_no_subscription; by rewrite Hempty|].
  split; [apply handleUnsubscribe_absent; by rewrite Hempty|].
  apply cleanup_nothing_owned. by rewrite Hempty.
Qed.

Lemma after_shutdown_nothing_left_witness :
  let w' := world (steps [ShutdownResume; CachePopulated populated] (step Shutdown subscribed)) in
  JsMap.get "/repo" (activeSubscriptions (world subscribed)) ≠ None
  ∧ watchCallback "/repo" (GitWatchEvent.Build "/repo" ["index"]) w' = (Returned (), w')
  ∧ handleUnsubscribe "/repo" w' = (Returned (), w')
  ∧ cleanupWindowSubscriptions 1 w' = (Returned (), w').
Proof.
  split; [done|].
  apply (after_shutdown_nothing_left subscribed [ShutdownResume; CachePopulated populated]).
  by repeat constructor.
Defined.

(** X7: in every state the main process can reach, whatever the interleaving
    of handlers, no Subscription is recorded under the empty path and no
    suspended subscribe handler is about to record one. *)
Theorem empty_path_never_recorded s :
  reachable s →
  JsMap.get "" (activeSubscriptions (world s)) = None
  ∧ ∀ p, p ∈ awaiting s → pending_worktreePath p ≠ "".
Proof.
  intros Hreach. destruct (reachable_bridge_inv s Hreach) as [[_ Htruthy] Hawait].
  split.
  - apply jsmap_get_None. intros Hin. by apply Htruthy in Hin.
  - intros p Hp. rewrite Forall_forall in Hawait. by apply truthy_true, Hawait.
Qed.

Lemma empty_path_never_recorded_witness :
  JsMap.get "" (activeSubscriptions (world closed_during_await)) = None
  ∧ ∀ p, p ∈ awaiting closed_during_await → pending_worktreePath p ≠ "".
Proof. apply (empty_path_never_recorded closed_during_await reachable_closed_during_await). Defined.

Lemma subscribe_resume_frame p w other :
  other ≠ pending_worktreePath p →
  JsMap.get other (activeSubscriptions (subscribe_resume p w).2)
  = JsMap.get other (activeSubscriptions w).
Proof.
  intros Hne. rewrite subscribe_resume_table.
  destruct (pending_result p); [|done]. by apply jsmap_get_set_ne.
Qed.

(** X8: a subscribe or an unsubscribe request for one worktree, however it
    ends, leaves the Subscription recorded for every other worktree as it
    was. *)
Theorem other_worktrees_untouched sender worktreePath other w :
  other ≠ worktreePath →
  JsMap.get other (activeSubscriptions (handleSubscribe sender worktreePath w).2)
  = JsMap.get other (activeSubscriptions w)
  ∧ JsMap.get other (activeSubscriptions (handleUnsubscribe worktreePath w).2)
    = JsMap.get other (activeSubscriptions w).
Proof.
  intros Hne. split.
  - unfold handleSubscribe. run_M.
    pose proof (subscribe_request_table sender worktreePath w) as Htab.
    pose proof (subscribe_request_pending sender worktreePath w) as Hp.
    destruct (subscribe_request sender worktreePath w) as [[[p|]|e] w1];
      cbn [fst snd] in *; rewrite <- Htab; [|done..].
    destruct (Hp p eq_refl) as [Hpath _].
    apply subscribe_resume_frame. by rewrite Hpath.
  - rewrite handleUnsubscribe_table. destruct (truthy worktreePath); [|done].
    by apply jsmap_get_delete_ne.
Qed.

Lemma other_worktrees_untouched_witness :
  JsMap.get "/repo" (activeSubscriptions (handleSubscribe 12 "/other" (world subscribed)).2)
  = JsMap.get "/repo" (activeSubscriptions (world subscribed))
  ∧ JsMap.get "/repo" (activeSubscriptions (handleUnsubscribe "/other" (world subscribed)).2)
    = JsMap.get "/repo" (activeSubscriptions (world subscribed)).
Proof. by apply (other_worktrees_untouched 12 "/other" "/repo" (world subscribed)). Defined.

(** ** The window manager, further *)

Lemma getStableId_unfold window m :
  WindowManager.getStableId window m
  = default "main" (JsMap.get (BrowserWindow.id window) (WindowManager.windowIdMap m)).
Proof. done. Qed.

(** X9: [getStableId] of a window just registered is the ID [register]
    returned, and no handler that runs for another window (registration,
    close, focus, unregister) or in the bridge changes the stable ID of a
    window. *)
Theorem stable_id_is_stable window :
  (∀ m, WindowManager.getStableId window (WindowManager.register window m).2
        = (WindowManager.register window m).1)
  ∧ ∀ a s,
      touches_window a (BrowserWindow.id window) = false →
      WindowManager.getStableId window (windowManager (step a s))
      = WindowManager.getStableId window (windowManager s).
Proof.
  split.
  - intros m. rewrite register_result, getStableId_unfold.
    destruct (WindowManager.mainWindowId m); cbn [fst snd WindowManager.windowIdMap];
      by rewrite jsmap_get_set_eq.
  - intros a s Ha. destruct a; cbn [step touches_window] in *; try done.
    + by destruct (subscribe_request _ _ _) as [[[p|]|e] w'].
    + by destruct (awaiting s !! n).
    + apply bool_decide_eq_false in Ha. rewrite register_result.
      destruct (WindowManager.mainWindowId _); cbn [windowManager];
        rewrite !getStableId_unfold; cbn [WindowManager.windowIdMap];
        by rewrite jsmap_get_set_ne.
    + apply bool_decide_eq_false in Ha. unfold WindowManager.on_closed.
      rewrite cleanupWindowSubscriptions_run, !getStableId_unfold.
      cbn [windowManager WindowManager.windowIdMap]. by rewrite jsmap_get_delete_ne.
    + by destruct (disposing s).
Qed.

Lemma stable_id_is_stable_witness :
  WindowManager.getStableId windowB (windowManager three_windows) = "window-2"
  ∧ WindowManager.getStableId windowB (windowManager (step (WindowClosed 3) three_windows))
    = WindowManager.getStableId windowB (windowManager three_windows).
Proof.
  split; [reflexivity|].
  by apply (proj2 (stable_id_is_stable windowB) (WindowClosed 3) three_windows).
Defined.

Lemma head_keys_delete {V} (e : nat) (m : list (nat * V)) :
  head (JsMap.keys (JsMap.delete e m)) ≠ Some e.
Proof.
  intros Hh. apply head_Some_elem_of in Hh.
  rewrite jsmap_keys_delete in Hh. apply list_elem_of_filter in Hh as [Hne _]. done.
Qed.

(** X10: when the ["closed"] listener of a window returns, the manager holds
    nothing of that window: it is not in the table of windows, has no stable
    ID on record, and is neither the focused nor the main window; the bridge
    has no Subscription of it then, and gets none, whatever else runs, until
    a subscribe handler that was suspended resumes. *)
Theorem closed_window_is_forgotten s closedId during :
  Forall (λ a, is_subscribe_resume a = false) during →
  let closed := step (WindowClosed closedId) s in
  WindowManager.get closedId (windowManager closed) = None
  ∧ JsMap.get closedId (WindowManager.windowIdMap (windowManager closed)) = None
  ∧ WindowManager.focusedWindowId (windowManager closed) ≠ Some closedId
  ∧ WindowManager.mainWindowId (windowManager closed) ≠ Some closedId
  ∧ ∀ path subscription,
      (path, subscription) ∈ activeSubscriptions (world (steps during closed)) →
      windowId subscription ≠ closedId.
Proof.
  intros Hduring closed.
  assert (∀ path subscription,
            (path, subscription) ∈ activeSubscriptions (world (steps during closed)) →
            windowId subscription ≠ closedId) as Hbridge.
  { intros path subscription Hin.
    apply (cleanup_leaves_others (world s) closedId path).
    eapply elem_of_sublist in Hin; [|by apply steps_table_sublist].
    subst closed. cbn [step] in Hin. unfold WindowManager.on_closed in Hin.
    by destruct (cleanupWindowSubscriptions closedId (world s)) as [[[]|e] w']. }
  refine (conj _ (conj _ (conj _ (conj _ Hbridge)))); clear Hbridge;
    subst closed; cbn [step]; unfold WindowManager.on_closed;
    rewrite cleanupWindowSubscriptions_run; cbn [windowManager];
    unfold WindowManager.get;
    cbn [WindowManager.windows WindowManager.windowIdMap WindowManager.focusedWindowId
         WindowManager.mainWindowId].
  - by rewrite jsmap_get_delete_eq.
  - by rewrite jsmap_get_delete_eq.
  - by case_bool_decide.
  - case_bool_decide; [apply head_keys_delete|done].
Qed.

Lemma closed_window_is_forgotten_witness :
  let during := [WatchEvent "/repo" ["index"]; SubscribeRequest 12 "/other"; Shutdown] in
  (∃ subscription, ("/repo", subscription) ∈ activeSubscriptions (world three_windows_subscribed)
                   ∧ windowId subscription = 3)
  ∧ WindowManager.get 3 (windowManager three_windows_subscribed) = Some windowC
  ∧ WindowManager.get 3 (windowManager (step (WindowClosed 3) three_windows_subscribed)) = None
  ∧ ∀ path subscription,
      (path, subscription)
      ∈ activeSubscriptions
          (world (steps during (step (WindowClosed 3) three_windows_subscribed))) →
      windowId subscription ≠ 3.
Proof.
  intros during.
  split; [eexists; split; [apply list_elem_of_here|reflexivity]|].
  split; [reflexivity|].
  assert (Forall (λ a, is_subscribe_resume a = false) during) as Hduring
    by (by repeat constructor).
  pose proof (closed_window_is_forgotten three_windows_subscribed 3 during Hduring)
    as (Hget & _ & _ & _ & Hbridge).
  split; [exact Hget|exact Hbridge].
Defined.

Lemma main_registered_register window m :
  main_registered m → main_registered (WindowManager.register window m).2.
Proof.
  unfold main_registered. rewrite register_result.
  destruct (WindowManager.mainWindowId m) as [x|] eqn:Hm;
    cbn [snd WindowManager.mainWindowId WindowManager.windows]; rewrite ?Hm;
    intros Hx; apply jsmap_elem_of_keys_set; auto.
Qed.

Lemma main_registered_on_closed electronId m w :
  main_registered m → main_registered (WindowManager.on_closed electronId m w).1.
Proof.
  unfold main_registered, WindowManager.on_closed. rewrite cleanupWindowSubscriptions_run.
  cbn [fst WindowManager.mainWindowId WindowManager.windows].
  case_bool_decide as Hmain.
  - intros _. destruct (JsMap.delete electronId (WindowManager.windows m)) as [|[e win] rest];
      [done|]. cbn. left.
  - destruct (WindowManager.mainWindowId m) as [x|]; [|by intros ->].
    intros Hx. rewrite jsmap_keys_delete. apply list_elem_of_filter. split; [congruence|done].
Qed.

(** X11: as long as [unregister] is not called, [mainWindowId] is null
    exactly when no window is registered, and otherwise names a registered
    window: when the main window closes, another registered window takes
    its place. *)
Theorem main_window_is_registered canOpen actions :
  forallb (λ a, negb (is_unregister a)) actions = true →
  let m := windowManager (steps actions (initial canOpen)) in
  match WindowManager.mainWindowId m with
  | None => WindowManager.count m = 0
  | Some e => is_Some (WindowManager.get e m)
  end.
Proof.
  intros Hno m.
  assert (main_registered m) as Hinv.
  { subst m. induction actions as [|a actions IH] using rev_ind; [done|].
    rewrite forallb_app in Hno. apply andb_true_iff in Hno as [Hno Ha].
    cbn in Ha. rewrite andb_true_r in Ha. specialize (IH Hno).
    rewrite steps_snoc. destruct a; cbn [step is_unregister negb] in *; try done.
    - by destruct (subscribe_request _ _ _) as [[[p|]|e] w'].
    - by destruct (awaiting _ !! n).
    - pose proof (main_registered_register window _ IH) as Hreg.
      by destruct (WindowManager.register _ _).
    - pose proof (main_registered_on_closed electronId _
                    (world (steps actions (initial canOpen))) IH) as Hc.
      by destruct (WindowManager.on_closed _ _ _).
    - by destruct (disposing _). }
  unfold main_registered in Hinv. unfold WindowManager.count, WindowManager.get.
  destruct (WindowManager.mainWindowId m) as [e|]; [|by rewrite Hinv].
  destruct (JsMap.get e (WindowManager.windows m)) eqn:Hg; [done|].
  by apply jsmap_get_None in Hg.
Qed.

Lemma main_window_is_registered_witness :
  WindowManager.mainWindowId (windowManager three_windows) = Some 2
  ∧ is_Some (WindowManager.get 2 (windowManager three_windows)).
Proof.
  split; [reflexivity|].
  apply (main_window_is_registered (λ _, true)
           [RegisterWindow windowA; RegisterWindow windowB; WindowClosed 1;
            RegisterWindow windowC] eq_refl).
Defined.

(** With [unregister] the main window can be one that is no longer
    registered: the next window is then a secondary one although no window
    is registered. *)
Example unregister_keeps_main :
  let s := steps [RegisterWindow windowA; UnregisterWindow windowA; RegisterWindow windowB]
             (initial (λ _, true)) in
  assigned s = ["main"; "window-2"]
  ∧ WindowManager.mainWindowId (windowManager s) = Some 1
  ∧ WindowManager.get 1 (windowManager s) = None.
Proof. by repeat split. Qed.

Lemma window_now_live e window current :
  window_now e window = Some current →
  BrowserWindow.isDestroyed current = false
  ∧ BrowserWindow.id current = BrowserWindow.id window
  ∧ Electron.fromId (BrowserWindow.id window) e = Some current.
Proof.
  unfold window_now. destruct (Electron.fromId _ e) as [c|] eqn:Hf; [|done].
  destruct (BrowserWindow.isDestroyed c) eqn:Hd; [done|]. intros [= <-].
  split; [done|]. split; [by eapply fromId_id|done].
Qed.

Lemma find_window_spec e webContentsId windows current :
  find_window e webContentsId windows = Some current →
  ∃ window, window ∈ windows ∧ window_now e window = Some current
            ∧ BrowserWindow.webContents_id current = webContentsId.
Proof.
  induction windows as [|window rest IH]; [done|]. cbn [find_window].
  destruct (window_now e window) as [c|] eqn:Hnow.
  - case_bool_decide as Hwc.
    + intros [= <-]. exists window. split; [left|done].
    + intros Hf. destruct (IH Hf) as (w0 & ? & ?). exists w0. split; [by right|done].
  - intros Hf. destruct (IH Hf) as (w0 & ? & ?). exists w0. split; [by right|done].
Qed.

(** X12: the manager's queries never hand out a destroyed window:
    [getFocused], every element of [getAll] and [findByWebContentsId] are
    windows that are not destroyed now; those of [getAll] and
    [findByWebContentsId] are registered, and [findByWebContentsId] has the
    web contents asked for. *)
Theorem queries_return_live_windows e m webContentsId current :
  (getFocused e m = Some current → BrowserWindow.isDestroyed current = false)
  ∧ (current ∈ getAll e m →
     BrowserWindow.isDestroyed current = false
     ∧ ∃ window, window ∈ JsMap.values (WindowManager.windows m)
                 ∧ BrowserWindow.id window = BrowserWindow.id current)
  ∧ (findByWebContentsId e webContentsId m = Some current →
     BrowserWindow.isDestroyed current = false
     ∧ BrowserWindow.webContents_id current = webContentsId
     ∧ ∃ window, window ∈ JsMap.values (WindowManager.windows m)
                 ∧ BrowserWindow.id window = BrowserWindow.id current).
Proof.
  split; [|split].
  - unfold getFocused.
    destruct (WindowManager.focusedWindowId m) as [i|].
    + destruct (JsMap.get i (WindowManager.windows m)) as [win|].
      * destruct (window_now e win) as [c|] eqn:Hnow.
        -- intros [= <-]. by apply window_now_live in Hnow as [? _].
        -- destruct (getFocusedWindow e) as [f|]; [|done].
           destruct (BrowserWindow.isDestroyed f) eqn:Hd; [done|]. by intros [= <-].
      * destruct (getFocusedWindow e) as [f|]; [|done].
        destruct (BrowserWindow.isDestroyed f) eqn:Hd; [done|]. by intros [= <-].
    + destruct (getFocusedWindow e) as [f|]; [|done].
      destruct (BrowserWindow.isDestroyed f) eqn:Hd; [done|]. by intros [= <-].
  - unfold getAll. intros Hin. apply list_elem_of_omap in Hin as (window & Hin & Hnow).
    apply window_now_live in Hnow as (Hlive & Hid & _). split; [done|]. by exists window.
  - unfold findByWebContentsId. intros Hf.
    apply find_window_spec in Hf as (window & Hin & Hnow & Hwc).
    apply window_now_live in Hnow as (Hlive & Hid & _).
    split; [done|]. split; [done|]. by exists window.
Qed.

Lemma queries_return_live_windows_witness :
  getAll (Electron.Build [BrowserWindow.Build 2 12 true true; windowC] None)
         (windowManager three_windows) = [windowC]
  ∧ BrowserWindow.isDestroyed windowC = false.
Proof.
  split; [reflexivity|].
  apply (proj1 (proj1 (proj2 (queries_return_live_windows
           (Electron.Build [BrowserWindow.Build 2 12 true true; windowC] None)
           (windowManager three_windows) 0 windowC)) ltac:(vm_compute; left))).
Defined.

(** ** The renderer: window identity *)

Ltac run_R :=
  unfold localStorage_setItem, sessionStorage_setItem;
  unfold mbind, R_bind, mret, R_ret, r_gets, r_modify, r_try;
  cbn [negb fst snd].

Lemma truthy_opt_Some o : truthy_opt o = true ↔ ∃ s, o = Some s ∧ s ≠ "".
Proof.
  destruct o as [s|]; cbn.
  - rewrite truthy_true. split; [by exists s|]. by intros (? & [= <-] & ?).
  - split; [done|]. by intros (? & ? & _).
Qed.

Lemma storage_get_set k v s s' :
  Storage.setItem k v s = Some s' → Storage.getItem k s' = Some v.
Proof.
  unfold Storage.setItem, Storage.getItem. destruct (Storage.hasRoom _ _ _ _); [|done].
  intros [= <-]. cbn. apply jsmap_get_set_eq.
Qed.

Lemma storage_get_set_ne k k' v s s' :
  k ≠ k' → Storage.setItem k v s = Some s' → Storage.getItem k' s' = Storage.getItem k' s.
Proof.
  unfold Storage.setItem, Storage.getItem. destruct (Storage.hasRoom _ _ _ _); [|done].
  intros Hne [= <-]. cbn. by apply jsmap_get_set_ne.
Qed.

Lemma getWindowId_cached r windowId :
  globalWindowId r = Some windowId → windowId ≠ "" →
  WindowContext.getWindowId r = (Returned windowId, r).
Proof.
  intros Hg Hne. unfold WindowContext.getWindowId. run_R. rewrite Hg. cbn.
  by rewrite (proj2 (truthy_true windowId) Hne).
Qed.

(** What a call that is not served from the cache leaves behind. *)
Lemma getWindowId_fresh r windowId r' :
  truthy_opt (globalWindowId r) = false →
  WindowContext.getWindowId r = (Returned windowId, r') →
  windowId ≠ ""
  ∧ globalWindowId r' = Some windowId
  ∧ Storage.getItem "windowId" (sessionStorage r') = Some windowId
  ∧ localStorage r' = localStorage r ∧ migratedKeys r' = migratedKeys r
  ∧ location r' = location r.
Proof.
  intros Hc. unfold WindowContext.getWindowId. run_R. rewrite Hc.
  set (id := match hash (location r) with
             | Some params =>
                 if truthy_opt (params_get "windowId" (search (location r)))
                 then params_get "windowId" (search (location r))
                 else params_get "windowId" params
             | None => params_get "windowId" (search (location r))
             end).
  destruct (truthy_opt id) eqn:Hid.
  - apply truthy_opt_Some in Hid as (x & Hx & Hne). rewrite Hx.
    unfold default. cbn [from_option Datatypes.id].
    destruct (Storage.setItem "windowId" x (sessionStorage r)) as [ss|] eqn:Hset; [|done].
    cbn. intros [= <- <-]. cbn. split; [done|]. split; [done|].
    split; [by eapply storage_get_set|done].
  - destruct (truthy_opt (Storage.getItem "windowId" (sessionStorage r))) eqn:Hst.
    + apply truthy_opt_Some in Hst as (x & Hx & Hne). rewrite Hx. cbn.
      intros [= <- <-]. cbn. by split_and!.
    + destruct (Storage.setItem "windowId" "main" (sessionStorage r)) as [ss|] eqn:Hset; [|done].
      cbn. intros [= <- <-]. cbn. split; [done|]. split; [done|].
      split; [by eapply storage_get_set|done].
Qed.

(** X13: a call of [getWindowId] that returns gives a non-empty ID and
    leaves it cached: every later call returns the same ID without touching
    anything, whatever the URL has become. *)
Theorem getWindowId_is_cached r windowId r' :
  WindowContext.getWindowId r = (Returned windowId, r') →
  windowId ≠ ""
  ∧ globalWindowId r' = Some windowId
  ∧ ∀ l, WindowContext.getWindowId (with_location l r')
         = (Returned windowId, with_location l r').
Proof.
  intros Hget.
  assert (windowId ≠ "" ∧ globalWindowId r' = Some windowId) as [Hne Hg].
  { destruct (truthy_opt (globalWindowId r)) eqn:Hc.
    - apply truthy_opt_Some in Hc as (x & Hx & Hne).
      rewrite (getWindowId_cached r x Hx Hne) in Hget. by injection Hget as <- <-.
    - by destruct (getWindowId_fresh r windowId r' Hc Hget) as (? & ? & _). }
  split; [done|]. split; [done|]. intros l. by apply getWindowId_cached.
Qed.

Lemma getWindowId_is_cached_witness :
  WindowContext.getWindowId (opened "window-2" old_data)
  = (Returned "window-2", identified "window-2" old_data)
  ∧ WindowContext.getWindowId (with_location (MkLocation [] None) (identified "window-2" old_data))
    = (Returned "window-2", with_location (MkLocation [] None) (identified "window-2" old_data)).
Proof.
  split; [reflexivity|].
  apply (getWindowId_is_cached (opened "window-2" old_data) "window-2"
           (identified "window-2" old_data) eq_refl).
Defined.

(** X14: the ID survives a page refresh: once a call has computed it, a
    renderer that starts again with the same [sessionStorage], an empty cache
    and a URL that carries no [windowId] (none, or an empty one, in the query
    and, when there is a hash, in the hash) gets the same ID. *)
Theorem windowId_survives_refresh r windowId r' reloaded :
  truthy_opt (globalWindowId r) = false →
  WindowContext.getWindowId r = (Returned windowId, r') →
  sessionStorage reloaded = sessionStorage r' →
  globalWindowId reloaded = None →
  truthy_opt (params_get "windowId" (search (location reloaded))) = false →
  (∀ params, hash (location reloaded) = Some params →
             truthy_opt (params_get "windowId" params) = false) →
  (WindowContext.getWindowId reloaded).1 = Returned windowId
  ∧ sessionStorage (WindowContext.getWindowId reloaded).2 = sessionStorage reloaded.
Proof.
  intros Hc Hget Hss Hg Hsearch Hhash.
  destruct (getWindowId_fresh r windowId r' Hc Hget) as (Hne & _ & Hstored & _).
  unfold WindowContext.getWindowId. run_R.
  rewrite Hg. cbn [truthy_opt]. rewrite Hsearch.
  assert (truthy_opt
            match hash (location reloaded) with
            | Some params => params_get "windowId" params
            | None => params_get "windowId" (search (location reloaded))
            end = false) as ->.
  { destruct (hash (location reloaded)) as [params|]; [by apply Hhash|done]. }
  rewrite Hss, Hstored. cbn.
  by rewrite (proj2 (truthy_true windowId) Hne).
Qed.

Lemma windowId_survives_refresh_witness :
  let reloaded :=
    MkRenderer (Storage.Build old_data roomy) (sessionStorage (identified "window-2" old_data))
               (MkLocation [("windowId", "")] (Some [("chatId", "c1")])) None ∅ [] in
  (WindowContext.getWindowId reloaded).1 = Returned "window-2"
  ∧ sessionStorage (WindowContext.getWindowId reloaded).2 = sessionStorage reloaded.
Proof.
  apply (windowId_survives_refresh (opened "window-2" old_data) "window-2"
           (identified "window-2" old_data)); try done.
  by intros params [= <-].
Defined.

(** X15: [getInitialWindowParams] never returns an empty string as a
    parameter, and the parameters are handed out once: after a call that
    returned one, every later call returns none, whatever the URL says. *)
Theorem initial_params_are_consumed r params r' :
  WindowContext.getInitialWindowParams r = (Returned params, r') →
  WindowContext.chatId params ≠ Some ""
  ∧ WindowContext.subChatId params ≠ Some ""
  ∧ (WindowContext.chatId params ≠ None ∨ WindowContext.subChatId params ≠ None →
     ∀ l, WindowContext.getInitialWindowParams (with_location l r')
          = (Returned (WindowContext.MkWindowParams None None), with_location l r')).
Proof.
  assert (∀ o, or_undefined o ≠ Some "") as Hor.
  { intros [x|]; [|done]. unfold or_undefined. cbn.
    destruct (truthy x) eqn:Ht; [|done]. apply truthy_true in Ht. congruence. }
  assert (∀ o, or_undefined o ≠ None → truthy_opt o = true) as Hsome.
  { intros o. unfold or_undefined. by destruct (truthy_opt o). }
  unfold WindowContext.getInitialWindowParams at 1. run_R.
  destruct (truthy_opt (Storage.getItem "windowParamsConsumed" (sessionStorage r))) eqn:Hcons.
  { intros [= <- <-]. cbn. split; [done|]. split; [done|]. by intros [|]. }
  set (chosen := match hash (location r) with
                 | Some params0 =>
                     if truthy_opt (params_get "chatId" (search (location r)))
                     then (params_get "chatId" (search (location r)),
                           params_get "subChatId" (search (location r)))
                     else (params_get "chatId" params0, params_get "subChatId" params0)
                 | None => (params_get "chatId" (search (location r)),
                            params_get "subChatId" (search (location r)))
                 end).
  destruct chosen as [chatId1 subChatId1].
  destruct (truthy_opt chatId1 || truthy_opt subChatId1) eqn:Hany.
  - destruct (Storage.setItem "windowParamsConsumed" "true" (sessionStorage r)) as [ss|] eqn:Hset;
      [|done].
    cbn. intros [= <- <-]. cbn. split; [done|]. split; [done|]. intros _ l.
    unfold WindowContext.getInitialWindowParams. run_R. cbn.
    by rewrite (storage_get_set _ _ _ _ Hset).
  - cbn. intros [= <- <-]. cbn. split; [done|]. split; [done|].
    apply orb_false_iff in Hany as [H1 H2].
    intros [Hx|Hx]; apply Hsome in Hx; congruence.
Qed.

Lemma initial_params_are_consumed_witness :
  let first := WindowContext.getInitialWindowParams (opened "main" []) in
  first.1 = Returned (WindowContext.MkWindowParams (Some "c1") None)
  ∧ WindowContext.getInitialWindowParams first.2
    = (Returned (WindowContext.MkWindowParams None None), first.2).
Proof.
  split; [reflexivity|].
  apply (proj2 (proj2 (initial_params_are_consumed (opened "main" [])
           (WindowContext.MkWindowParams (Some "c1") None)
           (WindowContext.getInitialWindowParams (opened "main" [])).2 eq_refl))
         ltac:(by left) (location (opened "main" []))).
Defined.

(** ** The renderer: what the migrations look for *)

Lemma append_cons c (a b : string) : String c a +:+ b = String c (a +:+ b).
Proof. done. Qed.

Lemma append_nil_l (b : string) : "" +:+ b = b.
Proof. done. Qed.

Lemma span_digits_app digits rest :
  digits_only digits = true →
  (∀ c rest', rest = String c rest' → is_digit c = false) →
  span_digits (digits +:+ rest) = (digits, rest).
Proof.
  intros Hd Hrest. induction digits as [|c digits IH].
  - rewrite append_nil_l. destruct rest as [|c rest']; [done|].
    cbn [span_digits]. by rewrite (Hrest c rest').
  - cbn [digits_only] in Hd. apply andb_true_iff in Hd as [Hc Hd].
    rewrite append_cons. cbn [span_digits]. by rewrite Hc, IH.
Qed.

Lemma span_digits_inv s digits rest :
  span_digits s = (digits, rest) →
  s = digits +:+ rest ∧ digits_only digits = true.
Proof.
  revert digits rest. induction s as [|c s IH]; intros digits rest.
  - by intros [= <- <-].
  - cbn [span_digits]. destruct (is_digit c) eqn:Hc; [|by intros [= <- <-]].
    destruct (span_digits s) as [digits' rest'].
    intros [= <- <-]. destruct (IH digits' rest' eq_refl) as [-> Hd].
    split; [done|]. cbn [digits_only]. by rewrite Hc, Hd.
Qed.

Lemma colon_not_digit rest c rest' : ":" +:+ rest = String c rest' → is_digit c = false.
Proof. by intros [= <- _]. Qed.


(** The pattern [/^(\d+):changes-store$/]. *)
Lemma match_numeric_changes_store_spec storageKey :
  match_numeric_changes_store storageKey = true ↔ numeric_copy "changes-store" storageKey.
Proof.
  unfold match_numeric_changes_store, numeric_copy. split.
  - destruct (span_digits storageKey) as [found rest] eqn:Hspan.
    apply span_digits_inv in Hspan as [-> Hd].
    destruct found as [|d found]; [done|].
    intros ->%bool_decide_eq_true. split; [done|]. split; [done|].
    by exists (String d found).
  - intros (_ & _ & digits & Hd0 & Hd & ->).
    rewrite span_digits_app; [|done|apply colon_not_digit].
    destruct digits as [|d digits]; [done|]. by apply bool_decide_eq_true.
Qed.

(** [targetWindowKey.startsWith("main:")] *)
Lemma is_main_spec windowId key :
  String.prefix "main:" (windowId +:+ ":" +:+ key) = true ↔ is_main windowId.
Proof.
  unfold is_main.
  destruct windowId as [|c1 [|c2 [|c3 [|c4 [|c5 rest]]]]];
    rewrite ?append_cons, ?append_nil_l; change (":" +:+ key) with (String ":" key);
    cbn [String.prefix];
    repeat match goal with
           | |- context [Ascii.ascii_dec ?a ?b] =>
               destruct (Ascii.ascii_dec a b) as [Heq|Hne];
               [first [discriminate Heq|subst b]|]
           end;
    rewrite ?prefix_nil_l;
    try (split; [done|intros [[=]|[=]]; congruence]);
    try (split; [intros _|done]; first [by left|by right]).
Qed.

Lemma numeric_copy_nonempty key : ¬ numeric_copy key "".
Proof.
  intros (_ & _ & digits & Hd0 & _ & Heq). destruct digits; [done|].
  by rewrite append_cons in Heq.
Qed.




(** The loop of [onRehydrateStorage] stops at the first numeric window's
    store that holds data. *)
Lemma scan_numeric_store_spec ls storageKeys :
  match ChangesStore.scan_numeric_store ls storageKeys with
  | Some (storageKey, data) =>
      ∃ before after,
        storageKeys = before ++ storageKey :: after
        ∧ Forall (empty_store ls) before
        ∧ numeric_copy "changes-store" storageKey
        ∧ Storage.getItem storageKey ls = Some data ∧ data ≠ ""
  | None => Forall (empty_store ls) storageKeys
  end.
Proof.
  induction storageKeys as [|storageKey rest IH]; [by constructor|].
  cbn [ChangesStore.scan_numeric_store].
  assert (empty_store ls storageKey →
          match ChangesStore.scan_numeric_store ls rest with
          | Some (found, data) =>
              ∃ before after,
                storageKey :: rest = before ++ found :: after
                ∧ Forall (empty_store ls) before
                ∧ numeric_copy "changes-store" found
                ∧ Storage.getItem found ls = Some data ∧ data ≠ ""
          | None => Forall (empty_store ls) (storageKey :: rest)
          end) as Hskip.
  { intros Hempty. destruct (ChangesStore.scan_numeric_store ls rest) as [[found data]|].
    - destruct IH as (before & after & -> & Hbefore & Hfound).
      exists (storageKey :: before), after. split; [done|]. split; [by constructor|]. done.
    - by constructor. }
  destruct (truthy storageKey) eqn:Ht; cbn [negb].
  2:{ apply Hskip. apply truthy_false in Ht as ->. intros Hc. by apply numeric_copy_nonempty in Hc. }
  destruct (match_numeric_changes_store storageKey) eqn:Hm.
  - apply match_numeric_changes_store_spec in Hm.
    destruct (Storage.getItem storageKey ls) as [data|] eqn:Hdata.
    + destruct (truthy data) eqn:Htd.
      * apply truthy_true in Htd. exists [], rest. split; [done|]. split; [constructor|]. done.
      * apply Hskip. intros _. by rewrite Hdata.
    + apply Hskip. intros _. by rewrite Hdata.
  - apply Hskip. intros Hc%match_numeric_changes_store_spec. congruence.
Qed.

Lemma rehydrate_source_spec windowId ls :
  store_to_migrate windowId ls (rehydrate_source windowId ls).
Proof.
  unfold rehydrate_source.
  assert (¬ is_main windowId ∨ Forall (empty_store ls) (JsMap.keys (Storage.items ls)) →
          store_to_migrate windowId ls (or_undefined (Storage.getItem "changes-store" ls)))
    as Hlegacy.
  { intros Hcond. unfold or_undefined.
    destruct (truthy_opt (Storage.getItem "changes-store" ls)) eqn:Ht.
    - apply truthy_opt_Some in Ht as (data & Hdata & Hne). rewrite Hdata.
      by eapply store_legacy.
    - by apply store_none. }
  change (windowId +:+ ":changes-store") with (windowId +:+ ":" +:+ "changes-store").
  destruct (String.prefix "main:" (windowId +:+ ":" +:+ "changes-store")) eqn:Hmain.
  - apply is_main_spec in Hmain.
    pose proof (scan_numeric_store_spec ls (JsMap.keys (Storage.items ls))) as Hscan.
    destruct (ChangesStore.scan_numeric_store ls _) as [[storageKey data]|].
    + destruct Hscan as (before & after & Hkeys & Hbefore & Hcopy & Hdata & Hne).
      by eapply store_numeric.
    + apply Hlegacy. by right.
  - apply Hlegacy. left. intros Hm%(is_main_spec _ "changes-store"). congruence.
Qed.

(** Both descriptions name one value. *)
Lemma first_unique {A} (E : A → Prop) before1 x1 after1 before2 x2 after2 :
  before1 ++ x1 :: after1 = before2 ++ x2 :: after2 →
  Forall E before1 → ¬ E x1 → Forall E before2 → ¬ E x2 → x1 = x2.
Proof.
  revert before2. induction before1 as [|y before1 IH]; intros [|z before2] Heq H1 Hx1 H2 Hx2.
  - by injection Heq.
  - injection Heq as -> _. by apply Forall_cons in H2 as [? _].
  - injection Heq as -> _. by apply Forall_cons in H1 as [? _].
  - injection Heq as _ Heq. apply Forall_cons in H1 as [_ H1], H2 as [_ H2]. by eapply IH.
Qed.

Lemma value_to_migrate_unique windowId key ls found1 found2 :
  value_to_migrate windowId key ls found1 →
  value_to_migrate windowId key ls found2 →
  found1 = found2.
Proof.
  assert (∀ before storageKey after,
            JsMap.keys (Storage.items ls) = before ++ storageKey :: after →
            numeric_copy key storageKey →
            Forall (λ k, ¬ numeric_copy key k) (JsMap.keys (Storage.items ls)) → False)
    as Hclash.
  { intros before storageKey after Hkeys Hcopy Hall. rewrite Hkeys in Hall.
    apply Forall_app in Hall as [_ Hall]. by apply Forall_cons in Hall as [? _]. }
  intros [b1 k1 a1 v1 Hm1 Hk1 Hb1 Hc1 Hv1|[Hn1|Hn1]] [b2 k2 a2 v2 Hm2 Hk2 Hb2 Hc2 Hv2|[Hn2|Hn2]];
    try done; try (exfalso; by eapply Hclash).
  assert (k1 = k2) as ->; [|congruence].
  rewrite Hk1 in Hk2.
  eapply (first_unique (λ k, ¬ numeric_copy key k)); [done|done| |done|]; by intros H.
Qed.

Lemma store_to_migrate_unique windowId ls found1 found2 :
  store_to_migrate windowId ls found1 →
  store_to_migrate windowId ls found2 →
  found1 = found2.
Proof.
  assert (∀ storageKey data,
            numeric_copy "changes-store" storageKey →
            Storage.getItem storageKey ls = Some data → data ≠ "" →
            ¬ empty_store ls storageKey) as Hfull.
  { intros storageKey data Hcopy Hdata Hne Hempty. specialize (Hempty Hcopy).
    rewrite Hdata in Hempty. cbn in Hempty. apply truthy_false in Hempty. done. }
  assert (∀ before storageKey after data,
            JsMap.keys (Storage.items ls) = before ++ storageKey :: after →
            numeric_copy "changes-store" storageKey →
            Storage.getItem storageKey ls = Some data → data ≠ "" →
            Forall (empty_store ls) (JsMap.keys (Storage.items ls)) → False) as Hclash.
  { intros before storageKey after data Hkeys Hcopy Hdata Hne Hall. rewrite Hkeys in Hall.
    apply Forall_app in Hall as [_ Hall]. apply Forall_cons in Hall as [Hempty _].
    by eapply Hfull. }
  intros [b1 k1 a1 d1 Hm1 Hk1 Hb1 Hc1 Hd1 Hne1|d1 [Hn1|Hn1] Hd1 Hne1|[Hn1|Hn1] Hd1]
         [b2 k2 a2 d2 Hm2 Hk2 Hb2 Hc2 Hd2 Hne2|d2 [Hn2|Hn2] Hd2 Hne2|[Hn2|Hn2] Hd2];
    try done; try (exfalso; by eapply Hclash); try congruence;
    try (rewrite ?Hd1, ?Hd2 in *; cbn in *;
         match goal with H : truthy _ = false |- _ => apply truthy_false in H end; congruence).
  assert (k1 = k2) as ->; [|congruence].
  rewrite Hk1 in Hk2.
  eapply (first_unique (empty_store ls)); [done|done| |done|]; by eapply Hfull.
Qed.

(** ** The renderer: window-scoped storage *)

Lemma getItem_hit r windowId key value :
  globalWindowId r = Some windowId → windowId ≠ "" →
  Storage.getItem (windowId +:+ ":" +:+ key) (localStorage r) = Some value →
  WindowStorage.getItem key r = (Returned (Some value), r).
Proof.
  intros Hg Hne Hv. unfold WindowStorage.getItem. run_R.
  rewrite (getWindowId_cached r windowId Hg Hne). cbn [negb]. by rewrite Hv.
Qed.

Lemma getItem_checked r windowId key :
  globalWindowId r = Some windowId → windowId ≠ "" →
  Storage.getItem (windowId +:+ ":" +:+ key) (localStorage r) = None →
  windowId +:+ ":" +:+ key ∈ migratedKeys r →
  WindowStorage.getItem key r = (Returned None, r).
Proof.
  intros Hg Hne Hv Hin. unfold WindowStorage.getItem. run_R.
  rewrite (getWindowId_cached r windowId Hg Hne). cbn [negb]. rewrite Hv.
  by rewrite bool_decide_eq_true_2.
Qed.

Lemma getItem_miss r windowId key :
  globalWindowId r = Some windowId → windowId ≠ "" →
  Storage.getItem (windowId +:+ ":" +:+ key) (localStorage r) = None →
  windowId +:+ ":" +:+ key ∉ migratedKeys r →
  let windowKey := windowId +:+ ":" +:+ key in
  let found := migration_source windowId key (localStorage r) in
  let r' := (WindowStorage.getItem key r).2 in
  (WindowStorage.getItem key r).1 = Returned found
  ∧ windowKey ∈ migratedKeys r'
  ∧ globalWindowId r' = globalWindowId r
  ∧ sessionStorage r' = sessionStorage r
  ∧ localStorage r'
    = match found with
      | Some value => default (localStorage r) (Storage.setItem windowKey value (localStorage r))
      | None => localStorage r
      end.
Proof.
  intros Hg Hne Hv Hnin windowKey found r'. subst r' found. unfold migration_source.
  unfold WindowStorage.getItem, WindowStorage.migrateFromNumericWindowId. run_R.
  rewrite (getWindowId_cached r windowId Hg Hne). cbn [negb]. rewrite Hv.
  fold windowKey in Hv, Hnin |- *.
  rewrite bool_decide_eq_false_2 by done.
  destruct (String.prefix "main:" windowKey) eqn:Hmain; cbn [negb].
  - rewrite bool_decide_eq_false_2 by done.
    destruct (WindowStorage.scan_numeric key (localStorage r) _) as [[storageKey value]|] eqn:Hscan.
    + cbn. destruct (Storage.setItem windowKey value (localStorage r)) as [ls|] eqn:Hset;
        cbn; (split; [done|]); (split; [set_solver|]); done.
    + cbn. destruct (Storage.getItem key (localStorage r)) as [legacy|] eqn:Hleg.
      * cbn. destruct (Storage.setItem windowKey legacy (localStorage r)) as [ls|] eqn:Hset;
          cbn; (split; [done|]); (split; [set_solver|]); done.
      * cbn. split; [done|]. split; [set_solver|]. done.
  - destruct (Storage.getItem key (localStorage r)) as [legacy|] eqn:Hleg.
    + cbn. destruct (Storage.setItem windowKey legacy (localStorage r)) as [ls|] eqn:Hset;
        cbn; (split; [done|]); (split; [set_solver|]); done.
    + cbn. split; [done|]. split; [set_solver|]. done.
Qed.

Lemma storage_setItem_default_frame k k' v s :
  k ≠ k' →
  Storage.getItem k' (default s (Storage.setItem k v s)) = Storage.getItem k' s.
Proof.
  intros Hne. destruct (Storage.setItem k v s) as [s'|] eqn:Hset; [|done].
  by eapply storage_get_set_ne.
Qed.



(** X17: reading is stable: whatever a read of a key did, the next read of
    the same key changes nothing, and it returns the same value, unless the
    first read found a value to migrate and could not save it, in which case
    later reads return null. *)
Theorem second_read_is_stable r windowId key :
  globalWindowId r = Some windowId → windowId ≠ "" →
  let windowKey := windowId +:+ ":" +:+ key in
  let first := WindowStorage.getItem key r in
  ∃ value1 value2,
    first.1 = Returned value1
    ∧ WindowStorage.getItem key first.2 = (Returned value2, first.2)
    ∧ (value2 = value1
       ∨ value2 = None
         ∧ ∃ migrated, value1 = Some migrated
                       ∧ Storage.setItem windowKey migrated (localStorage r) = None).
Proof.
  intros Hg Hne windowKey first. subst first.
  destruct (Storage.getItem windowKey (localStorage r)) as [v|] eqn:Hv.
  { rewrite (getItem_hit r windowId key v Hg Hne Hv). exists (Some v), (Some v). cbn.
    split; [done|]. split; [by apply (getItem_hit r windowId)|by left]. }
  destruct (decide (windowKey ∈ migratedKeys r)) as [Hin|Hnin].
  { rewrite (getItem_checked r windowId key Hg Hne Hv Hin). exists None, None. cbn.
    split; [done|]. split; [by apply (getItem_checked r windowId)|by left]. }
  destruct (getItem_miss r windowId key Hg Hne Hv Hnin) as (Hres & Hmig & Hg' & _ & Hls).
  fold windowKey in Hres, Hmig, Hls.
  set (r' := (WindowStorage.getItem key r).2) in *.
  rewrite Hg in Hg'.
  exists (migration_source windowId key (localStorage r)),
         (Storage.getItem windowKey (localStorage r')).
  split; [done|]. split.
  - destruct (Storage.getItem windowKey (localStorage r')) as [v2|] eqn:Hv2.
    + by apply (getItem_hit r' windowId).
    + by apply (getItem_checked r' windowId).
  - rewrite Hls. destruct (migration_source windowId key (localStorage r)) as [value|].
    + destruct (Storage.setItem windowKey value (localStorage r)) as [ls|] eqn:Hset; cbn.
      * left. by eapply storage_get_set.
      * right. split; [done|]. by exists value.
    + by left.
Qed.

Lemma second_read_is_stable_witness :
  let first := WindowStorage.getItem "agents:sidebar" (identified "window-2" old_data) in
  first.1 = Returned (Some "open")
  ∧ WindowStorage.getItem "agents:sidebar" first.2 = (Returned (Some "open"), first.2).
Proof.
  split; [reflexivity|].
  destruct (second_read_is_stable (identified "window-2" old_data) "window-2" "agents:sidebar"
              eq_refl ltac:(done)) as (v1 & v2 & H1 & H2 & H3).
  rewrite H2. f_equal. f_equal.
  destruct H3 as [->|[_ (migrated & -> & Hset)]].
  - vm_compute in H1. by injection H1.
  - vm_compute in Hset. discriminate Hset.
Defined.

(** When the storage is full the migrated value is returned once and then
    lost. *)
Example migrated_value_lost_when_full :
  let r := MkRenderer (Storage.Build old_data full) (Storage.Build [] roomy)
             (MkLocation [] None) (Some "window-2") ∅ [] in
  (WindowStorage.getItem "agents:sidebar" r).1 = Returned (Some "open")
  ∧ (WindowStorage.getItem "agents:sidebar" (WindowStorage.getItem "agents:sidebar" r).2).1
    = Returned None.
Proof. by split. Qed.

Lemma setItem_run r windowId key value :
  globalWindowId r = Some windowId → windowId ≠ "" →
  WindowStorage.setItem key value r
  = match Storage.setItem (windowId +:+ ":" +:+ key) value (localStorage r) with
    | Some ls => (Returned (), with_localStorage (λ _, ls) r)
    | None =>
        (Returned (),
         print console_error_level
           ["[WindowStorage] Failed to save " +:+ (windowId +:+ ":" +:+ key) +:+ ":";
            "QuotaExceededError"] r)
    end.
Proof.
  intros Hg Hne. unfold WindowStorage.setItem. run_R.
  rewrite (getWindowId_cached r windowId Hg Hne). cbn [negb].
  by destruct (Storage.setItem _ _ _).
Qed.

Lemma removeItem_run r windowId key :
  globalWindowId r = Some windowId → windowId ≠ "" →
  WindowStorage.removeItem key r
  = (Returned (), with_localStorage (Storage.removeItem (windowId +:+ ":" +:+ key)) r).
Proof.
  intros Hg Hne. unfold WindowStorage.removeItem. run_R.
  by rewrite (getWindowId_cached r windowId Hg Hne).
Qed.



Lemma storage_get_remove k s : Storage.getItem k (Storage.removeItem k s) = None.
Proof. apply jsmap_get_delete_eq. Qed.

Lemma storage_get_remove_ne k k' s :
  k ≠ k' → Storage.getItem k' (Storage.removeItem k s) = Storage.getItem k' s.
Proof. intros Hne. by apply jsmap_get_delete_ne. Qed.

Lemma string_length_app (a b : string) :
  String.length (a +:+ b) = String.length a + String.length b.
Proof. induction a as [|c a IH]; [done|]. cbn. by rewrite <- IH. Qed.

Lemma append_colon_ne (a b : string) : b ≠ a +:+ ":" +:+ b.
Proof.
  intros Heq. apply (f_equal String.length) in Heq.
  rewrite !string_length_app in Heq. cbn in Heq. lia.
Qed.

(** X19: [removeItem] sticks only for a key that has been through migration:
    then the next read returns null.  For a key that has not (it was only
    ever found under the window's own name), the next read migrates again:
    in a window other than the main one it returns the un-prefixed legacy
    value, if there is one. *)
Theorem remove_then_read r windowId key :
  globalWindowId r = Some windowId → windowId ≠ "" →
  let windowKey := windowId +:+ ":" +:+ key in
  let removed := (WindowStorage.removeItem key r).2 in
  (windowKey ∈ migratedKeys r →
   WindowStorage.getItem key removed = (Returned None, removed))
  ∧ (windowKey ∉ migratedKeys r → String.prefix "main:" windowKey = false →
     (WindowStorage.getItem key removed).1 = Returned (Storage.getItem key (localStorage r))).
Proof.
  intros Hg Hne windowKey removed. subst removed windowKey.
  rewrite (removeItem_run r windowId key Hg Hne). cbn [snd]. split.
  - intros Hin. apply (getItem_checked _ windowId); [done..|apply storage_get_remove|done].
  - intros Hnin Hmain. pose proof (append_colon_ne windowId key) as Hkey.
    destruct (getItem_miss (with_localStorage (Storage.removeItem (windowId +:+ ":" +:+ key)) r)
                windowId key Hg Hne (storage_get_remove _ _) Hnin) as (Hres & _).
    rewrite Hres. unfold migration_source. rewrite Hmain.
    cbn [localStorage with_localStorage]. by rewrite storage_get_remove_ne.
Qed.

(** A value removed comes back from the legacy key. *)
Lemma remove_then_read_witness :
  let r := (WindowStorage.setItem "agents:sidebar" "closed" (identified "window-2" old_data)).2 in
  (WindowStorage.getItem "agents:sidebar" r).1 = Returned (Some "closed")
  ∧ (WindowStorage.getItem "agents:sidebar" (WindowStorage.removeItem "agents:sidebar" r).2).1
    = Returned (Some "open").
Proof.
  split; [reflexivity|].
  apply (proj2 (remove_then_read
                  (WindowStorage.setItem "agents:sidebar" "closed"
                     (identified "window-2" old_data)).2
                  "window-2" "agents:sidebar" eq_refl ltac:(done))
           ltac:(vm_compute; set_solver) eq_refl).
Defined.

(** X20: with the window ID known, the three operations of the storage
    adapter always return normally, also when [localStorage] is full, and
    none of them changes a key of [localStorage] other than the window's own
    copy of the key, nor [sessionStorage]. *)
Theorem adapter_touches_only_own_key r windowId key value :
  globalWindowId r = Some windowId → windowId ≠ "" →
  let windowKey := windowId +:+ ":" +:+ key in
  let untouched (r' : Renderer) : Prop :=
    sessionStorage r' = sessionStorage r
    ∧ ∀ other, other ≠ windowKey →
        Storage.getItem other (localStorage r') = Storage.getItem other (localStorage r) in
  (∃ found, (WindowStorage.getItem key r).1 = Returned found)
  ∧ untouched (WindowStorage.getItem key r).2
  ∧ (WindowStorage.setItem key value r).1 = Returned ()
  ∧ untouched (WindowStorage.setItem key value r).2
  ∧ (WindowStorage.removeItem key r).1 = Returned ()
  ∧ untouched (WindowStorage.removeItem key r).2.
Proof.
  intros Hg Hne windowKey untouched. subst untouched windowKey.
  assert ((∃ found, (WindowStorage.getItem key r).1 = Returned found)
          ∧ sessionStorage (WindowStorage.getItem key r).2 = sessionStorage r
          ∧ ∀ other, other ≠ windowId +:+ ":" +:+ key →
              Storage.getItem other (localStorage (WindowStorage.getItem key r).2)
              = Storage.getItem other (localStorage r)) as (Hget1 & Hget2 & Hget3).
  { destruct (Storage.getItem (windowId +:+ ":" +:+ key) (localStorage r)) as [v|] eqn:Hv.
    { rewrite (getItem_hit r windowId key v Hg Hne Hv). by eauto. }
    destruct (decide (windowId +:+ ":" +:+ key ∈ migratedKeys r)) as [Hin|Hnin].
    { rewrite (getItem_checked r windowId key Hg Hne Hv Hin). by eauto. }
    destruct (getItem_miss r windowId key Hg Hne Hv Hnin) as (Hres & _ & _ & Hss & Hls).
    split; [by eauto|]. split; [done|]. intros other Hother. rewrite Hls.
    destruct (migration_source windowId key (localStorage r)); [|done].
    by apply storage_setItem_default_frame. }
  split; [done|]. split; [done|].
  rewrite (setItem_run r windowId key value Hg Hne), (removeItem_run r windowId key Hg Hne).
  destruct (Storage.setItem (windowId +:+ ":" +:+ key) value (localStorage r)) as [ls|] eqn:Hset;
    cbn [fst snd].
  - split; [done|]. split.
    { split; [done|]. intros other Hother. cbn. by eapply storage_get_set_ne. }
    split; [done|]. split; [done|]. intros other Hother. cbn. by apply storage_get_remove_ne.
  - split; [done|]. split; [done|].
    split; [done|]. split; [done|]. intros other Hother. cbn. by apply storage_get_remove_ne.
Qed.

Lemma adapter_touches_only_own_key_witness :
  Storage.getItem "window-2:agents:selectedProject"
    (localStorage (WindowStorage.setItem "agents:selectedProject" "p9"
                     (identified "main" old_data)).2) = Some "p2".
Proof.
  pose proof (adapter_touches_only_own_key (identified "main" old_data) "main"
                "agents:selectedProject" "p9" eq_refl ltac:(done)) as (_ & _ & _ & [_ H] & _).
  by rewrite H.
Defined.

(** *** Keys of different windows *)


Lemma no_colon_app a b : no_colon a = true → no_colon b = true → no_colon (a +:+ b) = true.
Proof.
  intros Ha Hb. induction a as [|c a IH]; [done|].
  change (String c a +:+ b) with (String c (a +:+ b)). cbn [no_colon] in *.
  apply andb_true_iff in Ha as [Hc Ha]. rewrite Hc. by apply IH.
Qed.

Lemma no_colon_scoped_inj a b x y :
  no_colon a = true → no_colon b = true →
  a +:+ ":" +:+ x = b +:+ ":" +:+ y → a = b ∧ x = y.
Proof.
  revert b. induction a as [|c a IH]; intros [|d b] Ha Hb Heq.
  - by injection Heq.
  - injection Heq as <- _. done.
  - injection Heq as -> _. done.
  - change (String c (a +:+ ":" +:+ x) = String d (b +:+ ":" +:+ y)) in Heq.
    injection Heq as <- Heq. cbn [no_colon] in *.
    apply andb_true_iff in Ha as [_ Ha]. apply andb_true_iff in Hb as [_ Hb].
    destruct (IH b Ha Hb Heq) as [-> ->]. done.
Qed.

Lemma no_colon_pretty_N_go x s : no_colon s = true → no_colon (pretty_N_go x s) = true.
Proof.
  revert s. induction x as [x IH] using (well_founded_induction N.lt_wf_0). intros s Hs.
  destruct (decide (0 < x)%N) as [Hpos|Hzero].
  - rewrite pretty_N_go_step by done. apply IH.
    + apply N.div_lt; [done|lia].
    + cbn [no_colon]. rewrite Hs, andb_true_r.
      unfold pretty_N_char. by repeat case_match.
  - assert (x = 0%N) as -> by lia. by rewrite pretty_N_go_0.
Qed.

Lemma no_colon_secondary k : no_colon (secondary k) = true.
Proof.
  unfold secondary. apply no_colon_app; [done|].
  unfold pretty, pretty_nat, pretty, pretty_N. case_decide; [done|].
  by apply no_colon_pretty_N_go.
Qed.

Lemma assigned_stable_id s sid :
  reachable s → sid ∈ assigned s → sid = "main" ∨ ∃ k, sid = secondary k.
Proof.
  intros Hreach Hin. destruct (reachable_wm_inv s Hreach).
  rewrite Forall_forall in inv_shape0. by apply inv_shape0.
Qed.

(** X21: the stable IDs the window manager hands out contain no colon, so
    the window-scoped storage keys of two windows never coincide: when
    ["<id1>:<key1>"] and ["<id2>:<key2>"] are the same string, the windows and
    the keys are the same. *)
Theorem scoped_keys_do_not_collide s sid1 sid2 key1 key2 :
  reachable s → sid1 ∈ assigned s → sid2 ∈ assigned s →
  sid1 +:+ ":" +:+ key1 = sid2 +:+ ":" +:+ key2 →
  sid1 = sid2 ∧ key1 = key2.
Proof.
  intros Hreach H1 H2.
  assert (∀ sid, sid ∈ assigned s → no_colon sid = true) as Hno.
  { intros sid Hin. destruct (assigned_stable_id s sid Hreach Hin) as [->|[k ->]]; [done|].
    apply no_colon_secondary. }
  apply no_colon_scoped_inj; by apply Hno.
Qed.

Lemma scoped_keys_do_not_collide_witness :
  "window-3" +:+ ":" +:+ "agents:sidebar" = "window-3:agents:sidebar"
  ∧ "window-3" = "window-3" ∧ "agents:sidebar" = "agents:sidebar".
Proof.
  split; [reflexivity|].
  apply (scoped_keys_do_not_collide three_windows "window-3" "window-3"
           "agents:sidebar" "agents:sidebar" reachable_three_windows
           ltac:(vm_compute; set_solver) ltac:(vm_compute; set_solver) eq_refl).
Defined.

(** Keys of the main window and of a secondary window differ. *)
Example main_and_secondary_keys_differ key1 key2 :
  "main" +:+ ":" +:+ key1 ≠ secondary 2 +:+ ":" +:+ key2.
Proof.
  intros Heq. apply no_colon_scoped_inj in Heq as [Hsid _]; [done..|].
  apply no_colon_secondary.
Qed.

(** ** The changes store *)

Lemma or_undefined_Some o x : or_undefined o = Some x → o = Some x ∧ truthy x = true.
Proof.
  unfold or_undefined. destruct o as [y|]; cbn; [|done].
  destruct (truthy y) eqn:Hy; [|done]. by intros [= <-].
Qed.

Lemma onRehydrateStorage_run r windowId :
  globalWindowId r = Some windowId → windowId ≠ "" →
  let windowKey := windowId +:+ ":changes-store" in
  ∃ message,
    ChangesStore.onRehydrateStorage r
    = if truthy_opt (Storage.getItem windowKey (localStorage r)) then (Returned (), r)
      else match rehydrate_source windowId (localStorage r) with
           | Some data =>
               match Storage.setItem windowKey data (localStorage r) with
               | Some ls =>
                   (Returned (),
                    print console_log_level [message] (with_localStorage (λ _, ls) r))
               | None => (Threw "QuotaExceededError", r)
               end
           | None => (Returned (), r)
           end.
Proof.
  intros Hg Hne windowKey. subst windowKey.
  unfold ChangesStore.onRehydrateStorage, rehydrate_source. run_R.
  rewrite (getWindowId_cached r windowId Hg Hne). cbn [negb].
  destruct (truthy_opt (Storage.getItem _ (localStorage r))); [by exists ""|].
  destruct (if String.prefix "main:" _ then _ else None) as [[storageKey data]|].
  - eexists. by destruct (Storage.setItem _ data (localStorage r)).
  - unfold or_undefined.
    destruct (truthy_opt (Storage.getItem "changes-store" (localStorage r))) eqn:Hleg.
    + apply truthy_opt_Some in Hleg as (x & -> & _). cbn.
      eexists. by destruct (Storage.setItem _ x (localStorage r)).
    + by exists "".
Qed.

(** X22: the migration run when the changes store rehydrates never
    overwrites a store the window already has and writes no key but the
    window's own.  When the window has none, it copies, in the main window,
    the first store of [localStorage], in enumeration order, whose key is
    digits followed by [:changes-store] and whose data is not empty; in
    another window, or when there is none, the legacy store [changes-store]
    if it is not empty; and nothing otherwise.  When [localStorage] is full
    it throws and changes nothing. *)
Theorem rehydrate_migration r windowId :
  globalWindowId r = Some windowId → windowId ≠ "" →
  let windowKey := windowId +:+ ":changes-store" in
  let done := ChangesStore.onRehydrateStorage r in
  (truthy_opt (Storage.getItem windowKey (localStorage r)) = true → done = (Returned (), r))
  ∧ (∀ other, other ≠ windowKey →
       Storage.getItem other (localStorage done.2) = Storage.getItem other (localStorage r))
  ∧ (truthy_opt (Storage.getItem windowKey (localStorage r)) = false →
     ∃ found,
       store_to_migrate windowId (localStorage r) found
       ∧ match found with
         | Some data =>
             match done.1 with
             | Returned _ => Storage.getItem windowKey (localStorage done.2) = Some data
             | Threw _ => done.2 = r ∧ Storage.setItem windowKey data (localStorage r) = None
             end
         | None => done = (Returned (), r)
         end).
Proof.
  intros Hg Hne windowKey done. subst done windowKey.
  destruct (onRehydrateStorage_run r windowId Hg Hne) as [message ->].
  pose proof (rehydrate_source_spec windowId (localStorage r)) as Hspec.
  destruct (truthy_opt (Storage.getItem _ (localStorage r))) eqn:Hex.
  { split; [done|]. split; [done|]. done. }
  split; [done|].
  destruct (rehydrate_source windowId (localStorage r)) as [data|].
  2:{ split; [done|]. intros _. by exists None. }
  destruct (Storage.setItem _ data (localStorage r)) as [ls|] eqn:Hset; cbn [fst snd].
  - split.
    + intros other Hother. cbn. by eapply storage_get_set_ne.
    + intros _. exists (Some data). split; [done|]. cbn. by eapply storage_get_set.
  - split; [done|]. intros _. by exists (Some data).
Qed.

Lemma rehydrate_migration_witness :
  let done := ChangesStore.onRehydrateStorage (identified "main" old_data) in
  store_to_migrate "main" (localStorage (identified "main" old_data)) (Some "{}")
  ∧ done.1 = Returned ()
  ∧ Storage.getItem "main:changes-store" (localStorage done.2) = Some "{}"
  ∧ Storage.getItem "3:changes-store" (localStorage done.2) = Some "{}".
Proof.
  pose proof (rehydrate_migration (identified "main" old_data) "main" eq_refl ltac:(done))
    as (_ & Hframe & Hcopy).
  destruct (Hcopy eq_refl) as (found & Hspec & Hdone).
  assert (found = Some "{}") as ->.
  { destruct found as [data|]; [|by injection Hdone]. f_equal.
    change (Storage.getItem "main:changes-store"
              (localStorage (ChangesStore.onRehydrateStorage (identified "main" old_data)).2)
            = Some data) in Hdone.
    by injection Hdone. }
  split; [exact Hspec|]. split; [reflexivity|]. split; [exact Hdone|].
  by rewrite Hframe.
Defined.

(** X23: a file selected for a worktree is the file read back for it, with
    the category defaulting to against-base; selecting null or resetting
    makes the read null; the selections of other worktrees and the other
    fields of the store are not affected. *)
Theorem select_then_get {ChangedFile : Type} (st : ChangesStore.ChangesState ChangedFile)
    worktreePath (f : ChangedFile) category commitHash :
  let selected := ChangesStore.selectFile worktreePath (Some f) category commitHash st in
  ChangesStore.getSelectedFile worktreePath selected
  = Value (ChangesStore.MkSelected f (default ChangesStore.against_base category) commitHash)
  ∧ ChangesStore.getSelectedFile worktreePath
      (ChangesStore.selectFile worktreePath None category commitHash st) = Null
  ∧ ChangesStore.getSelectedFile worktreePath (ChangesStore.reset worktreePath selected) = Null
  ∧ (∀ other, other ≠ worktreePath →
       ChangesStore.getSelectedFile other selected = ChangesStore.getSelectedFile other st
       ∧ ChangesStore.getSelectedFile other (ChangesStore.reset worktreePath st)
         = ChangesStore.getSelectedFile other st)
  ∧ ChangesStore.showRenderedMarkdown selected = ChangesStore.showRenderedMarkdown st
  ∧ ChangesStore.expandedSections selected = ChangesStore.expandedSections st
  ∧ ChangesStore.viewMode selected = ChangesStore.viewMode st
  ∧ ChangesStore.baseBranch selected = ChangesStore.baseBranch st.
Proof.
  intros selected. subst selected.
  unfold ChangesStore.getSelectedFile, ChangesStore.selectFile, ChangesStore.reset. cbn.
  rewrite !lookup_insert_eq. split; [done|]. split; [done|]. split; [done|].
  split; [|done]. intros other Hother. by rewrite !lookup_insert_ne.
Qed.

(** X24: for a worktree path that is not the name of a member of
    [Object.prototype], [toggleRenderedMarkdown] negates what
    [getShowRenderedMarkdown] reports (false for a path never toggled), so
    two toggles restore it; [toggleSection] applied twice restores the whole
    store. *)
Theorem toggles_are_involutions {ChangedFile : Type}
    (st : ChangesStore.ChangesState ChangedFile) worktreePath section :
  worktreePath ∉ object_prototype_keys →
  (∃ shown,
     ChangesStore.getShowRenderedMarkdown worktreePath st = Value shown
     ∧ ChangesStore.getShowRenderedMarkdown worktreePath
         (ChangesStore.toggleRenderedMarkdown worktreePath st) = Value (negb shown)
     ∧ ChangesStore.getShowRenderedMarkdown worktreePath
         (ChangesStore.toggleRenderedMarkdown worktreePath
            (ChangesStore.toggleRenderedMarkdown worktreePath st)) = Value shown
     ∧ (ChangesStore.showRenderedMarkdown st !! worktreePath = None → shown = false))
  ∧ ChangesStore.toggleSection section (ChangesStore.toggleSection section st) = st.
Proof.
  intros Hproto. split.
  - unfold ChangesStore.getShowRenderedMarkdown, ChangesStore.toggleRenderedMarkdown,
      ChangesStore.not_shown. cbn. rewrite !lookup_insert_eq.
    rewrite (bool_decide_eq_false_2 _ Hproto).
    destruct (ChangesStore.showRenderedMarkdown st !! worktreePath) as [b|].
    + exists b. by rewrite negb_involutive.
    + by exists false.
  - destruct st as [? ? ? [a b c d] ? ?].
    unfold ChangesStore.toggleSection, ChangesStore.setSectionExpanded. cbn.
    destruct section; cbn; by rewrite negb_involutive.
Qed.

Lemma toggles_are_involutions_witness :
  ("/repo" ∉ object_prototype_keys)
  ∧ ChangesStore.getShowRenderedMarkdown "/repo"
      (ChangesStore.toggleRenderedMarkdown "/repo"
         (ChangesStore.initialState (ChangedFile := string)))
    = Value true.
Proof.
  assert ("/repo" ∉ object_prototype_keys) as Hproto.
  { apply (bool_decide_unpack _). vm_compute. exact I. }
  split; [done|].
  destruct (proj1 (toggles_are_involutions (ChangesStore.initialState (ChangedFile := string))
                     "/repo" ChangesStore.staged Hproto))
    as (shown & H0 & H1 & _ & Hdef).
  rewrite H1. by rewrite (Hdef eq_refl).
Defined.

(** A path named like a member of [Object.prototype] reads as that member
    until it is set, and its first toggle stores false. *)
Example inherited_name_reads :
  ChangesStore.getSelectedFile "constructor" (ChangesStore.initialState (ChangedFile := string))
  = Inherited "constructor"
  ∧ ChangesStore.getShowRenderedMarkdown "toString"
      (ChangesStore.toggleRenderedMarkdown "toString"
         (ChangesStore.initialState (ChangedFile := string))) = Value false.
Proof. by split. Qed.

(** ** The theme path check, for every request *)

Lemma prefix_true_app (a s : string) : String.prefix a s = true → ∃ t, s = a +:+ t.
Proof.
  revert s. induction a as [|c a IH]; intros s; [by exists s|].
  destruct s as [|c' s]; cbn [String.prefix]; [done|].
  destruct (Ascii.ascii_dec c c') as [<-|]; [|done].
  intros [t ->]%IH. by exists t.
Qed.

Lemma prefix_append (a t : string) : String.prefix a (a +:+ t) = true.
Proof.
  induction a as [|c a IH]; [apply prefix_nil_l|].
  change (String c a +:+ t) with (String c (a +:+ t)). cbn [String.prefix].
  by destruct (Ascii.ascii_dec c c).
Qed.

(** Appending to a string extends its last segment and adds segments. *)
Lemma split_extend a t init final :
  NodePath.split a = init ++ [final] →
  ∃ e rest, NodePath.split (a +:+ t) = init ++ (final +:+ e) :: rest.
Proof.
  revert init final. induction a as [|c a IH]; intros init final Hsplit.
  - destruct init as [|? [|? ?]]; [|done..]. injection Hsplit as <-.
    destruct (split_nonempty t) as (e & rest & Ht). by exists e, rest.
  - change (String c a +:+ t) with (String c (a +:+ t)).
    cbn [NodePath.split] in *. destruct (Ascii.eqb c "/").
    + destruct init as [|first init].
      { destruct (split_nonempty a) as (? & ? & Ha). rewrite Ha in Hsplit. done. }
      injection Hsplit as <- Ha.
      destruct (IH _ _ Ha) as (e & rest & ->). by exists e, rest.
    + destruct (split_nonempty a) as (seg & segs & Ha). rewrite Ha in Hsplit.
      destruct init as [|first init].
      * injection Hsplit as <- ->.
        destruct (IH [] seg Ha) as (e & rest & ->). by exists e, rest.
      * injection Hsplit as <- ->.
        destruct (IH (seg :: init) final Ha) as (e & rest & ->). by exists e, rest.
Qed.

Lemma split_slash_l s : NodePath.split ("/" +:+ s) = "" :: NodePath.split s.
Proof. done. Qed.

Lemma split_slash_r s : NodePath.split (s +:+ "/") = NodePath.split s ++ [""].
Proof. by rewrite (split_app s ""). Qed.

Lemma components_kept_ok s :
  kept_ok (negb (String.prefix "/" s)) (rev (NodePath.components s)).
Proof.
  unfold NodePath.components, NodePath.normalizeString. rewrite rev_involutive.
  apply foldl_push_kept_ok; [apply split_Forall|apply kept_ok_nil].
Qed.

(** The shape of every result of [path.normalize]: one of [.], [/], [./],
    or the kept segments joined, after [/] for an absolute path and before
    [/] for one with a trailing separator. *)
Lemma normalize_shape s :
  let isAbsolute := String.prefix "/" s in
  let kept := NodePath.components s in
  (kept = [] ∧ (NodePath.normalize s = "." ∨ NodePath.normalize s = "/"
                ∨ NodePath.normalize s = "./"))
  ∨ (kept ≠ [] ∧ String.prefix "/" (NodePath.normalize s) = isAbsolute
     ∧ ∃ trail, (trail = [] ∨ trail = [""])
         ∧ NodePath.split (NodePath.normalize s)
           = (if isAbsolute then [""] else []) ++ kept ++ trail).
Proof.
  intros isAbsolute kept.
  pose proof (components_kept_ok s) as Hk. fold isAbsolute kept in Hk.
  apply kept_ok_segments, Forall_rev in Hk. rewrite rev_involutive in Hk.
  unfold NodePath.normalize. destruct (decide (s = "")) as [->|Hs].
  { left. split; [done|]. by left. }
  rewrite (bool_decide_eq_false_2 _ Hs).
  change (NodePath.normalizeString (negb (String.prefix "/" s)) (NodePath.split s)) with kept.
  fold isAbsolute. cbv zeta.
  destruct (decide (kept = [])) as [Hnil|Hne].
  { left. split; [done|]. rewrite Hnil. cbn.
    destruct isAbsolute; [by right; left|].
    destruct (NodePath.ends_with_sep s); [by right; right|by left]. }
  right. split; [done|].
  assert (NodePath.join_with "/" kept ≠ "") as Hjoin.
  { intros [?|Hone]%join_with_empty; [done|]. rewrite Hone in Hk.
    apply Forall_cons in Hk as [[_ ?] _]. done. }
  rewrite (bool_decide_eq_false_2 _ Hjoin).
  assert (NodePath.split (NodePath.join_with "/" kept) = kept) as Hsplit.
  { apply split_join; [done|]. eapply Forall_impl; [done|]. by intros ? [? _]. }
  pose proof (prefix_slash_join kept Hk) as Hrel.
  destruct isAbsolute, (NodePath.ends_with_sep s).
  - split; [apply prefix_append|]. exists [""]. split; [by right|].
    by rewrite split_slash_l, split_slash_r, Hsplit.
  - split; [apply prefix_append|]. exists []. split; [by left|].
    by rewrite split_slash_l, Hsplit, app_nil_r.
  - split; [by rewrite prefix_slash_append|]. exists [""]. split; [by right|].
    by rewrite split_slash_r, Hsplit.
  - split; [done|]. exists []. split; [by left|]. by rewrite Hsplit, app_nil_r.
Qed.

(** [path.normalize] keeps the directories a path names. *)
Lemma components_normalize s :
  NodePath.components (NodePath.normalize s) = NodePath.components s.
Proof.
  pose proof (components_kept_ok s) as Hk.
  destruct (normalize_shape s) as [[Hnil Hn]|(Hne & Habs & trail & Htrail & Hsplit)].
  - rewrite Hnil. by destruct Hn as [->|[->| ->]].
  - unfold NodePath.components at 1. rewrite Habs, Hsplit.
    unfold NodePath.normalizeString. rewrite !foldl_app.
    assert (foldl (NodePath.push_segment (negb (String.prefix "/" s))) []
              (if String.prefix "/" s then [""] else []) = []) as ->
      by by destruct (String.prefix "/" s).
    rewrite <- (rev_involutive (NodePath.components s)) at 1.
    rewrite (foldl_push_kept _ _ Hk).
    destruct Htrail as [->| ->]; cbn [foldl]; by rewrite ?push_empty, rev_involutive.
Qed.

Lemma string_app_assoc (a b c : string) : (a +:+ b) +:+ c = a +:+ b +:+ c.
Proof.
  induction a as [|x a IH]; [done|].
  change ((String x a +:+ b) +:+ c) with (String x ((a +:+ b) +:+ c)). by rewrite IH.
Qed.

Lemma string_app_nil_r (a : string) : a +:+ "" = a.
Proof.
  induction a as [|x a IH]; [done|].
  change (String x a +:+ "") with (String x (a +:+ "")). by rewrite IH.
Qed.

Lemma kept_ok_no_dot allow kept : kept_ok allow kept → Forall (λ seg, seg ≠ ".") kept.
Proof.
  intros (names & n & -> & Hnames & _). apply Forall_app. split.
  - eapply Forall_impl; [done|]. by intros seg (_ & _ & ? & _).
  - apply Forall_forall. intros seg Hin. by apply elem_of_replicate in Hin as [-> _].
Qed.

Lemma split_render isAbsolute segs :
  segs ≠ [] → Forall (λ seg, no_slash seg = true) segs →
  NodePath.split (render isAbsolute segs) = (if isAbsolute then [""] else []) ++ segs.
Proof.
  intros Hne Hsegs. unfold render.
  destruct isAbsolute; [rewrite split_slash_l|change ("" +:+ ?x) with x];
    by rewrite split_join.
Qed.

Lemma prefix_slash_render isAbsolute segs t :
  segs ≠ [] → Forall (λ seg, no_slash seg = true ∧ seg ≠ "") segs →
  String.prefix "/" (render isAbsolute segs +:+ t) = isAbsolute.
Proof.
  intros Hne Hsegs. unfold render. destruct isAbsolute.
  - rewrite string_app_assoc. apply prefix_append.
  - rewrite prefix_slash_append; [by apply prefix_slash_join|].
    intros [?|Hone]%join_with_empty; [done|]. rewrite Hone in Hsegs.
    by apply Forall_cons in Hsegs as [[_ ?] _].
Qed.

(** The string [path.normalize] returns for a path that names a directory. *)
Lemma normalize_string s :
  NodePath.components s ≠ [] →
  ∃ t, NodePath.normalize s
       = render (String.prefix "/" s) (NodePath.components s) +:+ t.
Proof.
  intros Hne.
  pose proof (components_kept_ok s) as Hk.
  apply kept_ok_segments, Forall_rev in Hk. rewrite rev_involutive in Hk.
  unfold NodePath.normalize. rewrite bool_decide_eq_false_2 by (by intros ->).
  change (NodePath.normalizeString (negb (String.prefix "/" s)) (NodePath.split s))
    with (NodePath.components s).
  cbv zeta. rewrite bool_decide_eq_false_2.
  - unfold render.
    destruct (String.prefix "/" s), (NodePath.ends_with_sep s).
    + exists "/". by rewrite string_app_assoc.
    + exists "". by rewrite string_app_nil_r.
    + by exists "/".
    + exists "". by rewrite string_app_nil_r.
  - intros [?|Hone]%join_with_empty; [done|]. rewrite Hone in Hk.
    by apply Forall_cons in Hk as [[_ ?] _].
Qed.

(** The four extensions directories, in normal form. *)
Lemma extension_entry homedir entry :
  entry ∈ ThemeScanner.EXTENSION_PATHS homedir →
  ∃ d, plain d
    ∧ NodePath.normalize (ThemeScanner.path entry)
      = render (String.prefix "/" homedir) (NodePath.components homedir ++ [d; "extensions"])
    ∧ NodePath.components (ThemeScanner.path entry)
      = NodePath.components homedir ++ [d; "extensions"].
Proof.
  intros Hin.
  assert (∃ d, plain d ∧ ThemeScanner.path entry = NodePath.join [homedir; d; "extensions"])
    as (d & Hd & ->).
  { unfold ThemeScanner.EXTENSION_PATHS in Hin.
    repeat (apply elem_of_cons in Hin as [->|Hin];
            [eexists; split; [|reflexivity]; unfold plain; by split_and!|]).
    by apply elem_of_nil in Hin. }
  exists d. split; [done|].
  destruct (join_home homedir [d; "extensions"]) as (Hj & Hn & Hc); [solve_plain|done|].
  split.
  - by rewrite Hn, Hj.
  - by rewrite <- components_normalize, Hc.
Qed.

Lemma join_with_extend d x e rest :
  ∃ t, NodePath.join_with "/" (d :: (x +:+ e) :: rest)
       = NodePath.join_with "/" [d; x] +:+ t.
Proof.
  rewrite !join_with_cons.
  destruct rest as [|next rest].
  - exists e. cbn [NodePath.join_with].
    by rewrite (string_app_assoc d (String "/" x) e).
  - rewrite join_with_cons. cbn [NodePath.join_with].
    exists (e +:+ String "/" (NodePath.join_with "/" (next :: rest))).
    rewrite (string_app_assoc d (String "/" x)).
    change (String "/" x +:+ ?t) with (String "/" (x +:+ t)).
    by rewrite string_app_assoc.
Qed.

Lemma render_extend isAbsolute parent d x e rest :
  ∃ t, render isAbsolute (parent ++ d :: (x +:+ e) :: rest)
       = render isAbsolute (parent ++ [d; x]) +:+ t.
Proof.
  destruct (join_with_extend d x e rest) as [t Ht]. exists t.
  unfold render. rewrite string_app_assoc. f_equal.
  rewrite !join_with_app by done. rewrite Ht.
  induction parent as [|seg parent IH]; [done|].
  cbn [foldr]. rewrite IH. rewrite (string_app_assoc seg).
  done.
Qed.

(** X25: the check of [vscode:load-theme], for every home directory and
    every request: a path is accepted exactly when it is absolute or relative
    as the home directory is and, [.] and [..] resolved, lies inside a
    directory that stands where an extensions directory stands and whose
    name begins with [extensions]. *)
Theorem load_theme_check_exactly homedir themePath :
  ThemeScanner.isAllowedPath homedir themePath = true
  ↔ String.prefix "/" themePath = String.prefix "/" homedir
    ∧ ∃ entry parent dir rest,
        entry ∈ ThemeScanner.EXTENSION_PATHS homedir
        ∧ NodePath.components (ThemeScanner.path entry) = parent ++ ["extensions"]
        ∧ String.prefix "extensions" dir = true
        ∧ NodePath.components themePath = parent ++ dir :: rest.
Proof.
  set (isAbsolute := String.prefix "/" homedir).
  set (home := NodePath.components homedir).
  pose proof (components_kept_ok homedir) as Hhome. fold isAbsolute home in Hhome.
  pose proof (kept_ok_segments _ _ Hhome) as Hsegs.
  pose proof (kept_ok_no_dot _ _ Hhome) as Hdots.
  apply Forall_rev in Hsegs, Hdots. rewrite rev_involutive in Hsegs, Hdots.
  rewrite isAllowedPath_startsWith. split.
  - intros (entry & Hin & Hpre)%existsb_exists. apply list_elem_of_In in Hin.
    unfold ThemeScanner.startsWith in Hpre.
    destruct (extension_entry homedir entry Hin) as (d & Hd & Hnorm & Hcomp).
    fold isAbsolute home in Hnorm, Hcomp. rewrite Hnorm in Hpre.
    apply prefix_true_app in Hpre as [t Ht].
    assert (Forall (λ seg, no_slash seg = true ∧ seg ≠ "") (home ++ [d; "extensions"]))
      as Hall.
    { apply Forall_app. split; [done|]. destruct Hd as (? & ? & _).
      by repeat constructor. }
    assert (NodePath.split (render isAbsolute (home ++ [d; "extensions"]))
            = ((if isAbsolute then [""] else []) ++ home ++ [d]) ++ ["extensions"])
      as Hsplit.
    { rewrite split_render.
      - by rewrite <- !app_assoc.
      - by destruct home.
      - eapply Forall_impl; [done|]. by intros ? [? _]. }
    destruct (split_extend _ t _ _ Hsplit) as (e & more & Hext).
    rewrite <- Ht in Hext.
    assert (String.prefix "/" (NodePath.normalize themePath) = isAbsolute) as Habs.
    { rewrite Ht. apply prefix_slash_render; [by destruct home|done]. }
    destruct (normalize_shape themePath)
      as [[_ Hn]|(Hne & Habs' & trail & Htrail & Hshape)].
    { exfalso. destruct Hd as (_ & Hd1 & Hd2 & _).
      destruct Hn as [Hn|[Hn|Hn]]; rewrite Hn in Hext; cbn in Hext;
        destruct isAbsolute; destruct home as [|h [|h' home']];
        cbn in Hext; try done; try (by destruct more);
        try (injection Hext as ? ?; subst; done);
        try (apply Forall_cons in Hsegs as [[_ ?] _];
             apply Forall_cons in Hdots as [? _];
             injection Hext as ? ?; subst; done). }
    rewrite Habs in Habs'. split; [done|].
    rewrite <- Habs', Hext, <- !app_assoc in Hshape.
    apply app_inv_head in Hshape. cbn [app] in Hshape.
    exists entry, (home ++ [d]), ("extensions" +:+ e).
    destruct Htrail as [->| ->].
    + exists more. rewrite app_nil_r in Hshape.
      split; [done|]. split; [by rewrite Hcomp, <- app_assoc|].
      split; [apply prefix_append|]. by rewrite <- Hshape, <- app_assoc.
    + destruct more as [|final more _] using rev_ind.
      * exfalso.
        change (home ++ [d; "extensions" +:+ e])
          with (home ++ [d] ++ ["extensions" +:+ e]) in Hshape.
        rewrite app_assoc in Hshape. by apply app_inj_tail in Hshape as [_ ?].
      * exists more.
        change (home ++ d :: ("extensions" +:+ e) :: more ++ [final])
          with (home ++ (d :: ("extensions" +:+ e) :: more) ++ [final]) in Hshape.
        rewrite app_assoc in Hshape. apply app_inj_tail in Hshape as [Hshape _].
        split; [done|]. split; [by rewrite Hcomp, <- app_assoc|].
        split; [apply prefix_append|]. by rewrite <- Hshape, <- app_assoc.
  - intros (Habs & entry & parent & dir & rest & Hin & Hentry & Hdir & Hcomp).
    apply existsb_exists. exists entry. split; [by apply list_elem_of_In|].
    unfold ThemeScanner.startsWith.
    destruct (extension_entry homedir entry Hin) as (d & Hd & Hnorm & Hcomp').
    fold isAbsolute home in Hnorm, Hcomp'. rewrite Hnorm.
    rewrite Hentry in Hcomp'.
    change (home ++ [d; "extensions"]) with (home ++ [d] ++ ["extensions"]) in Hcomp'.
    rewrite app_assoc in Hcomp'. apply app_inj_tail in Hcomp' as [-> _].
    apply prefix_true_app in Hdir as [e ->].
    destruct (normalize_string themePath) as [t ->].
    { rewrite Hcomp. by destruct (home ++ [d]). }
    rewrite Hcomp, Habs. fold isAbsolute. rewrite <- app_assoc. cbn [app].
    destruct (render_extend isAbsolute home d "extensions" e rest) as [t' ->].
    rewrite string_app_assoc. apply prefix_append.
Qed.

(** ** The scan of the extensions directories *)

Lemma add_themes_snoc acc themes theme :
  ThemeScan.add_themes acc (themes ++ [theme])
  = let '(seenPaths, allThemes) := ThemeScan.add_themes acc themes in
    if bool_decide (ThemeScan.uniqueKey theme ∈ seenPaths) then (seenPaths, allThemes)
    else ({[ ThemeScan.uniqueKey theme ]} ∪ seenPaths, allThemes ++ [theme]).
Proof.
  unfold ThemeScan.add_themes. rewrite foldl_app. cbn [foldl].
  by destruct (foldl _ acc themes).
Qed.

Lemma add_themes_bind {A} (f : A → list ThemeScan.DiscoveredTheme) acc (entries : list A) :
  foldl (λ acc entry, ThemeScan.add_themes acc (f entry)) acc entries
  = ThemeScan.add_themes acc (entries ≫= f).
Proof.
  revert acc. induction entries as [|entry entries IH]; intros acc; [done|].
  cbn [foldl]. rewrite IH, bind_cons. unfold ThemeScan.add_themes. by rewrite foldl_app.
Qed.

(** What the two loops keep: the first theme of each key. *)
Lemma add_themes_inv themes :
  let '(seenPaths, allThemes) := ThemeScan.add_themes (∅, []) themes in
  (∀ k, k ∈ seenPaths ↔ k ∈ ThemeScan.uniqueKey <$> themes)
  ∧ (∀ k, k ∈ ThemeScan.uniqueKey <$> allThemes ↔ k ∈ ThemeScan.uniqueKey <$> themes)
  ∧ NoDup (ThemeScan.uniqueKey <$> allThemes)
  ∧ ∀ theme, theme ∈ allThemes →
      ∃ before after, themes = before ++ theme :: after
                      ∧ ThemeScan.uniqueKey theme ∉ ThemeScan.uniqueKey <$> before.
Proof.
  induction themes as [|theme themes IH] using rev_ind.
  { cbn. split; [set_solver|]. split; [done|]. split; [constructor|].
    intros ? []%elem_of_nil. }
  rewrite add_themes_snoc.
  destruct (ThemeScan.add_themes (∅, []) themes) as [seenPaths allThemes].
  destruct IH as (Hseen & Hall & Hnodup & Hfirst).
  rewrite fmap_app. cbn [fmap list_fmap].
  destruct (decide (ThemeScan.uniqueKey theme ∈ seenPaths)) as [Hin|Hnew].
  - rewrite (bool_decide_eq_true_2 _ Hin).
    split; [|split; [|split; [done|]]].
    + intros k. rewrite elem_of_app, list_elem_of_singleton, <- Hseen.
      split; [tauto|]. by intros [?| ->].
    + intros k. rewrite elem_of_app, list_elem_of_singleton, Hall, <- !Hseen.
      split; [tauto|]. by intros [?| ->].
    + intros kept (before & after & -> & Hb)%Hfirst.
      exists before, (after ++ [theme]). by rewrite <- app_assoc.
  - rewrite (bool_decide_eq_false_2 _ Hnew).
    split; [|split; [|split]].
    + intros k. rewrite elem_of_union, elem_of_singleton, elem_of_app,
        list_elem_of_singleton, Hseen. tauto.
    + intros k. rewrite fmap_app. cbn [fmap list_fmap].
      rewrite !elem_of_app, Hall. tauto.
    + rewrite fmap_app. cbn [fmap list_fmap]. apply NoDup_app.
      split; [done|]. split; [|apply NoDup_singleton].
      intros k Hk ->%list_elem_of_singleton. apply Hnew, Hseen, Hall, Hk.
    + intros kept [Hkept| ->%list_elem_of_singleton]%elem_of_app.
      * destruct (Hfirst kept Hkept) as (before & after & -> & Hb).
        exists before, (after ++ [theme]). by rewrite <- app_assoc.
      * exists themes, []. split; [done|]. by rewrite <- Hseen.
Qed.

(** X26: [scanVSCodeThemes] returns one theme for each key
    (extension id and file name) that the scans of the four directories
    found, and it is the first one found with that key, whatever order the
    final sort puts the themes in. *)
Theorem scan_keeps_first_of_each_key scanExtensionsDir sort homedir :
  (∀ themes, sort themes ≡ₚ themes) →
  let found := ThemeScan.scanVSCodeThemes scanExtensionsDir sort homedir in
  let all := ThemeScan.scanned scanExtensionsDir homedir in
  NoDup (ThemeScan.uniqueKey <$> found)
  ∧ (∀ theme, theme ∈ all → ThemeScan.uniqueKey theme ∈ ThemeScan.uniqueKey <$> found)
  ∧ ∀ theme, theme ∈ found →
      ∃ before after, all = before ++ theme :: after
                      ∧ ThemeScan.uniqueKey theme ∉ ThemeScan.uniqueKey <$> before.
Proof.
  intros Hsort found all. subst found all.
  unfold ThemeScan.scanVSCodeThemes, ThemeScan.scanned.
  rewrite (add_themes_bind
             (λ entry, scanExtensionsDir (ThemeScanner.path entry) (ThemeScanner.source entry))).
  pose proof (add_themes_inv
                (ThemeScanner.EXTENSION_PATHS homedir
                   ≫= λ entry, scanExtensionsDir (ThemeScanner.path entry)
                                 (ThemeScanner.source entry))) as Hinv.
  destruct (ThemeScan.add_themes _ _) as [seenPaths allThemes].
  destruct Hinv as (_ & Hall & Hnodup & Hfirst). cbn [snd].
  split; [by rewrite Hsort|]. split.
  - intros theme Hin. rewrite Hsort. apply Hall. by apply list_elem_of_fmap_2.
  - intros theme Hin. rewrite Hsort in Hin. by apply Hfirst.
Qed.

Lemma scan_keeps_first_of_each_key_witness :
  (∀ themes, by_extension_name themes ≡ₚ themes)
  ∧ NoDup (ThemeScan.uniqueKey
             <$> ThemeScan.scanVSCodeThemes on_disk by_extension_name "/home/user").
Proof.
  assert (∀ themes, by_extension_name themes ≡ₚ themes) as Hsort.
  { intros themes. apply merge_sort_Permutation. }
  split; [done|].
  apply (scan_keeps_first_of_each_key on_disk by_extension_name "/home/user" Hsort).
Defined.

(** The extension installed for two editors is listed once, from the first
    directory scanned. *)
Example scan_home_user :
  ThemeScan.scanVSCodeThemes on_disk by_extension_name "/home/user"
  = [ dracula "/home/user/.vscode/extensions" ThemeScanner.vscode;
      solarized "/home/user/.cursor/extensions" ThemeScanner.cursor ].
Proof. by vm_compute. Qed.
